(** * MCP App HTML proxy: the sandbox session protocol, verified

    A shallow embedding of the proxy page ([pages/[id]/index.tsx]), of its
    cache helpers ([src/utils/cache.ts]) and of the persistent cache
    endpoint ([pages/api/cache/[key].ts]), with the properties stated about
    them.

    - JavaScript strings are sequences of UTF-16 code units; a code unit is
      an [N] and a string a [list N].
    - The regular expressions of the page are backtracking matchers in
      continuation-passing style, one combinator per regex construct, so
      that a greedy quantifier gives up code units in the order the engine
      does; [test] and [replace] search the leftmost match, and [replace]
      expands the [$] patterns of its replacement.
    - Message payloads, typed [any] in the page, are values of [JsVal].
    - The handlers of a session are functions on a [State] that holds the
      inner iframe, the variables of the closure, the timers, the memory
      cache of the module and the record of what was posted and fetched.
      An [await] splits a function in two.
    - A built-in that raises returns [None]; a handler that ends on an
      uncaught exception returns [Thrown].
    - The persistent endpoint is a function from the store and a request
      to a response and the store. *)

From Stdlib Require Import NArith Ascii String Lia.
From stdpp Require Import base option list strings gmap.

Set Default Goal Selector "!".

(** ** Strings as lists of UTF-16 code units *)

Abbreviation jsstring := (list N).

(** [str] reads an ASCII literal as a JavaScript string. *)
Definition str (s : string) : jsstring :=
  List.map N_of_ascii (list_ascii_of_string s).

Definition c_lf : N := 10.        (* \n *)
Definition c_dq : N := 34.        (* double quote *)
Definition c_dollar : N := 36.    (* $ *)
Definition c_amp : N := 38.       (* & *)
Definition c_apos : N := 39.      (* ' *)
Definition c_slash : N := 47.     (* / *)
Definition c_lt : N := 60.        (* < *)
Definition c_gt : N := 62.        (* > *)
Definition c_backtick : N := 96.  (* ` *)

(** The ASCII literals of the page. *)
Definition s_head : jsstring := Eval cbv in str "head".
Definition s_html : jsstring := Eval cbv in str "html".
Definition s_lt_meta : jsstring := Eval cbv in str "<meta".
Definition s_http_equiv : jsstring := Eval cbv in str "http-equiv=".
Definition s_csp_name : jsstring := Eval cbv in str "Content-Security-Policy".
Definition s_ent_gt : jsstring := Eval cbv in str "&gt;".
Definition s_ent_lt : jsstring := Eval cbv in str "&lt;".
Definition s_ent_quot : jsstring := Eval cbv in str "&quot;".
Definition s_ent_amp : jsstring := Eval cbv in str "&amp;".
Definition s_head_ref : jsstring := Eval cbv in str "<head$1>".
Definition s_html_ref : jsstring := Eval cbv in str "<html$1>".
Definition s_head_open : jsstring := Eval cbv in str "<head>".
Definition s_head_close : jsstring := Eval cbv in str "</head>".

(* The literals are unfolded on demand only. *)
Arguments s_head : simpl never.
Arguments s_html : simpl never.
Arguments s_lt_meta : simpl never.
Arguments s_http_equiv : simpl never.
Arguments s_csp_name : simpl never.
Arguments s_head_ref : simpl never.
Arguments s_html_ref : simpl never.
Arguments s_head_open : simpl never.
Arguments s_head_close : simpl never.

(** JavaScript truthiness of a string: [!s] holds exactly for the empty one. *)
Definition isEmpty (s : jsstring) : bool :=
  match s with [] => true | _ => false end.

(** ** Regular expressions with the [i] flag

    Without the [u] flag, case-insensitive matching compares the
    canonical (upper-cased) forms of code units, and a non-ASCII code unit
    is never canonicalised to an ASCII one.  Every literal of the three
    regexes of the page is ASCII, so canonicalising the ASCII lower-case
    letters is all that matching against them needs. *)

Definition canon (c : N) : N :=
  if ((97 <=? c) && (c <=? 122))%N then (c - 32)%N else c.

Definition ci_eqb (a c : N) : bool := (canon a =? canon c)%N.

(** A literal, matched case-insensitively at the current position; the
    result is the rest of the subject. *)
Fixpoint lit_ci (p s : jsstring) : option jsstring :=
  match p with
  | [] => Some s
  | a :: p' =>
      match s with
      | c :: s' => if ci_eqb a c then lit_ci p' s' else None
      | [] => None
      end
  end.

(** The class of the two quote characters (double and single). *)
Definition quote_cls (s : jsstring) : option jsstring :=
  match s with
  | c :: s' => if ((c =? c_dq) || (c =? c_apos))%N then Some s' else None
  | [] => None
  end.

Section Quantifiers.
Context {R : Type}.

(** [[^x]*] followed by the continuation [k], which receives the text
    the star consumed and the rest of the subject.  Greedy: one more code
    unit is tried first, and given back when the continuation fails. *)
Fixpoint star_not (x : N) (k : jsstring -> jsstring -> option R)
    (s : jsstring) {struct s} : option R :=
  match s with
  | [] => k [] []
  | c :: s' =>
      if (c =? x)%N then k [] s
      else match star_not x (fun m r => k (c :: m) r) s' with
           | Some r => Some r
           | None => k [] s
           end
  end.

(** [[^x]+] followed by the continuation [k]. *)
Definition plus_not (x : N) (k : jsstring -> jsstring -> option R)
    (s : jsstring) : option R :=
  match s with
  | [] => None
  | c :: s' =>
      if (c =? x)%N then None
      else star_not x (fun m r => k (c :: m) r) s'
  end.
End Quantifiers.

(** A regex anchored at the current position: on success, the capture
    groups and the rest of the subject after the match. *)
Definition matcher := jsstring -> option (list jsstring * jsstring).

(** An open tag at the current position, with the [i] flag: [<NAME], then
    the capture group holding [[^>]*], then [>]. *)
Definition re_open_tag (name : jsstring) : matcher := fun s =>
  s1 ← lit_ci (c_lt :: name) s;
  star_not c_gt
    (fun cap s2 => s3 ← lit_ci [c_gt] s2; Some ([cap], s3)) s1.

(** The two regexes of [injectIntoHead]: the open tags of [head] and of
    [html]. *)
Definition headRegex : matcher := re_open_tag s_head.
Definition htmlRegex : matcher := re_open_tag s_html.

(** The CSP detection regex of [ensureCspMeta], at the current position:
    [<meta], then [[^>]+], then [http-equiv=], a quote,
    [Content-Security-Policy], a quote, then [[^>]*] and [>], with the
    [i] flag. *)
Definition cspRegex : matcher := fun s =>
  s1 ← lit_ci s_lt_meta s;
  plus_not c_gt
    (fun _ s2 =>
       s3 ← lit_ci s_http_equiv s2;
       s4 ← quote_cls s3;
       s5 ← lit_ci s_csp_name s4;
       s6 ← quote_cls s5;
       star_not c_gt (fun _ s7 => s8 ← lit_ci [c_gt] s7; Some ([], s8)) s6)
    s1.

(** The search of a regex without the [g] and [y] flags: the leftmost
    position at which the regex matches, as (text before the match,
    captures, text after the match). *)
Fixpoint re_search (m : matcher) (s : jsstring)
    : option (jsstring * list jsstring * jsstring) :=
  match m s with
  | Some (caps, rest) => Some ([], caps, rest)
  | None =>
      match s with
      | [] => None
      | c :: s' =>
          match re_search m s' with
          | Some (pre, caps, rest) => Some (c :: pre, caps, rest)
          | None => None
          end
      end
  end.

(** [RegExp.prototype.test]. *)
Definition re_test (m : matcher) (s : jsstring) : bool :=
  match re_search m s with Some _ => true | None => false end.

(** ** [String.prototype.replace] with a string replacement

    The replacement is a template: [GetSubstitution] expands [$$], [$&],
    [$`], [$'] and [$n] / [$nn] in it (there are no named groups in the
    regexes of the page, so [$<] stays as it is). *)

Definition isDigit (c : N) : bool := ((48 <=? c) && (c <=? 57))%N.
Definition digitVal (c : N) : nat := N.to_nat (c - 48).

Section GetSubstitution.
Variables (matched before after : jsstring) (captures : list jsstring).

(** [$n] with [index] in range is the capture, otherwise the reference
    text [ref] itself. *)
Definition captureOr (index : nat) (ref : jsstring) : jsstring :=
  if ((1 <=? index) && (index <=? length captures))%nat
  then default [] (captures !! (index - 1)%nat)
  else ref.

Fixpoint getSubstitution (t : jsstring) : jsstring :=
  match t with
  | [] => []
  | c :: t1 =>
      if negb (c =? c_dollar)%N then c :: getSubstitution t1
      else
        match t1 with
        | [] => [c]
        | d :: t2 =>
            if (d =? c_dollar)%N then c_dollar :: getSubstitution t2
            else if (d =? c_backtick)%N then before ++ getSubstitution t2
            else if (d =? c_amp)%N then matched ++ getSubstitution t2
            else if (d =? c_apos)%N then after ++ getSubstitution t2
            else if isDigit d then
              match t2 with
              | e :: t3 =>
                  if isDigit e
                     && (10 * digitVal d + digitVal e <=? length captures)%nat
                  then
                    (* two digits, index within the number of captures
                       (index 0 gives the reference text back) *)
                    captureOr (10 * digitVal d + digitVal e) [c; d; e]
                      ++ getSubstitution t3
                  else captureOr (digitVal d) [c; d] ++ getSubstitution t2
              | [] => captureOr (digitVal d) [c; d] ++ getSubstitution t2
              end
            else c :: getSubstitution t1
        end
  end.
End GetSubstitution.

(** [s.replace(re, template)] for a regex without the [g] flag. *)
Definition re_replace (m : matcher) (s template : jsstring) : jsstring :=
  match re_search m s with
  | None => s
  | Some (pre, caps, rest) =>
      let matched :=
        take (length s - length pre - length rest) (drop (length pre) s) in
      pre ++ getSubstitution matched pre rest caps template ++ rest
  end.

(** [s.replace(/x/g, by)] for a single code unit [x] and a replacement
    without [$]. *)
Definition replaceAllChar (x : N) (by_ : jsstring) (s : jsstring) : jsstring :=
  flat_map (fun c => if (c =? x)%N then by_ else [c]) s.

(** ** The CSP injector ([pages/[id]/index.tsx]) *)

Definition DEFAULT_SANDBOX : jsstring :=
  Eval cbv in str "allow-scripts allow-same-origin".

Definition DEFAULT_CSP : jsstring :=
  Eval cbv in str "default-src 'none'; script-src 'self' 'unsafe-inline' 'unsafe-eval' blob:; style-src 'self' 'unsafe-inline' blob:; img-src 'self' data: blob:; font-src 'self' data: blob:; connect-src *; media-src 'self' data: blob:; frame-src *; object-src 'none'; base-uri 'self'; form-action 'none'".

Definition escapeHtmlAttr (value : jsstring) : jsstring :=
  replaceAllChar c_gt s_ent_gt
    (replaceAllChar c_lt s_ent_lt
       (replaceAllChar c_dq s_ent_quot
          (replaceAllChar c_amp s_ent_amp value))).

Definition injectIntoHead (html headContent : jsstring) : jsstring :=
  if isEmpty headContent then html
  else if re_test headRegex html then
    re_replace headRegex html
      (s_head_ref ++ [c_lf] ++ headContent ++ [c_lf])
  else if re_test htmlRegex html then
    re_replace htmlRegex html
      (s_html_ref ++ [c_lf] ++ s_head_open
         ++ [c_lf] ++ headContent ++ [c_lf] ++ s_head_close)
  else
    s_head_open ++ [c_lf] ++ headContent ++ [c_lf]
      ++ s_head_close ++ [c_lf] ++ html.

(** The meta tag built by [ensureCspMeta]: its fixed opening, up to the
    quote that opens the content attribute, the escaped policy, and the
    closing quote and bracket. *)
Definition metaTagOpen : jsstring :=
  Eval cbv in
    str "<meta http-equiv=" ++ [c_dq] ++ str "Content-Security-Policy"
      ++ [c_dq] ++ str " content=" ++ [c_dq].

Definition metaTagClose : jsstring := [c_dq; c_gt].

Definition metaTag (csp : jsstring) : jsstring :=
  metaTagOpen ++ escapeHtmlAttr csp ++ metaTagClose.

Definition ensureCspMeta (html csp : jsstring) (overwrite : bool) : jsstring :=
  if isEmpty html || isEmpty csp then html
  else
    let hasCsp := re_test cspRegex html in
    if hasCsp && negb overwrite then html
    else if hasCsp && overwrite then re_replace cspRegex html (metaTag csp)
    else injectIntoHead html (metaTag csp).


(** The CSP meta tags of a text: the text matched by the CSP detection
    regex at every position where it matches, from left to right. *)
Fixpoint cspTags (s : jsstring) : list jsstring :=
  match cspRegex s with
  | Some (_, rest) => [take (length s - length rest) s]
  | None => []
  end ++
  match s with
  | [] => []
  | _ :: s' => cspTags s'
  end.

(** Equality of two code units up to the case of ASCII letters. *)
Definition cieq (c c' : N) : Prop := canon c = canon c'.

(** The escaping of one code unit in an HTML attribute value: the
    ampersand, the double quote and the two angle brackets are written as
    entities. *)
Definition escapeChar (c : N) : jsstring :=
  if (c =? c_amp)%N then s_ent_amp
  else if (c =? c_dq)%N then s_ent_quot
  else if (c =? c_lt)%N then s_ent_lt
  else if (c =? c_gt)%N then s_ent_gt
  else [c].
(** ** Relations used to state how far a matcher looks

    Two texts are [sim]ilar when they agree, up to the case of their
    letters, as far as their first [>]. *)

Inductive sim : jsstring → jsstring → Prop :=
  | sim_gt z z' : sim (c_gt :: z) (c_gt :: z')
  | sim_cons c c' s s' : canon c = canon c' → sim s s' → sim (c :: s) (c' :: s').

(** Two results [agree] when both are a match or both are a failure. *)
Definition agree {A B} (o : option A) (o' : option B) : Prop := is_Some o ↔ is_Some o'.

(** [r] is what is left of [s] after a prefix without [>]. *)
Definition gtfree_prefix (s r : jsstring) : Prop := ∃ a, s = a ++ r ∧ c_gt ∉ a.


(** ** Message payloads

    A message carries a structured-cloneable JavaScript value, typed [any]
    in the page.  Numbers are kept as integers: the page only looks at their
    truthiness. *)

#[local] Unset Elimination Schemes.
Inductive JsVal :=
  | VUndefined
  | VNull
  | VBool (b : bool)
  | VNum (n : Z)
  | VStr (s : jsstring)
  | VObj (fields : list (jsstring * JsVal)).
#[local] Set Elimination Schemes.

(** [ToBoolean]. *)
Definition truthy (v : JsVal) : bool :=
  match v with
  | VUndefined | VNull => false
  | VBool b => b
  | VNum n => negb (n =? 0)%Z
  | VStr s => negb (isEmpty s)
  | VObj _ => true
  end.

Fixpoint lookupField (k : jsstring) (fields : list (jsstring * JsVal)) : JsVal :=
  match fields with
  | [] => VUndefined
  | (k', v) :: fields' => if decide (k = k') then v else lookupField k fields'
  end.

(** [v.k] for a value that is not null or undefined, and for the property
    names the page reads ([method], [params], [html], [sandbox],
    [resource], [csp]), none of which a primitive has. *)
Definition getProp (v : JsVal) (k : jsstring) : JsVal :=
  match v with
  | VObj fields => lookupField k fields
  | _ => VUndefined
  end.

Definition s_method : jsstring := Eval cbv in str "method".
Definition s_params : jsstring := Eval cbv in str "params".
Definition s_html_key : jsstring := Eval cbv in str "html".
Definition s_sandbox : jsstring := Eval cbv in str "sandbox".
Definition s_resource : jsstring := Eval cbv in str "resource".
Definition s_csp : jsstring := Eval cbv in str "csp".
Definition s_flowId : jsstring := Eval cbv in str "flowId".
Definition s_jsonrpc : jsstring := Eval cbv in str "jsonrpc".
Definition s_2_0 : jsstring := Eval cbv in str "2.0".
Definition s_default : jsstring := Eval cbv in str "default".
Definition s_colons : jsstring := Eval cbv in str "::".
Definition s_cache_buster : jsstring := Eval cbv in str "cache_buster".
Definition s_GET : jsstring := Eval cbv in str "GET".
Definition s_POST : jsstring := Eval cbv in str "POST".
Definition s_text_html : jsstring := Eval cbv in str "text/html; charset=utf-8".
Definition CACHE_ENDPOINT_BASE : jsstring := Eval cbv in str "/api/cache".
Definition m_client_ready : jsstring :=
  Eval cbv in str "ui/notifications/client-ready".
Definition m_sandbox_resource_ready : jsstring :=
  Eval cbv in str "ui/notifications/sandbox-resource-ready".
Definition m_sandbox_ready : jsstring :=
  Eval cbv in str "ui/notifications/sandbox-ready".
Definition m_sandbox_resource : jsstring :=
  Eval cbv in str "ui/requests/sandbox-resource".

(** [data && data.method === m]. *)
Definition hasMethod (data : JsVal) (m : jsstring) : bool :=
  truthy data
  && match getProp data s_method with
     | VStr s => bool_decide (s = m)
     | _ => false
     end.

(** ** Built-ins of the language used by the page *)

(** White space and line terminators, the code units [trim] removes. *)
Definition isWhiteSpace (c : N) : bool :=
  bool_decide (c ∈ [9; 10; 11; 12; 13; 32; 160; 5760; 8232; 8233; 8239; 8287;
                    12288; 65279]%N)
  || ((8192 <=? c) && (c <=? 8202))%N.

Fixpoint trimStart (s : jsstring) : jsstring :=
  match s with
  | c :: s' => if isWhiteSpace c then trimStart s' else s
  | [] => []
  end.

Definition trim (s : jsstring) : jsstring := rev (trimStart (rev (trimStart s))).

(** [s.includes(sub)]. *)
Fixpoint includes (sub s : jsstring) : bool :=
  bool_decide (take (length sub) s = sub)
  || match s with
     | [] => false
     | _ :: s' => includes sub s'
     end.

(** [encodeURIComponent]: the unreserved code units stay, every other code
    point is written as the percent-escapes of its UTF-8 octets, and a
    surrogate without its pair raises a [URIError] ([None]). *)
Definition isUnreserved (c : N) : bool :=
  ((48 <=? c) && (c <=? 57) || (65 <=? c) && (c <=? 90)
   || (97 <=? c) && (c <=? 122))%N
  || bool_decide (c ∈ [45; 95; 46; 33; 126; 42; 39; 40; 41]%N).

Definition hexDigit (n : N) : N := if (n <? 10)%N then (48 + n)%N else (55 + n)%N.

Definition percentOctet (b : N) : jsstring := [37%N; hexDigit (b / 16); hexDigit (b mod 16)].

Definition utf8Octets (cp : N) : list N :=
  if (cp <? 128)%N then [cp]
  else if (cp <? 2048)%N then [192 + cp / 64; 128 + cp mod 64]%N
  else if (cp <? 65536)%N then
    [224 + cp / 4096; 128 + (cp / 64) mod 64; 128 + cp mod 64]%N
  else
    [240 + cp / 262144; 128 + (cp / 4096) mod 64; 128 + (cp / 64) mod 64;
     128 + cp mod 64]%N.

Definition percentEncode (cp : N) : jsstring := flat_map percentOctet (utf8Octets cp).

Definition isLeadSurrogate (c : N) : bool := ((55296 <=? c) && (c <=? 56319))%N.
Definition isTrailSurrogate (c : N) : bool := ((56320 <=? c) && (c <=? 57343))%N.

Fixpoint encodeURIComponent (s : jsstring) : option jsstring :=
  match s with
  | [] => Some []
  | c :: s1 =>
      if isUnreserved c then t ← encodeURIComponent s1; Some (c :: t)
      else if isTrailSurrogate c then None
      else if isLeadSurrogate c then
        match s1 with
        | d :: s2 =>
            if isTrailSurrogate d then
              t ← encodeURIComponent s2;
              Some (percentEncode ((c - 55296) * 1024 + (d - 56320) + 65536)%N ++ t)
            else None
        | [] => None
        end
      else t ← encodeURIComponent s1; Some (percentEncode c ++ t)
  end.

(** ** The cache helpers ([src/utils/cache.ts]) *)

(** A call of [fetch]. *)
Record FetchCall := {
  fc_method : jsstring;
  fc_path : jsstring;
  fc_contentType : option jsstring;
  fc_body : option jsstring;
}.

(** The two calls the helpers make: a [POST] of the HTML with its content
    type, and a [GET]. *)
Definition postCall (path html : jsstring) : FetchCall :=
  {| fc_method := s_POST; fc_path := path; fc_contentType := Some s_text_html;
     fc_body := Some html |}.

Definition getCall (path : jsstring) : FetchCall :=
  {| fc_method := s_GET; fc_path := path; fc_contentType := None; fc_body := None |}.

(** What a [fetch] and the reading of its body come to: a rejected
    promise, or a response with its status and its text ([None] when
    reading the text fails). *)
Inductive FetchOutcome :=
  | FetchRejected
  | FetchResponse (status : nat) (text : option jsstring).

(** Double-encoded, to keep slashes and colons intact through the routing. *)
Definition encodeCacheKey (key : jsstring) : option jsstring :=
  once ← encodeURIComponent key; encodeURIComponent once.

(** [buildCachePath(key, namespace)]; it raises when the encoding does. *)
Definition buildCachePath (key : jsstring) (namespace : option jsstring)
    : option jsstring :=
  let namespacedKey :=
    match namespace with
    | Some ns => if isEmpty ns then key else ns ++ s_colons ++ key
    | None => key
    end in
  enc ← encodeCacheKey namespacedKey;
  Some (CACHE_ENDPOINT_BASE ++ [c_slash] ++ enc).

(** ** The session ([SandboxProxyPage] and its effect) *)

(** What the router supplies. *)
Record Config := {
  flowId : option jsstring;
  resourceUrl : option jsstring;
  noCacheParam : bool;
}.

(** [flowId || 'default']. *)
Definition cacheNamespace (cfg : Config) : jsstring :=
  match flowId cfg with
  | Some f => if isEmpty f then s_default else f
  | None => s_default
  end.

(** [resourceUrl ? `${cacheNamespace}::${resourceUrl}` : null]. *)
Definition namespacedKey (cfg : Config) : option jsstring :=
  match resourceUrl cfg with
  | Some r => if isEmpty r then None else Some (cacheNamespace cfg ++ s_colons ++ r)
  | None => None
  end.

(** The state the handlers of one session read and write: the inner
    iframe, the variables of the effect's closure, the pending timers, the
    module-level memory cache, and the record of what was sent out. *)
Record State := {
  (* the inner iframe *)
  attached : bool;               (* inner.contentWindow is not null *)
  sandbox : jsstring;            (* its sandbox attribute *)
  srcdoc : option jsstring;
  src : option jsstring;
  (* the closure *)
  innerReady : bool;
  pendingMessages : list JsVal;
  flushTimeout : option nat;
  (* timers set and not yet fired or cleared; the next handle *)
  timers : list nat;
  nextTimer : nat;
  (* src/utils/cache.ts *)
  htmlCache : gmap jsstring jsstring;
  fetchAvailable : bool;         (* typeof fetch === 'function' *)
  (* effects, oldest first *)
  toInner : list JsVal;          (* inner.contentWindow.postMessage *)
  toParent : list JsVal;         (* window.parent.postMessage *)
  fetched : list FetchCall;      (* fetch *)
}.

Definition set_attached (b : bool) (st : State) : State :=
  {| attached := b; sandbox := sandbox st; srcdoc := srcdoc st; src := src st;
     innerReady := innerReady st; pendingMessages := pendingMessages st;
     flushTimeout := flushTimeout st; timers := timers st; nextTimer := nextTimer st;
     htmlCache := htmlCache st; fetchAvailable := fetchAvailable st;
     toInner := toInner st; toParent := toParent st; fetched := fetched st |}.

Definition set_sandbox (v : jsstring) (st : State) : State :=
  {| attached := attached st; sandbox := v; srcdoc := srcdoc st; src := src st;
     innerReady := innerReady st; pendingMessages := pendingMessages st;
     flushTimeout := flushTimeout st; timers := timers st; nextTimer := nextTimer st;
     htmlCache := htmlCache st; fetchAvailable := fetchAvailable st;
     toInner := toInner st; toParent := toParent st; fetched := fetched st |}.

Definition set_srcdoc (v : jsstring) (st : State) : State :=
  {| attached := attached st; sandbox := sandbox st; srcdoc := Some v; src := src st;
     innerReady := innerReady st; pendingMessages := pendingMessages st;
     flushTimeout := flushTimeout st; timers := timers st; nextTimer := nextTimer st;
     htmlCache := htmlCache st; fetchAvailable := fetchAvailable st;
     toInner := toInner st; toParent := toParent st; fetched := fetched st |}.

Definition set_src (v : jsstring) (st : State) : State :=
  {| attached := attached st; sandbox := sandbox st; srcdoc := srcdoc st; src := Some v;
     innerReady := innerReady st; pendingMessages := pendingMessages st;
     flushTimeout := flushTimeout st; timers := timers st; nextTimer := nextTimer st;
     htmlCache := htmlCache st; fetchAvailable := fetchAvailable st;
     toInner := toInner st; toParent := toParent st; fetched := fetched st |}.

Definition set_innerReady (b : bool) (st : State) : State :=
  {| attached := attached st; sandbox := sandbox st; srcdoc := srcdoc st; src := src st;
     innerReady := b; pendingMessages := pendingMessages st;
     flushTimeout := flushTimeout st; timers := timers st; nextTimer := nextTimer st;
     htmlCache := htmlCache st; fetchAvailable := fetchAvailable st;
     toInner := toInner st; toParent := toParent st; fetched := fetched st |}.

Definition set_pendingMessages (q : list JsVal) (st : State) : State :=
  {| attached := attached st; sandbox := sandbox st; srcdoc := srcdoc st; src := src st;
     innerReady := innerReady st; pendingMessages := q;
     flushTimeout := flushTimeout st; timers := timers st; nextTimer := nextTimer st;
     htmlCache := htmlCache st; fetchAvailable := fetchAvailable st;
     toInner := toInner st; toParent := toParent st; fetched := fetched st |}.

Definition set_timers (ft : option nat) (ts : list nat) (next : nat) (st : State) : State :=
  {| attached := attached st; sandbox := sandbox st; srcdoc := srcdoc st; src := src st;
     innerReady := innerReady st; pendingMessages := pendingMessages st;
     flushTimeout := ft; timers := ts; nextTimer := next;
     htmlCache := htmlCache st; fetchAvailable := fetchAvailable st;
     toInner := toInner st; toParent := toParent st; fetched := fetched st |}.

Definition set_htmlCache (m : gmap jsstring jsstring) (st : State) : State :=
  {| attached := attached st; sandbox := sandbox st; srcdoc := srcdoc st; src := src st;
     innerReady := innerReady st; pendingMessages := pendingMessages st;
     flushTimeout := flushTimeout st; timers := timers st; nextTimer := nextTimer st;
     htmlCache := m; fetchAvailable := fetchAvailable st;
     toInner := toInner st; toParent := toParent st; fetched := fetched st |}.

Definition set_toInner (l : list JsVal) (st : State) : State :=
  {| attached := attached st; sandbox := sandbox st; srcdoc := srcdoc st; src := src st;
     innerReady := innerReady st; pendingMessages := pendingMessages st;
     flushTimeout := flushTimeout st; timers := timers st; nextTimer := nextTimer st;
     htmlCache := htmlCache st; fetchAvailable := fetchAvailable st;
     toInner := l; toParent := toParent st; fetched := fetched st |}.

Definition set_toParent (l : list JsVal) (st : State) : State :=
  {| attached := attached st; sandbox := sandbox st; srcdoc := srcdoc st; src := src st;
     innerReady := innerReady st; pendingMessages := pendingMessages st;
     flushTimeout := flushTimeout st; timers := timers st; nextTimer := nextTimer st;
     htmlCache := htmlCache st; fetchAvailable := fetchAvailable st;
     toInner := toInner st; toParent := l; fetched := fetched st |}.

Definition set_fetched (l : list FetchCall) (st : State) : State :=
  {| attached := attached st; sandbox := sandbox st; srcdoc := srcdoc st; src := src st;
     innerReady := innerReady st; pendingMessages := pendingMessages st;
     flushTimeout := flushTimeout st; timers := timers st; nextTimer := nextTimer st;
     htmlCache := htmlCache st; fetchAvailable := fetchAvailable st;
     toInner := toInner st; toParent := toParent st; fetched := l |}.

(** [getCachedHtml] and [setCachedHtml]. *)
Definition getCachedHtml (key : jsstring) (st : State) : option jsstring :=
  htmlCache st !! key.

Definition setCachedHtml (key html : jsstring) (st : State) : State :=
  set_htmlCache (<[key := html]> (htmlCache st)) st.

(** [persistCachedHtmlToApi]: the call of [fetch] it makes, if any.  The
    promise is not awaited by the page, and a failure of the encoding is
    caught. *)
Definition persistCachedHtmlToApi (key html : jsstring) (namespace : option jsstring)
    (st : State) : State :=
  if negb (fetchAvailable st) then st
  else
    match buildCachePath key namespace with
    | Some path =>
        set_fetched (fetched st ++ [postCall path html]) st
    | None => st
    end.

(** [fetchCachedHtmlFromApi], up to its [await]: the call of [fetch] it
    makes, if any. *)
Definition fetchCachedHtmlFromApi_call (key : jsstring) (namespace : option jsstring)
    (st : State) : option FetchCall :=
  if negb (fetchAvailable st) then None
  else
    path ← buildCachePath key namespace; Some (getCall path).

(** [fetchCachedHtmlFromApi], from its [await] on: what it resolves to. *)
Definition fetchCachedHtmlFromApi_result (o : FetchOutcome) : option jsstring :=
  match o with
  | FetchRejected => None
  | FetchResponse status text =>
      if ((200 <=? status) && (status <=? 299))%nat then text else None
  end.

(** [forwardToInner]. *)
Definition forwardToInner (data : JsVal) (st : State) : State :=
  if innerReady st && attached st then set_toInner (toInner st ++ [data]) st
  else set_pendingMessages (pendingMessages st ++ [data]) st.

(** The loop of [flushPendingMessages]: shift a message, post it. *)
Fixpoint flushLoop (queue : list JsVal) (st : State) : State :=
  match queue with
  | [] => set_pendingMessages [] st
  | msg :: queue' => flushLoop queue' (set_toInner (toInner st ++ [msg]) st)
  end.

Definition flushPendingMessages (st : State) : State :=
  if negb (attached st) then st
  else flushLoop (pendingMessages st) (set_innerReady true st).

(** The listener of the [load] event of the inner iframe: it sets the
    fallback timer, and keeps its handle. *)
Definition onLoad (st : State) : State :=
  set_timers (Some (nextTimer st)) (timers st ++ [nextTimer st]) (S (nextTimer st)) st.

(** The callback of the fallback timer. *)
Definition fallbackCallback (st : State) : State :=
  if negb (innerReady st) then flushPendingMessages st else st.

(** Timer [id] expires: its callback runs if the timer is still set. *)
Definition onTimeout (id : nat) (st : State) : State :=
  if bool_decide (id ∈ timers st) then
    fallbackCallback
      (set_timers (flushTimeout st) (filter (λ t, t ≠ id) (timers st)) (nextTimer st) st)
  else st.

(** [clearTimeout(flushTimeout); flushTimeout = null], when
    [flushTimeout] is set. *)
Definition clearFlushTimeout (st : State) : State :=
  match flushTimeout st with
  | Some id => set_timers None (filter (λ t, t ≠ id) (timers st)) (nextTimer st) st
  | None => st
  end.

(** Where a message event comes from. *)
Inductive Source := FromInner | FromParent | FromElsewhere.

(** A handler returns normally or ends on an uncaught exception; in both
    cases with the state it leaves. *)
Inductive Outcome :=
  | Returned (st : State)
  | Thrown (st : State).

Definition stateOf (o : Outcome) : State :=
  match o with Returned st | Thrown st => st end.

(** [data.params || {}]. *)
Definition paramsOf (data : JsVal) : JsVal :=
  if truthy (getProp data s_params) then getProp data s_params else VObj [].

(** [typeof sandbox === 'string' && sandbox.trim() ? sandbox : DEFAULT_SANDBOX]. *)
Definition sandboxValueOf (sandbox : JsVal) : jsstring :=
  match sandbox with
  | VStr s => if negb (isEmpty (trim s)) then s else DEFAULT_SANDBOX
  | _ => DEFAULT_SANDBOX
  end.

(** [csp || DEFAULT_CSP]. *)
Definition effectiveCspOf (csp : JsVal) : JsVal :=
  if truthy csp then csp else VStr DEFAULT_CSP.

(** [ensureCspMeta] as the handler calls it, with a policy typed [any]:
    past the guard on empty arguments, [value.replace] of a policy that is
    not a string is not a function, and the call raises ([None]). *)
Definition ensureCspMetaAny (html : jsstring) (csp : JsVal) (overwrite : bool)
    : option jsstring :=
  if isEmpty html || negb (truthy csp) then Some html
  else
    match csp with
    | VStr c => Some (ensureCspMeta html c overwrite)
    | _ => None
    end.

(** [typeof resource === 'string' ? resource : resourceUrl]. *)
Definition resourceForCacheOf (cfg : Config) (resource : JsVal) : option jsstring :=
  match resource with
  | VStr r => Some r
  | _ => resourceUrl cfg
  end.

(** The write of the handler, guarded by [cacheKey && resourceForCache]:
    the memory tier is set, and the persistent tier is sent the HTML
    without the promise being awaited. *)
Definition writeThrough (cfg : Config) (resourceForCache : option jsstring)
    (safeHtml : jsstring) (st : State) : State :=
  match resourceForCache with
  | Some r =>
      if isEmpty r then st
      else
        persistCachedHtmlToApi r safeHtml (Some (cacheNamespace cfg))
          (setCachedHtml (cacheNamespace cfg ++ s_colons ++ r) safeHtml st)
  | None => st
  end.

(** The branch of [handleMessage] for [sandbox-resource-ready]. *)
Definition handleResourceReady (cfg : Config) (data : JsVal) (st : State) : Outcome :=
  let params := paramsOf data in
  let st := set_sandbox (sandboxValueOf (getProp params s_sandbox)) st in
  match getProp params s_html_key with
  | VStr html =>
      match ensureCspMetaAny html (effectiveCspOf (getProp params s_csp)) true with
      | Some safeHtml =>
          Returned
            (writeThrough cfg (resourceForCacheOf cfg (getProp params s_resource))
               safeHtml (set_srcdoc safeHtml (set_innerReady false st)))
      | None => Thrown st
      end
  | _ => Returned st
  end.

(** [handleMessage]. *)
Definition handleMessage (cfg : Config) (source : Source) (data : JsVal) (st : State)
    : Outcome :=
  match source with
  | FromInner =>
      if hasMethod data m_client_ready then
        Returned (flushPendingMessages (clearFlushTimeout st))
      else Returned (set_toParent (toParent st ++ [data]) st)
  | FromParent =>
      if hasMethod data m_sandbox_resource_ready then handleResourceReady cfg data st
      else Returned (forwardToInner data st)
  | FromElsewhere => Returned st
  end.

(** The cache read of the session, [primeIframeFromCache], up to its
    [await]: it is done ([Some found]), or it has called [fetch] and waits
    for the persistent tier ([None]). *)
Definition primeIframeFromCache_start (cfg : Config) (st : State) : State * option bool :=
  match resourceUrl cfg, namespacedKey cfg with
  | Some resourceUrl, Some namespacedKey =>
      if noCacheParam cfg || includes s_cache_buster resourceUrl then (st, Some false)
      else
        match getCachedHtml namespacedKey st with
        | Some inMemory =>
            if negb (isEmpty inMemory)
            then (set_srcdoc (ensureCspMeta inMemory DEFAULT_CSP false) st, Some true)
            else
              match fetchCachedHtmlFromApi_call resourceUrl (Some (cacheNamespace cfg)) st with
              | Some call => (set_fetched (fetched st ++ [call]) st, None)
              | None => (st, Some false)
              end
        | None =>
            match fetchCachedHtmlFromApi_call resourceUrl (Some (cacheNamespace cfg)) st with
            | Some call => (set_fetched (fetched st ++ [call]) st, None)
            | None => (st, Some false)
            end
        end
  | _, _ => (st, Some false)
  end.

(** [primeIframeFromCache] from its [await] on, given what the persistent
    tier answered. *)
Definition primeIframeFromCache_resume (cfg : Config) (o : FetchOutcome) (st : State)
    : State * bool :=
  match namespacedKey cfg, fetchCachedHtmlFromApi_result o with
  | Some namespacedKey, Some cachedHtml =>
      if negb (isEmpty cachedHtml) then
        (set_srcdoc (ensureCspMeta cachedHtml DEFAULT_CSP false)
           (setCachedHtml namespacedKey cachedHtml st), true)
      else (st, false)
  | _, _ => (st, false)
  end.

(** The notifications the session sends to the host. *)
Definition orUndefined (o : option jsstring) : JsVal :=
  match o with
  | Some s => if isEmpty s then VUndefined else VStr s
  | None => VUndefined
  end.

Definition notification (method : jsstring) (cfg : Config) : JsVal :=
  VObj [ (s_jsonrpc, VStr s_2_0);
         (s_method, VStr method);
         (s_params, VObj [ (s_flowId, orUndefined (flowId cfg));
                           (s_resource, orUndefined (resourceUrl cfg)) ]) ].

(** The state the effect starts from: the inner iframe is created with the
    default sandbox attribute and appended, nothing is queued, no timer is
    set.  The memory cache is the module's, shared by the sessions of the
    page.  Timer handles are positive, hence truthy. *)
Definition initialState (cache : gmap jsstring jsstring) (hasFetch : bool) : State :=
  {| attached := true; sandbox := DEFAULT_SANDBOX; srcdoc := None; src := None;
     innerReady := false; pendingMessages := []; flushTimeout := None;
     timers := []; nextTimer := 1;
     htmlCache := cache; fetchAvailable := hasFetch;
     toInner := []; toParent := []; fetched := [] |}.

(** The continuation of [primeIframeFromCache]: the resource is asked of the
    host when the cache did not have it. *)
Definition afterPrime (cfg : Config) (found : bool) (st : State) : State :=
  match resourceUrl cfg with
  | Some r =>
      if isEmpty r || found then st
      else set_toParent (toParent st ++ [notification m_sandbox_resource cfg]) st
  | None => st
  end.

(** The effect, up to its first [await].  [isHttpUrl] stands for the parse
    of the resource by [new URL] and the test of its protocol. *)
Definition mount (isHttpUrl : jsstring → bool) (cfg : Config) (st : State) : State :=
  let st := set_toParent (toParent st ++ [notification m_sandbox_ready cfg]) st in
  match resourceUrl cfg with
  | Some r =>
      if negb (isEmpty r) && isHttpUrl r then set_src r st
      else
        match primeIframeFromCache_start cfg st with
        | (st, Some found) => afterPrime cfg found st
        | (st, None) => st
        end
  | None =>
      match primeIframeFromCache_start cfg st with
      | (st, Some found) => afterPrime cfg found st
      | (st, None) => st
      end
  end.

(** The cleanup of the effect: the listener is removed and the inner iframe
    is detached.  A fallback timer that is set stays set. *)
Definition unmount (st : State) : State := set_attached false st.

(** What happens to a mounted session. *)
Inductive Event :=
  | EvMessage (source : Source) (data : JsVal)
  | EvLoad
  | EvTimeout (id : nat)
  | EvFetched (o : FetchOutcome)
  | EvUnmount.

(** The message listener is registered from the mount to the cleanup. *)
Definition step (cfg : Config) (st : State) (ev : Event) : State :=
  match ev with
  | EvMessage source data =>
      if attached st then stateOf (handleMessage cfg source data st) else st
  | EvLoad => onLoad st
  | EvTimeout id => onTimeout id st
  | EvFetched o =>
      let '(st', found) := primeIframeFromCache_resume cfg o st in
      afterPrime cfg found st'
  | EvUnmount => unmount st
  end.

Definition run (cfg : Config) (evs : list Event) (st : State) : State :=
  fold_left (step cfg) evs st.

(** The messages of the host that the listener is to relay, in the order
    of their arrival. *)
Fixpoint arrivals (evs : list Event) : list JsVal :=
  match evs with
  | [] => []
  | EvUnmount :: _ => []
  | EvMessage FromParent data :: evs' =>
      if hasMethod data m_sandbox_resource_ready then arrivals evs'
      else data :: arrivals evs'
  | _ :: evs' => arrivals evs'
  end.

(** A message of the host with a method other than
    [sandbox-resource-ready]. *)
Definition relayed (data : JsVal) : Prop :=
  hasMethod data m_sandbox_resource_ready = false.

(** The two events that complete the handshake: [client-ready] from the
    inner iframe, and the expiry of a fallback timer that is set. *)
Definition isHandshake (st : State) (ev : Event) : Prop :=
  match ev with
  | EvMessage FromInner data => hasMethod data m_client_ready = true
  | EvTimeout id => id ∈ timers st
  | _ => False
  end.

(** The policy the injector is called with, when the message carries a
    usable one: a non-empty string, or a falsy value, for which the
    default stands in. *)
Definition usablePolicy (csp : JsVal) (policy : jsstring) : Prop :=
  (csp = VStr policy ∧ policy ≠ []) ∨ (truthy csp = false ∧ policy = DEFAULT_CSP).

(** What holds of a mounted session between two events: the inner iframe
    is attached, and nothing is pending once the session is ready. *)
Definition mounted_inv (st : State) : Prop :=
  attached st = true ∧ (innerReady st = true → pendingMessages st = []).


(** ** The persistent cache endpoint ([pages/api/cache/[key].ts]) *)

(** [decodeURIComponent]: a [%XX] escape below 128 is that code unit;
    a higher one starts the UTF-8 encoding of a code point, whose other
    octets must follow as escapes; anything else raises a [URIError]
    ([None]). *)
Definition hexVal (c : N) : option N :=
  if ((48 <=? c) && (c <=? 57))%N then Some (c - 48)%N
  else if ((65 <=? c) && (c <=? 70))%N then Some (c - 55)%N
  else if ((97 <=? c) && (c <=? 102))%N then Some (c - 87)%N
  else None.

Definition parseEscape (s : jsstring) : option (N * jsstring) :=
  match s with
  | p :: h1 :: h2 :: rest =>
      if (p =? 37)%N then a ← hexVal h1; b ← hexVal h2; Some ((16 * a + b)%N, rest)
      else None
  | _ => None
  end.

Fixpoint continuationOctets (n : nat) (s : jsstring) : option (list N * jsstring) :=
  match n with
  | 0 => Some ([], s)
  | S n' =>
      '(b, s1) ← parseEscape s;
      '(bs, s2) ← continuationOctets n' s1;
      Some (b :: bs, s2)
  end.

Definition isContinuation (b : N) : bool := ((128 <=? b) && (b <=? 191))%N.

(** The code point of a well-formed UTF-8 sequence of two to four octets:
    not over-long, not a surrogate, not above U+10FFFF. *)
Definition utf8Decode (octets : list N) : option N :=
  match octets with
  | [b0; b1] =>
      let v := ((b0 - 192) * 64 + (b1 - 128))%N in
      if isContinuation b1 && (128 <=? v)%N then Some v else None
  | [b0; b1; b2] =>
      let v := ((b0 - 224) * 4096 + (b1 - 128) * 64 + (b2 - 128))%N in
      if isContinuation b1 && isContinuation b2 && (2048 <=? v)%N
         && negb ((55296 <=? v) && (v <=? 57343))%N
      then Some v else None
  | [b0; b1; b2; b3] =>
      let v := ((b0 - 240) * 262144 + (b1 - 128) * 4096 + (b2 - 128) * 64
                + (b3 - 128))%N in
      if isContinuation b1 && isContinuation b2 && isContinuation b3
         && (65536 <=? v)%N && (v <=? 1114111)%N
      then Some v else None
  | _ => None
  end.

Definition utf16Encode (v : N) : jsstring :=
  if (v <? 65536)%N then [v]
  else [55296 + (v - 65536) / 1024; 56320 + (v - 65536) mod 1024]%N.

(** One turn of the loop of the decoder: the code units it appends, and
    the text left. *)
Definition decodeStep (s : jsstring) : option (jsstring * jsstring) :=
  match s with
  | [] => None
  | c :: rest =>
      if negb (c =? 37)%N then Some ([c], rest)
      else
        '(b, s1) ← parseEscape s;
        if (b <? 128)%N then Some ([b], s1)
        else
          let n :=
            if ((192 <=? b) && (b <=? 223))%N then 2
            else if ((224 <=? b) && (b <=? 239))%N then 3
            else if ((240 <=? b) && (b <=? 247))%N then 4
            else 0 in
          match n with
          | 0 => None
          | S n' =>
              '(bs, s2) ← continuationOctets n' s1;
              v ← utf8Decode (b :: bs);
              Some (utf16Encode v, s2)
          end
  end.

(** The loop; every turn takes at least one code unit, so that a fuel of
    the length of the text is never used up. *)
Fixpoint decodeLoop (fuel : nat) (s : jsstring) : option jsstring :=
  match s with
  | [] => Some []
  | _ =>
      match fuel with
      | 0 => None
      | S fuel' =>
          '(e, r) ← decodeStep s;
          t ← decodeLoop fuel' r;
          Some (e ++ t)
      end
  end.

Definition decodeURIComponent (s : jsstring) : option jsstring :=
  decodeLoop (length s) s.

(** [s.split(sep)] for a separator of one code unit. *)
Fixpoint splitOn (sep : N) (s : jsstring) : list jsstring :=
  match s with
  | [] => [[]]
  | c :: s' =>
      if (c =? sep)%N then [] :: splitOn sep s'
      else
        match splitOn sep s' with
        | seg :: segs => (c :: seg) :: segs
        | [] => [[c]]
        end
  end.

Record Response := {
  rs_status : nat;
  rs_body : jsstring;
  rs_headers : list (jsstring * jsstring);
}.

(** A request, with its URL parsed into origin and path ([new URL]), the
    value of its [content-type] header, and its body ([None] without one). *)
Record Request := {
  rq_method : jsstring;
  rq_origin : jsstring;
  rq_pathname : jsstring;
  rq_contentType : option jsstring;
  rq_body : option jsstring;
}.

Definition s_ContentType : jsstring := Eval cbv in str "Content-Type".
Definition s_CacheControl : jsstring := Eval cbv in str "Cache-Control".
Definition s_cache_policy : jsstring :=
  Eval cbv in str "public, max-age=0, s-maxage=3600, stale-while-revalidate=86400".
Definition s_application_json : jsstring := Eval cbv in str "application/json".
Definition s_api_cache : jsstring := Eval cbv in str "/api/cache/".
Definition s_NotFound : jsstring := Eval cbv in str "Not Found".
Definition s_Allow : jsstring := Eval cbv in str "Allow".
Definition s_GET_POST : jsstring := Eval cbv in str "GET, POST".
Definition s_missing_key : jsstring := Eval cbv in str "Missing cache key".
Definition s_missing_body : jsstring := Eval cbv in str "Missing HTML body".

(** [JSON.stringify] of the two objects the handler answers with. *)
Definition quoted (s : jsstring) : jsstring := c_dq :: s ++ [c_dq].

Definition jsonError (error : jsstring) : jsstring :=
  str "{" ++ quoted (str "ok") ++ str ":false," ++ quoted (str "error") ++ str ":"
    ++ quoted error ++ str "}".

Definition jsonOk : jsstring := str "{" ++ quoted (str "ok") ++ str ":true}".

Definition jsonResponse (status : nat) (body : jsstring) : Response :=
  {| rs_status := status; rs_body := body;
     rs_headers := [(s_ContentType, s_application_json)] |}.

(** [segments.pop() || segments.pop() || null] on the split of the path. *)
Definition rawSegmentOf (pathname : jsstring) : option jsstring :=
  match rev (splitOn c_slash pathname) with
  | a :: rest =>
      if negb (isEmpty a) then Some a
      else
        match rest with
        | b :: _ => if negb (isEmpty b) then Some b else None
        | [] => None
        end
  | [] => None
  end.

(** [getCacheKey]; it raises ([None]) when [encodeURIComponent] does. *)
Definition getCacheKey (req : Request) : option (option jsstring * jsstring) :=
  let rawSegment := rawSegmentOf (rq_pathname req) in
  let cacheKey :=
    match rawSegment with
    | Some raw =>
        Some match decodeURIComponent raw with
             | Some decoded => decoded
             | None => raw
             end
    | None => None
    end in
  encoded ←
    match rawSegment with
    | Some raw => encodeURIComponent raw
    | None => Some []
    end;
  Some (cacheKey, rq_origin req ++ s_api_cache ++ encoded).

(** The store behind [getCache]: the module's [Map] of the fallback, which
    also stands for the cache the runtime opens when it has one. *)
Definition readFromCache (cacheUrl : jsstring) (cache : gmap jsstring Response)
    : option Response :=
  cache !! cacheUrl.

(** The response [writeToCache] builds and stores. *)
Definition cachedResponse (html : jsstring) : Response :=
  {| rs_status := 200; rs_body := html;
     rs_headers := [(s_ContentType, s_text_html); (s_CacheControl, s_cache_policy)] |}.

Definition writeToCache (cacheUrl html : jsstring) (cache : gmap jsstring Response)
    : gmap jsstring Response :=
  <[cacheUrl := cachedResponse html]> cache.

(** What a call of the handler comes to. *)
Inductive HandlerOutcome :=
  | Responded (r : Response)
  | Rejected.

Section Handler.
(** [JSON.parse], as [req.json()] applies it to the text of the body. *)
Variable JSON_parse : jsstring → option JsVal.

(** The HTML a [POST] carries.  Reading the body a second time, after
    [req.json()] read it, raises ([None]); a request without body reads as
    the empty text. *)
Definition postedHtml (req : Request) : option (option jsstring) :=
  let contentType := default [] (rq_contentType req) in
  let fromJson :=
    if includes s_application_json contentType then
      match rq_body req with
      | Some text =>
          match JSON_parse text with
          | Some body =>
              match getProp body s_html_key with
              | VStr h => Some h
              | _ => None
              end
          | None => None
          end
      | None => None
      end
    else None in
  match fromJson with
  | Some h => Some (Some h)
  | None =>
      if includes s_application_json contentType then
        match rq_body req with
        | Some _ => None
        | None => Some None
        end
      else
        match rq_body req with
        | Some text => Some (if isEmpty text then None else Some text)
        | None => Some None
        end
  end.

Definition handler (cache : gmap jsstring Response) (req : Request)
    : HandlerOutcome * gmap jsstring Response :=
  match getCacheKey req with
  | None => (Rejected, cache)
  | Some (cacheKey, cacheUrl) =>
      if isEmpty (default [] cacheKey) then
        (Responded (jsonResponse 400 (jsonError s_missing_key)), cache)
      else if bool_decide (rq_method req = s_GET) then
        match readFromCache cacheUrl cache with
        | Some cached => (Responded cached, cache)
        | None =>
            (Responded {| rs_status := 404; rs_body := s_NotFound; rs_headers := [] |},
             cache)
        end
      else if bool_decide (rq_method req = s_POST) then
        match postedHtml req with
        | None => (Rejected, cache)
        | Some None =>
            (Responded (jsonResponse 400 (jsonError s_missing_body)), cache)
        | Some (Some html) =>
            if isEmpty html then
              (Responded (jsonResponse 400 (jsonError s_missing_body)), cache)
            else
              (Responded (jsonResponse 200 jsonOk), writeToCache cacheUrl html cache)
        end
      else
        (Responded {| rs_status := 405;
                      rs_body := str "Method " ++ rq_method req ++ str " Not Allowed";
                      rs_headers := [(s_Allow, s_GET_POST)] |},
         cache)
  end.

(** The store after a sequence of requests. *)
Definition serve (reqs : list Request) (cache : gmap jsstring Response)
    : gmap jsstring Response :=
  fold_left (λ c req, (handler c req).2) reqs cache.
End Handler.

(** Every response of the store was built by [writeToCache]. *)
Definition storedByWrite (cache : gmap jsstring Response) : Prop :=
  ∀ url r, cache !! url = Some r → ∃ html, html ≠ [] ∧ r = cachedResponse html.

(** ** Notions used by the further properties *)

(** The messages of the widget that the listener is to pass on to the
    host, in the order of their arrival. *)
Fixpoint upward (evs : list Event) : list JsVal :=
  match evs with
  | [] => []
  | EvUnmount :: _ => []
  | EvMessage FromInner data :: evs' =>
      if hasMethod data m_client_ready then upward evs' else data :: upward evs'
  | _ :: evs' => upward evs'
  end.

(** An event other than the answer of the persistent tier. *)
Definition notFetched (ev : Event) : Prop :=
  match ev with
  | EvFetched _ => False
  | _ => True
  end.

(** The document source of the inner iframe, when it is set to a
    non-empty document, holds a CSP meta tag. *)
Definition srcdocGuarded (st : State) : Prop :=
  ∀ doc, srcdoc st = Some doc → doc ≠ [] → re_test cspRegex doc = true.

(** Nothing is pending once the session is ready. *)
Definition readyQueueEmpty (st : State) : Prop :=
  innerReady st = true → pendingMessages st = [].

(** A string of JavaScript: its code units are 16-bit. *)
Definition codeUnits (s : jsstring) : Prop := Forall (λ c, (c < 65536)%N) s.

Definition c_colon : N := 58.

(** What the encoding is made of: unreserved code units, the percent sign
    and hexadecimal digits; no slash and no colon is among them. *)
Definition encodedChar (c : N) : Prop :=
  (c < 128)%N ∧ isLeadSurrogate c = false ∧ isTrailSurrogate c = false
  ∧ c ≠ c_slash ∧ c ≠ c_colon.

(** The request a call of [fetch] with a path makes at the endpoint of the
    page's origin. *)
Definition requestOf (origin : jsstring) (call : FetchCall) : Request :=
  {| rq_method := fc_method call; rq_origin := origin; rq_pathname := fc_path call;
     rq_contentType := fc_contentType call; rq_body := fc_body call |}.

(** [hasCachedHtml]. *)
Definition hasCachedHtml (key : jsstring) (st : State) : bool :=
  bool_decide (is_Some (htmlCache st !! key)).

(** A call to the cache endpoint: a [GET] or a [POST] at the path of a
    twice-encoded key. *)
Definition cacheCall (call : FetchCall) : Prop :=
  ∃ key enc,
    encodeCacheKey key = Some enc
    ∧ (call = getCall (CACHE_ENDPOINT_BASE ++ [c_slash] ++ enc)
       ∨ ∃ html, call = postCall (CACHE_ENDPOINT_BASE ++ [c_slash] ++ enc) html).

(** The calls a session has made are calls to the cache endpoint, only the
    first of them can be a [GET], and none is made without [fetch]. *)
Definition fetchedInv (st : State) : Prop :=
  Forall cacheCall (fetched st)
  ∧ Forall (λ call, fc_method call = s_POST) (tail (fetched st))
  ∧ (fetchAvailable st = false → fetched st = []).

(** The sandbox attribute is not blank. *)
Definition sandboxSet (st : State) : Prop := trim (sandbox st) ≠ [].

(** No match of the regex starts in [pre], in the text [pre ++ z]. *)
Definition nomatch (m : matcher) (pre z : jsstring) : Prop :=
  ∀ p1 p2, pre = p1 ++ p2 → p2 ≠ [] → m (p2 ++ z) = None.
(** ** Facts about the matchers *)

Lemma canon_gt c : canon c = c_gt ↔ c = c_gt.
Proof.
  unfold canon, c_gt.
  destruct ((97 <=? c)%N && (c <=? 122)%N) eqn:E; [|tauto].
  apply andb_true_iff in E as [E1 E2].
  apply N.leb_le in E1, E2. lia.
Qed.

Lemma ci_eqb_gt c : ci_eqb c_gt c = true ↔ c = c_gt.
Proof.
  unfold ci_eqb. rewrite N.eqb_eq. change (canon c_gt) with c_gt.
  split; [intros H; symmetry in H; by apply canon_gt | by intros ->].
Qed.

Lemma ci_eqb_lt c : c ≠ c_lt → ci_eqb c_lt c = false.
Proof.
  intros Hc. unfold ci_eqb. apply N.eqb_neq. change (canon c_lt) with c_lt.
  intros H. apply Hc. unfold canon, c_lt in *.
  destruct ((97 <=? c)%N && (c <=? 122)%N) eqn:E; [|done].
  apply andb_true_iff in E as [E1 E2]. apply N.leb_le in E1, E2. lia.
Qed.

(** A successful literal consumes a prefix equal to it up to case, and
    leaves a suffix. *)
Lemma lit_ci_suffix p s r : lit_ci p s = Some r → ∃ m, s = m ++ r ∧ Forall2 cieq p m.
Proof.
  revert s. induction p as [|a p IH]; intros s H; simpl in H.
  - exists []. by simplify_eq.
  - destruct s as [|c s]; [done|]. destruct (ci_eqb a c) eqn:E; [|done].
    destruct (IH _ H) as (m & -> & Hm). exists (c :: m). split; [done|].
    constructor; [|done]. unfold ci_eqb in E. by apply N.eqb_eq in E.
Qed.

Section StarFacts.
Context {R : Type}.
Implicit Types k : jsstring → jsstring → option R.

(** Soundness: what [star_not] returns, the continuation returned, after
    a run of code units other than [x]. *)
Lemma star_not_sound x k s v :
  star_not x k s = Some v →
  ∃ m r, s = m ++ r ∧ (x ∉ m) ∧ k m r = Some v.
Proof.
  revert k. induction s as [|c s IH]; intros k H; simpl in H.
  - exists [], []. split_and!; [done|apply not_elem_of_nil|done].
  - destruct (N.eqb_spec c x) as [->|Hc].
    + exists [], (x :: s). split_and!; [done|apply not_elem_of_nil|done].
    + destruct (star_not x (λ m r, k (c :: m) r) s) as [v'|] eqn:E.
      * simplify_eq. destruct (IH _ E) as (m & r & -> & Hm & Hk).
        exists (c :: m), r. split_and!; [done| |done].
        rewrite not_elem_of_cons. split; [congruence|done].
      * exists [], (c :: s). split_and!; [done|apply not_elem_of_nil|done].
Qed.

(** Completeness: if the continuation accepts after some run of code
    units other than [x], the star finds a match. *)
Lemma star_not_complete x k m r :
  x ∉ m → is_Some (k m r) → is_Some (star_not x k (m ++ r)).
Proof.
  revert k. induction m as [|c m IH]; intros k Hm Hk; simpl.
  - destruct r as [|c r]; [done|]. simpl.
    destruct (c =? x)%N; [done|].
    by destruct (star_not x (λ m r0, k (c :: m) r0) r).
  - apply not_elem_of_cons in Hm as [Hc Hm].
    destruct (N.eqb_spec c x) as [->|_]; [done|].
    destruct (IH (λ m0 r0, k (c :: m0) r0) Hm Hk) as [v ->]. by eexists.
Qed.
End StarFacts.

(** ** Facts about the search *)

Lemma re_search_sound m s pre caps rest :
  re_search m s = Some (pre, caps, rest) →
  ∃ t, s = pre ++ t ∧ m t = Some (caps, rest).
Proof.
  revert pre. induction s as [|c s IH]; intros pre H; simpl in H.
  - destruct (m []) as [[??]|] eqn:E; [|done]. simplify_eq. by exists [].
  - destruct (m (c :: s)) as [[??]|] eqn:E.
    + simplify_eq. by exists (c :: s).
    + destruct (re_search m s) as [[[??]?]|] eqn:E'; [|done]. simplify_eq.
      destruct (IH _ eq_refl) as (t & -> & Ht). by exists t.
Qed.

(** The match found is the leftmost one. *)
Lemma re_search_leftmost m s pre caps rest :
  re_search m s = Some (pre, caps, rest) →
  ∀ p1 p2 t, s = p1 ++ p2 ++ t → pre = p1 ++ p2 → p2 ≠ [] → m (p2 ++ t) = None.
Proof.
  revert pre. induction s as [|c s IH]; intros pre H p1 p2 t Hs Hpre Hp2; simpl in H.
  - destruct p1, p2; done.
  - destruct (m (c :: s)) as [[??]|] eqn:E.
    + simplify_eq. destruct p1, p2; done.
    + destruct (re_search m s) as [[[pre' ?]?]|] eqn:E'; [|done]. simplify_eq.
      destruct p1 as [|c1 p1]; simpl in *.
      * destruct p2 as [|c2 p2]; [done|]. simpl in *. by simplify_eq.
      * simplify_eq. by eapply (IH _ eq_refl p1 p2 t).
Qed.

Lemma re_test_here (m : matcher) s : is_Some (m s) → re_test m s = true.
Proof.
  intros [[caps rest] H]. unfold re_test. destruct s; simpl; by rewrite H.
Qed.

Lemma re_test_app_r (m : matcher) a s : re_test m s = true → re_test m (a ++ s) = true.
Proof.
  unfold re_test. induction a as [|c a IH]; [done|]. intros H. simpl.
  destruct (m (c :: a ++ s)) as [[??]|]; [done|].
  specialize (IH H). by destruct (re_search m (a ++ s)) as [[[??]?]|].
Qed.

(** No position matches when the test fails. *)
Lemma re_test_false_suffix (m : matcher) a s : re_test m (a ++ s) = false → m s = None.
Proof.
  intros H. destruct (m s) as [v|] eqn:E; [|done].
  rewrite re_test_app_r in H; [done|]. apply re_test_here. by rewrite E.
Qed.

Lemma re_test_true_search (m : matcher) s :
  re_test m s = true → ∃ pre caps rest, re_search m s = Some (pre, caps, rest).
Proof.
  unfold re_test. destruct (re_search m s) as [[[pre caps] rest]|]; [|done].
  intros _. by exists pre, caps, rest.
Qed.

(** ** Facts about the replacement template *)

Section SubstitutionFacts.
Variables (matched before after : jsstring) (captures : list jsstring).
Local Abbreviation expand := (getSubstitution matched before after captures).

(** A template without [$] is inserted as it is. *)
Lemma getSubstitution_plain t : c_dollar ∉ t → expand t = t.
Proof.
  induction t as [|c t IH]; [done|]. intros [Hc Ht]%not_elem_of_cons. simpl.
  destruct (N.eqb_spec c c_dollar) as [->|_]; [done|]. simpl. by rewrite IH.
Qed.

Lemma getSubstitution_plain_app a t :
  c_dollar ∉ a → expand (a ++ t) = a ++ expand t.
Proof.
  induction a as [|c a IH]; [done|]. intros [Hc Ha]%not_elem_of_cons. simpl.
  destruct (N.eqb_spec c c_dollar) as [->|_]; [done|]. simpl. by rewrite IH.
Qed.

(** No pattern of the template swallows a [>]: each one written in the
    template is written to the result. *)
Lemma getSubstitution_keeps_gt_len n t :
  length t ≤ n → c_gt ∈ t → c_gt ∈ expand t.
Proof.
  revert t. induction n as [|n IH]; intros t Hn Ht.
  { destruct t; [by apply elem_of_nil in Ht | simpl in Hn; lia]. }
  destruct t as [|c t1]; [by apply elem_of_nil in Ht|].
  simpl in Hn. simpl.
  destruct (N.eqb_spec c c_dollar) as [->|Hc]; simpl.
  2:{ apply elem_of_cons in Ht as [<-|Ht]; [left|right; apply IH; [lia|done]]. }
  apply elem_of_cons in Ht as [Ht|Ht]; [done|].
  destruct t1 as [|d t2]; [by apply elem_of_nil in Ht|]. simpl in Hn.
  assert (Hrec2 : d ≠ c_gt → c_gt ∈ expand t2).
  { intros Hd. apply elem_of_cons in Ht as [Ht|Ht]; [done|]. apply IH; [lia|done]. }
  destruct (N.eqb_spec d c_dollar) as [->|_]; [right; by apply Hrec2|].
  destruct (N.eqb_spec d c_backtick) as [->|_].
  { apply elem_of_app. right. by apply Hrec2. }
  destruct (N.eqb_spec d c_amp) as [->|_].
  { apply elem_of_app. right. by apply Hrec2. }
  destruct (N.eqb_spec d c_apos) as [->|_].
  { apply elem_of_app. right. by apply Hrec2. }
  destruct (isDigit d) eqn:Hd.
  2:{ right. apply IH; [simpl; lia|done]. }
  assert (Hdgt : d ≠ c_gt) by (intros ->; done).
  destruct t2 as [|e t3].
  { apply elem_of_app. right. by apply Hrec2. }
  destruct (isDigit e && _) eqn:He.
  - apply andb_true_iff in He as [He _].
    apply elem_of_app. right. apply IH; [simpl in Hn; lia|].
    apply elem_of_cons in Ht as [Ht|Ht]; [done|].
    apply elem_of_cons in Ht as [Ht|Ht]; [|done].
    subst e. done.
  - apply elem_of_app. right. by apply Hrec2.
Qed.

Lemma getSubstitution_keeps_gt t : c_gt ∈ t → c_gt ∈ expand t.
Proof. by apply (getSubstitution_keeps_gt_len (length t)). Qed.
End SubstitutionFacts.

(** ** Facts about the escaping *)

Lemma elem_of_replaceAllChar y x by_ s :
  y ∈ replaceAllChar x by_ s → (y ∈ s ∧ y ≠ x) ∨ y ∈ by_.
Proof.
  unfold replaceAllChar. induction s as [|c s IH]; simpl.
  - by intros ?%elem_of_nil.
  - intros [H|H]%elem_of_app.
    + destruct (N.eqb_spec c x) as [->|Hc]; [by right|].
      apply list_elem_of_singleton in H as ->. left. split; [left|done].
    + destruct (IH H) as [[??]|?]; [left|by right]. split; [by right|done].
Qed.

Lemma replaceAllChar_app x by_ a s :
  replaceAllChar x by_ (a ++ s) = replaceAllChar x by_ a ++ replaceAllChar x by_ s.
Proof. apply flat_map_app. Qed.

(** The four passes of [escapeHtmlAttr] come to the escaping of each code
    unit on its own: the ampersand is replaced first, so that the
    ampersands of the entities written by the later passes are not escaped
    again. *)
Lemma escapeHtmlAttr_flat_map value : escapeHtmlAttr value = flat_map escapeChar value.
Proof.
  unfold escapeHtmlAttr. induction value as [|c value IH]; [done|].
  change (c :: value) with ([c] ++ value).
  rewrite !replaceAllChar_app, IH. cbn [flat_map app]. f_equal.
  unfold escapeChar. cbn [replaceAllChar flat_map].
  destruct (N.eqb_spec c c_amp) as [->|?]; [done|]. cbn [app replaceAllChar flat_map].
  destruct (N.eqb_spec c c_dq) as [->|?]; [done|]. cbn [app replaceAllChar flat_map].
  destruct (N.eqb_spec c c_lt) as [->|?]; [done|]. cbn [app replaceAllChar flat_map].
  destruct (N.eqb_spec c c_gt) as [->|?]; [done|]. done.
Qed.

Lemma escapeHtmlAttr_elem y csp :
  y ∈ escapeHtmlAttr csp →
  y ≠ c_gt ∧ y ≠ c_lt ∧ y ≠ c_dq ∧ (y = c_dollar → c_dollar ∈ csp).
Proof.
  unfold escapeHtmlAttr. intros H.
  repeat (apply elem_of_replaceAllChar in H as [[H ?]|H]);
    try (split_and!; [done..|by intros ->]);
    repeat (apply elem_of_cons in H as [->|H]; [by split_and!|]);
    by apply elem_of_nil in H.
Qed.

Lemma escapeHtmlAttr_no_gt csp : c_gt ∉ escapeHtmlAttr csp.
Proof. intros (? & _)%escapeHtmlAttr_elem. done. Qed.

Lemma escapeHtmlAttr_no_lt csp : c_lt ∉ escapeHtmlAttr csp.
Proof. intros (_ & ? & _)%escapeHtmlAttr_elem. done. Qed.

Lemma escapeHtmlAttr_no_dollar csp : c_dollar ∉ csp → c_dollar ∉ escapeHtmlAttr csp.
Proof. intros Hn (_ & _ & _ & H)%escapeHtmlAttr_elem. by apply Hn, H. Qed.

(** ** The matchers see a text only up to its first [>], and up to case *)

Lemma sim_app a a' z z' :
  Forall2 (λ c c', canon c = canon c') a a' → sim (a ++ c_gt :: z) (a' ++ c_gt :: z').
Proof. induction 1; simpl; by constructor. Qed.

Lemma agree_None {A B} : agree (@None A) (@None B).
Proof. split; by intros [? [=]]. Qed.

Lemma agree_Some {A B} (x : A) (y : B) : agree (Some x) (Some y).
Proof. split; eauto. Qed.

Lemma lit_ci_sim p s s' :
  Forall (λ a, canon a ≠ c_gt) p → sim s s' →
  (lit_ci p s = None ∧ lit_ci p s' = None)
  ∨ ∃ r r', lit_ci p s = Some r ∧ lit_ci p s' = Some r' ∧ sim r r'.
Proof.
  intros Hp. revert s s'. induction Hp as [|a p Ha Hp IH]; intros s s' Hs; cbn [lit_ci].
  - right. by exists s, s'.
  - destruct Hs as [z z'|c c' s s' Hc Hs].
    + left. unfold ci_eqb. change (canon c_gt) with c_gt.
      by destruct (N.eqb_spec (canon a) c_gt).
    + unfold ci_eqb. rewrite <- Hc. destruct (canon a =? canon c)%N; [by apply IH|by left].
Qed.

Lemma canon_cases c :
  ((97 ≤ c ≤ 122)%N ∧ canon c = (c - 32)%N) ∨ ((c < 97 ∨ 122 < c)%N ∧ canon c = c).
Proof.
  unfold canon. destruct (N.leb_spec 97 c), (N.leb_spec c 122); simpl; lia.
Qed.

Lemma canon_quote c c' :
  canon c = canon c' → ((c =? c_dq) || (c =? c_apos))%N = ((c' =? c_dq) || (c' =? c_apos))%N.
Proof.
  unfold c_dq, c_apos. intros H.
  destruct (canon_cases c) as [[? Hc]|[? Hc]], (canon_cases c') as [[? Hc']|[? Hc']];
    rewrite Hc, Hc' in H;
    destruct (N.eqb_spec c 34), (N.eqb_spec c 39), (N.eqb_spec c' 34), (N.eqb_spec c' 39);
    simpl; try done; lia.
Qed.

Lemma quote_cls_sim s s' :
  sim s s' →
  (quote_cls s = None ∧ quote_cls s' = None)
  ∨ ∃ r r', quote_cls s = Some r ∧ quote_cls s' = Some r' ∧ sim r r'.
Proof.
  intros [z z'|c c' r r' Hc Hs]; simpl; [by left|].
  rewrite <- (canon_quote _ _ Hc).
  destruct ((c =? c_dq) || (c =? c_apos))%N; [right; by exists r, r'|by left].
Qed.

Section StarSim.
Context {R R' : Type}.

Lemma star_not_sim (k : jsstring → jsstring → option R)
    (k' : jsstring → jsstring → option R') s s' :
  sim s s' →
  (∀ m m' r r', sim r r' → agree (k m r) (k' m' r')) →
  agree (star_not c_gt k s) (star_not c_gt k' s').
Proof.
  intros Hs. revert k k'. induction Hs as [z z'|c c' s s' Hc Hs IH]; intros k k' Hk.
  - simpl. apply Hk. constructor.
  - simpl. assert (Hss : sim (c :: s) (c' :: s')) by by constructor.
    destruct (N.eqb_spec c c_gt) as [->|Hn].
    + symmetry in Hc. apply (proj1 (canon_gt _)) in Hc as ->. simpl. by apply Hk.
    + destruct (N.eqb_spec c' c_gt) as [->|Hn'].
      { by apply (proj1 (canon_gt _)) in Hc. }
      specialize (IH (λ m r, k (c :: m) r) (λ m r, k' (c' :: m) r)
                    (λ m m' r r' Hr, Hk _ _ _ _ Hr)).
      specialize (Hk [] [] _ _ Hss). unfold agree in *.
      destruct (star_not c_gt _ s) as [v|], (star_not c_gt _ s') as [v'|].
      * split; eauto.
      * destruct IH as [IH _]. by destruct IH as [? [=]].
      * destruct IH as [_ IH]. by destruct IH as [? [=]].
      * exact Hk.
Qed.

Lemma plus_not_sim (k : jsstring → jsstring → option R)
    (k' : jsstring → jsstring → option R') s s' :
  sim s s' →
  (∀ m m' r r', sim r r' → agree (k m r) (k' m' r')) →
  agree (plus_not c_gt k s) (plus_not c_gt k' s').
Proof.
  intros Hs Hk. destruct Hs as [z z'|c c' s s' Hc Hs]; simpl; [apply agree_None|].
  destruct (N.eqb_spec c c_gt) as [->|Hn].
  - symmetry in Hc. apply (proj1 (canon_gt _)) in Hc as ->. apply agree_None.
  - destruct (N.eqb_spec c' c_gt) as [->|Hn'].
    { by apply (proj1 (canon_gt _)) in Hc. }
    apply star_not_sim; [done|]. intros. by apply Hk.
Qed.
End StarSim.

Lemma cspRegex_sim s s' : sim s s' → agree (cspRegex s) (cspRegex s').
Proof.
  intros Hs. unfold cspRegex.
  destruct (lit_ci_sim s_lt_meta s s') as [[-> ->]|(r & r' & -> & -> & Hr)];
    [repeat constructor; done|done|apply agree_None|]. cbn [mbind option_bind].
  apply plus_not_sim; [done|]. clear. intros _ _ s1 s1' H1.
  destruct (lit_ci_sim s_http_equiv s1 s1') as [[-> ->]|(s2 & s2' & -> & -> & H2)];
    [repeat constructor; done|done|apply agree_None|]. cbn [mbind option_bind].
  destruct (quote_cls_sim s2 s2') as [[-> ->]|(s3 & s3' & -> & -> & H3)];
    [done|apply agree_None|]. cbn [mbind option_bind].
  destruct (lit_ci_sim s_csp_name s3 s3') as [[-> ->]|(s4 & s4' & -> & -> & H4)];
    [repeat constructor; done|done|apply agree_None|]. cbn [mbind option_bind].
  destruct (quote_cls_sim s4 s4') as [[-> ->]|(s5 & s5' & -> & -> & H5)];
    [done|apply agree_None|]. cbn [mbind option_bind].
  apply star_not_sim; [done|]. clear. intros _ _ s6 s6' H6.
  destruct H6 as [z z'|c c' s7 s7' Hc H7]; cbn -[canon]; [apply agree_Some|].
  unfold ci_eqb. rewrite <- Hc.
  destruct (canon c_gt =? canon c)%N; [apply agree_Some|apply agree_None].
Qed.

(** ** What a match of the CSP regex looks like *)

Lemma gtfree_prefix_trans s r t : gtfree_prefix s r → gtfree_prefix r t → gtfree_prefix s t.
Proof.
  intros (a & -> & Ha) (b & -> & Hb). exists (a ++ b). split; [by rewrite app_assoc|].
  rewrite elem_of_app. tauto.
Qed.

Lemma gtfree_prefix_cons c s r : c ≠ c_gt → gtfree_prefix s r → gtfree_prefix (c :: s) r.
Proof.
  intros Hc (a & -> & Ha). exists (c :: a). split; [done|].
  rewrite not_elem_of_cons. split; [congruence|done].
Qed.

Lemma lit_ci_gtfree p s r :
  Forall (λ a, canon a ≠ c_gt) p → lit_ci p s = Some r → gtfree_prefix s r.
Proof.
  intros Hp. revert s. induction Hp as [|a p Ha Hp IH]; intros s H; cbn [lit_ci] in H.
  - simplify_eq. exists []. split; [done|apply not_elem_of_nil].
  - destruct s as [|c s]; [done|]. destruct (ci_eqb a c) eqn:E; [|done].
    apply gtfree_prefix_cons; [|by apply IH].
    intros ->. apply Ha. unfold ci_eqb in E. by apply N.eqb_eq in E.
Qed.

Lemma quote_cls_gtfree s r : quote_cls s = Some r → gtfree_prefix s r.
Proof.
  destruct s as [|c s]; [done|]. simpl.
  destruct (N.eqb_spec c c_dq) as [->|?]; simpl.
  { intros [= ->]. exists [c_dq]. split; [done|]. by intros [=]%list_elem_of_singleton. }
  destruct (N.eqb_spec c c_apos) as [->|?]; [|done].
  intros [= ->]. exists [c_apos]. split; [done|]. by intros [=]%list_elem_of_singleton.
Qed.

Lemma lit_gt_inv s r : lit_ci [c_gt] s = Some r → s = c_gt :: r.
Proof.
  destruct s as [|c s]; [done|]. cbn [lit_ci]. destruct (ci_eqb c_gt c) eqn:E; [|done].
  apply ci_eqb_gt in E as ->. by intros [= ->].
Qed.

(** A match of the CSP regex runs to the first [>] after its start and
    has no capture group. *)
Lemma cspRegex_rest s caps rest :
  cspRegex s = Some (caps, rest) → caps = [] ∧ gtfree_prefix s (c_gt :: rest).
Proof.
  unfold cspRegex. intros H.
  destruct (lit_ci s_lt_meta s) as [s1|] eqn:E1; cbn [mbind option_bind] in H; [|done].
  apply lit_ci_gtfree in E1; [|repeat constructor; done].
  unfold plus_not in H. destruct s1 as [|c s1]; [done|].
  destruct (N.eqb_spec c c_gt) as [->|Hc]; [done|].
  apply star_not_sound in H as (m & s2 & -> & Hm & H).
  destruct (lit_ci s_http_equiv s2) as [s3|] eqn:E3; cbn [mbind option_bind] in H; [|done].
  apply lit_ci_gtfree in E3; [|repeat constructor; done].
  destruct (quote_cls s3) as [s4|] eqn:E4; cbn [mbind option_bind] in H; [|done].
  apply quote_cls_gtfree in E4.
  destruct (lit_ci s_csp_name s4) as [s5|] eqn:E5; cbn [mbind option_bind] in H; [|done].
  apply lit_ci_gtfree in E5; [|repeat constructor; done].
  destruct (quote_cls s5) as [s6|] eqn:E6; cbn [mbind option_bind] in H; [|done].
  apply quote_cls_gtfree in E6.
  apply star_not_sound in H as (m' & s7 & -> & Hm' & H).
  destruct (lit_ci [c_gt] s7) as [s8|] eqn:E8; cbn [mbind option_bind] in H; [|done].
  apply lit_gt_inv in E8 as ->. simplify_eq. split; [done|].
  eapply gtfree_prefix_trans; [exact E1|]. apply gtfree_prefix_cons; [done|].
  eapply gtfree_prefix_trans; [by exists m|].
  eapply gtfree_prefix_trans; [exact E3|].
  eapply gtfree_prefix_trans; [exact E4|].
  eapply gtfree_prefix_trans; [exact E5|].
  eapply gtfree_prefix_trans; [exact E6|]. by exists m'.
Qed.

(** The text before the first [>] is determined. *)
Lemma first_gt_unique (a b r t : jsstring) :
  a ++ c_gt :: r = b ++ c_gt :: t → c_gt ∉ a → c_gt ∉ b → a = b ∧ r = t.
Proof.
  revert b. induction a as [|c a IH]; intros [|d b] H Ha Hb; simpl in H.
  - by injection H as ->.
  - injection H as <- _. exfalso. apply Hb. left.
  - injection H as -> _. exfalso. apply Ha. left.
  - injection H as -> H.
    apply not_elem_of_cons in Ha as [_ Ha]. apply not_elem_of_cons in Hb as [_ Hb].
    destruct (IH _ H Ha Hb) as [-> ->]. done.
Qed.

Lemma first_gt_split (s : jsstring) :
  c_gt ∈ s → ∃ a r, s = a ++ c_gt :: r ∧ c_gt ∉ a.
Proof.
  induction s as [|c s IH]; [by intros ?%elem_of_nil|].
  destruct (decide (c = c_gt)) as [->|Hc].
  - intros _. exists [], s. split; [done|apply not_elem_of_nil].
  - intros [?|H]%elem_of_cons; [done|]. destruct (IH H) as (a & r & -> & Ha).
    exists (c :: a), r. split; [done|]. rewrite not_elem_of_cons. done.
Qed.

(** The CSP regex starts at a [<]. *)
Lemma cspRegex_first c s : c ≠ c_lt → cspRegex (c :: s) = None.
Proof. intros Hc. unfold cspRegex, s_lt_meta. cbn [lit_ci]. by rewrite ci_eqb_lt. Qed.

Lemma quote_cls_dq r : quote_cls (c_dq :: r) = Some r.
Proof. done. Qed.

Lemma lit_ci_self p r : lit_ci p (p ++ r) = Some r.
Proof.
  induction p as [|a p IH]; [done|]. cbn [lit_ci app].
  unfold ci_eqb. by rewrite N.eqb_refl.
Qed.

(** The opening of the injected tag, followed by any text with a [>] in
    it, is a match of the CSP regex. *)
Lemma cspRegex_metaTagOpen (b : jsstring) :
  c_gt ∈ b → is_Some (cspRegex (metaTagOpen ++ b)).
Proof.
  intros Hb. destruct (first_gt_split _ Hb) as (a & r & -> & Ha).
  pose (attr := [32; 99; 111; 110; 116; 101; 110; 116; 61; c_dq]%N).
  change (metaTagOpen ++ a ++ c_gt :: r) with
    (s_lt_meta ++ 32%N :: s_http_equiv ++ c_dq :: s_csp_name ++ c_dq :: attr ++ a ++ c_gt :: r).
  unfold cspRegex. rewrite lit_ci_self. cbn [mbind option_bind plus_not].
  change (32 =? c_gt)%N with false. cbv iota.
  match goal with |- is_Some (star_not _ ?k ?s) => apply (star_not_complete c_gt k [] s) end;
    [apply not_elem_of_nil|].
  cbv beta. rewrite lit_ci_self. cbn [mbind option_bind].
  rewrite quote_cls_dq. cbn [mbind option_bind].
  rewrite lit_ci_self. cbn [mbind option_bind].
  rewrite quote_cls_dq. cbn [mbind option_bind].
  rewrite app_assoc.
  match goal with |- is_Some (star_not _ ?k _) =>
    apply (star_not_complete c_gt k (attr ++ a) (c_gt :: r)) end.
  - rewrite elem_of_app. intros [H|H]; [|done].
    unfold attr in H. repeat (apply elem_of_cons in H as [[=]|H]). by apply elem_of_nil in H.
  - cbv beta. change (c_gt :: r) with ([c_gt] ++ r). by rewrite lit_ci_self.
Qed.

(** ** The injected tag is found again *)

Lemma metaTagOpen_plain : c_dollar ∉ metaTagOpen.
Proof.
  unfold metaTagOpen. intros H.
  repeat (apply elem_of_cons in H as [[=]|H]). by apply elem_of_nil in H.
Qed.

Section TagInTemplate.
Variables (matched before after : jsstring) (captures : list jsstring).
Local Abbreviation expand := (getSubstitution matched before after captures).

(** Whatever the policy holds, the expansion of a template with the tag
    in it starts the tag as written and closes it with a [>]. *)
Lemma expand_metaTag csp t :
  ∃ y, expand (metaTag csp ++ t) = metaTagOpen ++ y ∧ c_gt ∈ y.
Proof.
  unfold metaTag. rewrite <- app_assoc.
  rewrite getSubstitution_plain_app by apply metaTagOpen_plain.
  eexists. split; [done|]. apply getSubstitution_keeps_gt.
  rewrite !elem_of_app. left. right. unfold metaTagClose. set_solver.
Qed.

Lemma expand_head_ref t :
  expand (s_head_ref ++ c_lf :: t)
  = c_lt :: s_head ++ captureOr captures 1 [c_dollar; 49%N] ++ c_gt :: c_lf :: expand t.
Proof. done. Qed.

Lemma expand_html_ref t :
  expand (s_html_ref ++ c_lf :: s_head_open ++ c_lf :: t)
  = c_lt :: s_html ++ captureOr captures 1 [c_dollar; 49%N]
      ++ c_gt :: c_lf :: s_head_open ++ c_lf :: expand t.
Proof. done. Qed.
End TagInTemplate.

Ltac use_expand_metaTag y Hy :=
  match goal with
  | |- context [getSubstitution ?m ?b ?a ?c (metaTag ?p ++ ?t)] =>
      let E := fresh "E" in
      destruct (expand_metaTag m b a c p t) as (y & E & Hy); rewrite E; clear E
  end.

Lemma re_test_metaTagOpen a y : c_gt ∈ y → re_test cspRegex (a ++ metaTagOpen ++ y) = true.
Proof. intros Hy. by apply re_test_app_r, re_test_here, cspRegex_metaTagOpen. Qed.

Lemma re_test_inside s a y :
  s = a ++ metaTagOpen ++ y → c_gt ∈ y → re_test cspRegex s = true.
Proof. intros -> Hy. by apply re_test_metaTagOpen. Qed.

Ltac list_assoc := repeat (progress (cbn [app]; rewrite <- ?app_assoc)); reflexivity.

Lemma injectIntoHead_has_csp html csp :
  re_test cspRegex (injectIntoHead html (metaTag csp)) = true.
Proof.
  unfold injectIntoHead. change (isEmpty (metaTag csp)) with false. cbv iota.
  destruct (re_test headRegex html) eqn:Eh; [|destruct (re_test htmlRegex html) eqn:Et].
  - apply re_test_true_search in Eh as (pre & caps & rest & Eh).
    unfold re_replace. rewrite Eh.
    change ([c_lf] ++ metaTag csp ++ [c_lf]) with (c_lf :: metaTag csp ++ [c_lf]).
    rewrite expand_head_ref. use_expand_metaTag y Hy.
    apply (re_test_inside _
             (pre ++ c_lt :: s_head ++ captureOr caps 1 [c_dollar; 49%N] ++ [c_gt; c_lf])
             (y ++ rest)); [list_assoc|].
    rewrite elem_of_app. by left.
  - apply re_test_true_search in Et as (pre & caps & rest & Et).
    unfold re_replace. rewrite Et.
    change ([c_lf] ++ s_head_open ++ [c_lf] ++ metaTag csp ++ ?t)
      with (c_lf :: s_head_open ++ c_lf :: metaTag csp ++ t).
    rewrite expand_html_ref. use_expand_metaTag y Hy.
    apply (re_test_inside _
             (pre ++ c_lt :: s_html ++ captureOr caps 1 [c_dollar; 49%N]
                ++ c_gt :: c_lf :: s_head_open ++ [c_lf])
             (y ++ rest)); [list_assoc|].
    rewrite elem_of_app. by left.
  - apply (re_test_inside _ (s_head_open ++ [c_lf])
             (escapeHtmlAttr csp ++ metaTagClose ++ [c_lf] ++ s_head_close ++ [c_lf] ++ html)).
    + unfold metaTag. list_assoc.
    + rewrite !elem_of_app. right. left. unfold metaTagClose. set_solver.
Qed.

Lemma replace_csp_has_csp html csp :
  re_test cspRegex html = true →
  re_test cspRegex (re_replace cspRegex html (metaTag csp)) = true.
Proof.
  intros (pre & caps & rest & E)%re_test_true_search.
  unfold re_replace. rewrite E. rewrite <- (app_nil_r (metaTag csp)).
  use_expand_metaTag y Hy.
  apply (re_test_inside _ pre (y ++ rest)); [list_assoc|].
  rewrite elem_of_app. by left.
Qed.

(** After the injector ran on a non-empty document with a non-empty
    policy, the CSP regex finds a tag. *)
Lemma ensureCspMeta_has_csp html csp overwrite :
  html ≠ [] → csp ≠ [] →
  re_test cspRegex (ensureCspMeta html csp overwrite) = true.
Proof.
  intros Hh Hc. unfold ensureCspMeta.
  destruct html as [|h html]; [done|]. destruct csp as [|c csp]; [done|].
  cbn [isEmpty orb]. cbv zeta.
  destruct (re_test cspRegex (h :: html)) eqn:E, overwrite; cbn [andb negb].
  - by apply replace_csp_has_csp.
  - done.
  - apply injectIntoHead_has_csp.
  - apply injectIntoHead_has_csp.
Qed.

(** Once a tag is there, a pass that does not overwrite changes nothing. *)
Lemma ensureCspMeta_keep html csp :
  re_test cspRegex html = true → ensureCspMeta html csp false = html.
Proof.
  intros E. unfold ensureCspMeta. rewrite E.
  by destruct (isEmpty html || isEmpty csp).
Qed.

(** ** What a match of an open-tag regex looks like *)

Lemma re_open_tag_shape name s caps rest :
  re_open_tag name s = Some (caps, rest) →
  ∃ tag attrs, caps = [attrs] ∧ s = tag ++ attrs ++ c_gt :: rest
    ∧ Forall2 cieq (c_lt :: name) tag ∧ (c_gt ∉ attrs).
Proof.
  unfold re_open_tag. intros H.
  destruct (lit_ci (c_lt :: name) s) as [s1|] eqn:E1; cbn [mbind option_bind] in H; [|done].
  apply lit_ci_suffix in E1 as (tag & -> & Htag).
  apply star_not_sound in H as (m & r & -> & Hm & H).
  destruct (lit_ci [c_gt] r) as [s3|] eqn:E3; cbn [mbind option_bind] in H; [|done].
  apply lit_gt_inv in E3 as ->. simplify_eq. by exists tag, m.
Qed.

(** ** The tags of a text *)

Lemma cspTags_cons_None c s : cspRegex (c :: s) = None → cspTags (c :: s) = cspTags s.
Proof. intros H. cbn [cspTags]. by rewrite H. Qed.

Lemma cspTags_no_match a s : re_test cspRegex (a ++ s) = false → cspTags s = [].
Proof.
  revert a. induction s as [|c s IH]; intros a H.
  - cbn [cspTags]. by rewrite (re_test_false_suffix _ a []).
  - rewrite cspTags_cons_None by by apply (re_test_false_suffix _ a).
    apply (IH (a ++ [c])). by rewrite <- app_assoc.
Qed.

(** Positions at which the regex fails contribute no tag. *)
Lemma cspTags_skip x z :
  (∀ x1 x2, x = x1 ++ x2 → x2 ≠ [] → cspRegex (x2 ++ z) = None) →
  cspTags (x ++ z) = cspTags z.
Proof.
  induction x as [|c x IH]; intros H; [done|]. cbn [app].
  rewrite cspTags_cons_None by by apply (H [] (c :: x)).
  apply IH. intros x1 x2 -> Hx2. by apply (H (c :: x1) x2).
Qed.

(** A text that agrees up to case with the start of a document without
    tag, as far as a [>], holds no tag either, whatever follows it. *)
Lemma cspTags_transfer a a0 y z :
  Forall2 cieq a a0 →
  re_test cspRegex (a0 ++ c_gt :: y) = false →
  cspTags (a ++ c_gt :: z) = cspTags z.
Proof.
  intros Ha H. change (a ++ c_gt :: z) with (a ++ [c_gt] ++ z). rewrite app_assoc.
  apply cspTags_skip. intros x1 x2 E Hx2.
  destruct x2 as [|c x2 _] using rev_ind; [done|].
  rewrite app_assoc in E. apply app_inj_tail in E as [-> <-].
  apply Forall2_app_inv_l in Ha as (a01 & a02 & Ha1 & Ha2 & ->).
  rewrite <- app_assoc. cbn [app].
  pose proof (cspRegex_sim _ _ (sim_app x2 a02 z y Ha2)) as Hs.
  rewrite <- app_assoc in H. apply re_test_false_suffix in H.
  rewrite H in Hs. destruct (cspRegex (x2 ++ c_gt :: z)); [|done].
  destruct Hs as [Hs _]. by destruct Hs as [? [=]].
Qed.

(** The injected tag, wherever it stands, is matched exactly. *)
Lemma cspRegex_metaTag csp z : cspRegex (metaTag csp ++ z) = Some ([], z).
Proof.
  assert (Hin : c_gt ∈ escapeHtmlAttr csp ++ metaTagClose ++ z).
  { rewrite !elem_of_app. right. left. unfold metaTagClose. set_solver. }
  unfold metaTag. rewrite <- !app_assoc.
  destruct (cspRegex_metaTagOpen _ Hin) as [[caps rest] E]. rewrite E.
  apply cspRegex_rest in E as (-> & a & E & Ha).
  change (metaTagOpen ++ escapeHtmlAttr csp ++ metaTagClose ++ z)
    with (metaTagOpen ++ escapeHtmlAttr csp ++ [c_dq] ++ c_gt :: z) in E.
  rewrite !app_assoc in E. apply first_gt_unique in E as [_ ->]; [done| |done].
  rewrite !elem_of_app. intros [[H|H]|H].
  - revert H. unfold metaTagOpen. intros H.
    repeat (apply elem_of_cons in H as [[=]|H]). by apply elem_of_nil in H.
  - by apply escapeHtmlAttr_no_gt in H.
  - by apply list_elem_of_singleton in H.
Qed.

Lemma metaTag_tail csp : ∃ t, metaTag csp = c_lt :: t ∧ c_lt ∉ t.
Proof.
  exists (List.tl metaTagOpen ++ escapeHtmlAttr csp ++ metaTagClose). split; [done|].
  rewrite !elem_of_app. intros [H|[H|H]].
  - cbn in H. repeat (apply elem_of_cons in H as [[=]|H]). by apply elem_of_nil in H.
  - by apply escapeHtmlAttr_no_lt in H.
  - unfold metaTagClose in H. repeat (apply elem_of_cons in H as [[=]|H]).
    by apply elem_of_nil in H.
Qed.

(** The tags of the injected tag followed by [z] are the tag itself and
    the tags of [z]. *)
Lemma cspTags_metaTag csp z : cspTags (metaTag csp ++ z) = metaTag csp :: cspTags z.
Proof.
  destruct (metaTag_tail csp) as (t & Et & Ht).
  pose proof (cspRegex_metaTag csp z) as E.
  rewrite Et in *. cbn [app cspTags]. cbn [app] in E. rewrite E. cbn [app].
  f_equal.
  - change (c_lt :: t ++ z) with ((c_lt :: t) ++ z).
    rewrite length_app, Nat.add_sub. by rewrite take_app_length.
  - apply cspTags_skip. intros x1 [|c x2] -> Hx2; [done|]. cbn [app].
    apply cspRegex_first. intros ->. apply Ht. rewrite elem_of_app. right. left.
Qed.

(** ** The result of the injection, branch by branch *)

Lemma metaTag_plain csp : c_dollar ∉ csp → c_dollar ∉ metaTag csp.
Proof.
  intros Hc. unfold metaTag. rewrite !elem_of_app. intros [H|[H|H]].
  - by apply metaTagOpen_plain.
  - by apply escapeHtmlAttr_no_dollar in H.
  - unfold metaTagClose in H. repeat (apply elem_of_cons in H as [[=]|H]).
    by apply elem_of_nil in H.
Qed.

Lemma re_search_test (m : matcher) s pre caps rest :
  re_search m s = Some (pre, caps, rest) → re_test m s = true.
Proof. unfold re_test. by intros ->. Qed.

(** With a [<head ...>] tag in the document. *)
Lemma injectIntoHead_head html csp pre caps rest :
  c_dollar ∉ csp →
  re_search headRegex html = Some (pre, caps, rest) →
  ∃ tag attrs,
    html = pre ++ tag ++ attrs ++ c_gt :: rest
    ∧ Forall2 cieq (c_lt :: s_head) tag ∧ (c_gt ∉ attrs)
    ∧ injectIntoHead html (metaTag csp)
      = pre ++ (c_lt :: s_head) ++ attrs ++ c_gt :: c_lf :: metaTag csp ++ c_lf :: rest.
Proof.
  intros Hc E. destruct (re_search_sound _ _ _ _ _ E) as (t & -> & Ht).
  apply re_open_tag_shape in Ht as (tag & attrs & -> & -> & Htag & Hattrs).
  exists tag, attrs. split_and!; [done..|].
  unfold injectIntoHead. change (isEmpty (metaTag csp)) with false. cbv iota.
  rewrite (re_search_test _ _ _ _ _ E). unfold re_replace. rewrite E.
  change ([c_lf] ++ metaTag csp ++ [c_lf]) with (c_lf :: metaTag csp ++ [c_lf]).
  rewrite expand_head_ref, getSubstitution_plain.
  - change (captureOr [attrs] 1 _) with attrs. list_assoc.
  - rewrite elem_of_app. intros [H|H]; [by apply metaTag_plain in H|].
    by apply list_elem_of_singleton in H.
Qed.

(** With no [<head ...>] tag but an [<html ...>] tag. *)
Lemma injectIntoHead_html html csp pre caps rest :
  c_dollar ∉ csp →
  re_test headRegex html = false →
  re_search htmlRegex html = Some (pre, caps, rest) →
  ∃ tag attrs,
    html = pre ++ tag ++ attrs ++ c_gt :: rest
    ∧ Forall2 cieq (c_lt :: s_html) tag ∧ (c_gt ∉ attrs)
    ∧ injectIntoHead html (metaTag csp)
      = pre ++ (c_lt :: s_html) ++ attrs ++ c_gt :: c_lf :: s_head_open ++ c_lf
          :: metaTag csp ++ c_lf :: s_head_close ++ rest.
Proof.
  intros Hc Eh E. destruct (re_search_sound _ _ _ _ _ E) as (t & -> & Ht).
  apply re_open_tag_shape in Ht as (tag & attrs & -> & -> & Htag & Hattrs).
  exists tag, attrs. split_and!; [done..|].
  unfold injectIntoHead. change (isEmpty (metaTag csp)) with false. cbv iota.
  rewrite Eh, (re_search_test _ _ _ _ _ E). unfold re_replace. rewrite E.
  change ([c_lf] ++ s_head_open ++ [c_lf] ++ metaTag csp ++ ?t)
    with (c_lf :: s_head_open ++ c_lf :: metaTag csp ++ t).
  rewrite expand_html_ref, getSubstitution_plain.
  - change (captureOr [attrs] 1 _) with attrs. list_assoc.
  - rewrite !elem_of_app. intros [H|[H|H]]; [by apply metaTag_plain in H| |].
    + by apply list_elem_of_singleton in H.
    + unfold s_head_close in H. repeat (apply elem_of_cons in H as [[=]|H]).
      by apply elem_of_nil in H.
Qed.

(** With neither. *)
Lemma injectIntoHead_prepend html csp :
  re_test headRegex html = false →
  re_test htmlRegex html = false →
  injectIntoHead html (metaTag csp)
  = s_head_open ++ c_lf :: metaTag csp ++ c_lf :: s_head_close ++ c_lf :: html.
Proof.
  intros Eh Et. unfold injectIntoHead. change (isEmpty (metaTag csp)) with false.
  cbv iota. rewrite Eh, Et. list_assoc.
Qed.

Lemma ensureCspMeta_inject html csp overwrite :
  html ≠ [] → csp ≠ [] → re_test cspRegex html = false →
  ensureCspMeta html csp overwrite = injectIntoHead html (metaTag csp).
Proof.
  intros Hh Hc E. unfold ensureCspMeta. rewrite E.
  destruct html; [done|]. by destruct csp.
Qed.

Lemma cspRegex_second d s : ci_eqb 109 d = false → cspRegex (c_lt :: d :: s) = None.
Proof.
  intros Hd. unfold cspRegex, s_lt_meta. cbn [lit_ci].
  change (ci_eqb 60 c_lt) with true. cbv iota. by rewrite Hd.
Qed.

Ltac skip_char :=
  rewrite cspTags_cons_None
    by first [apply cspRegex_first; done | apply cspRegex_second; done].

(** The injection into a document without tag leaves exactly the injected
    tag. *)
Lemma cspTags_injectIntoHead html csp :
  c_dollar ∉ csp → re_test cspRegex html = false →
  cspTags (injectIntoHead html (metaTag csp)) = [metaTag csp].
Proof.
  intros Hc E.
  destruct (re_test headRegex html) eqn:Eh; [|destruct (re_test htmlRegex html) eqn:Et].
  - apply re_test_true_search in Eh as (pre & caps & rest & Eh).
    destruct (injectIntoHead_head html csp _ _ _ Hc Eh)
      as (tag & attrs & -> & Htag & Hattrs & ->).
    assert (Hsim : Forall2 cieq ((pre ++ c_lt :: s_head) ++ attrs) ((pre ++ tag) ++ attrs)).
    { repeat apply Forall2_app; [| exact Htag |];
        by apply Forall_Forall2_diag, Forall_true. }
    rewrite !app_assoc. rewrite !app_assoc in E.
    rewrite (cspTags_transfer _ _ _ _ Hsim E).
    skip_char. rewrite cspTags_metaTag. skip_char.
    rewrite (cspTags_no_match ((((pre ++ tag) ++ attrs)) ++ [c_gt]) rest); [done|].
    by rewrite <- app_assoc.
  - apply re_test_true_search in Et as (pre & caps & rest & Et).
    destruct (injectIntoHead_html html csp _ _ _ Hc Eh Et)
      as (tag & attrs & -> & Htag & Hattrs & ->).
    assert (Hsim : Forall2 cieq ((pre ++ c_lt :: s_html) ++ attrs) ((pre ++ tag) ++ attrs)).
    { repeat apply Forall2_app; [| exact Htag |];
        by apply Forall_Forall2_diag, Forall_true. }
    rewrite !app_assoc. rewrite !app_assoc in E.
    rewrite (cspTags_transfer _ _ _ _ Hsim E).
    unfold s_head_open, s_head_close. cbn [app]. do 8 skip_char.
    rewrite cspTags_metaTag. do 8 skip_char.
    rewrite (cspTags_no_match ((((pre ++ tag) ++ attrs)) ++ [c_gt]) rest); [done|].
    by rewrite <- app_assoc.
  - rewrite injectIntoHead_prepend by done.
    unfold s_head_open, s_head_close. cbn [app]. do 7 skip_char.
    rewrite cspTags_metaTag. do 9 skip_char.
    by rewrite (cspTags_no_match [] _ E).
Qed.

(** A document has no tag exactly when the test of the CSP regex fails. *)
Lemma cspTags_nil_test s : cspTags s = [] ↔ re_test cspRegex s = false.
Proof.
  split; [|apply (cspTags_no_match [])].
  unfold re_test. induction s as [|c s IH]; cbn [cspTags re_search].
  - destruct (cspRegex []) as [[??]|]; [|done]. by intros [=].
  - destruct (cspRegex (c :: s)) as [[??]|]; [by intros [=]|].
    cbn [app]. intros H. specialize (IH H).
    by destruct (re_search cspRegex s) as [[[??]?]|].
Qed.

(** ** Facts about the queue of the session *)

Lemma run_cons cfg ev evs st : run cfg (ev :: evs) st = run cfg evs (step cfg st ev).
Proof. done. Qed.

Lemma flushLoop_spec queue st :
  flushLoop queue st = set_pendingMessages [] (set_toInner (toInner st ++ queue) st).
Proof.
  revert st. induction queue as [|msg queue IH]; intros st; cbn [flushLoop].
  - by rewrite app_nil_r; destruct st.
  - rewrite IH. unfold set_pendingMessages, set_toInner. cbn. by rewrite <- app_assoc.
Qed.

Lemma flushPendingMessages_attached st :
  attached st = true →
  flushPendingMessages st
  = set_pendingMessages []
      (set_toInner (toInner st ++ pendingMessages st) (set_innerReady true st)).
Proof. intros H. unfold flushPendingMessages. rewrite H. cbn [negb]. by rewrite flushLoop_spec. Qed.

Lemma flushPendingMessages_detached st :
  attached st = false → flushPendingMessages st = st.
Proof. intros H. unfold flushPendingMessages. by rewrite H. Qed.

(** A relayed message of the host is queued while the session is not
    ready, and posted to the inner iframe once it is. *)
Lemma step_relay_queued cfg st data :
  attached st = true → innerReady st = false → relayed data →
  step cfg st (EvMessage FromParent data)
  = set_pendingMessages (pendingMessages st ++ [data]) st.
Proof.
  intros Ha Hr Hd. cbn [step handleMessage]. rewrite Ha, Hd. cbn [stateOf].
  unfold forwardToInner. by rewrite Hr.
Qed.

Lemma step_relay_posted cfg st data :
  attached st = true → innerReady st = true → relayed data →
  step cfg st (EvMessage FromParent data) = set_toInner (toInner st ++ [data]) st.
Proof.
  intros Ha Hr Hd. cbn [step handleMessage]. rewrite Ha, Hd. cbn [stateOf].
  unfold forwardToInner. by rewrite Hr, Ha.
Qed.

Lemma run_relay_queued cfg st ms :
  attached st = true → innerReady st = false → Forall relayed ms →
  run cfg (EvMessage FromParent <$> ms) st
  = set_pendingMessages (pendingMessages st ++ ms) st.
Proof.
  intros Ha Hr Hms. revert st Ha Hr. induction Hms as [|m ms Hm Hms IH]; intros st Ha Hr.
  - cbn. rewrite app_nil_r. by destruct st.
  - cbn [fmap list_fmap]. rewrite run_cons, step_relay_queued by done.
    rewrite IH by done. cbn. by rewrite <- app_assoc.
Qed.

Lemma run_relay_posted cfg st ms :
  attached st = true → innerReady st = true → Forall relayed ms →
  run cfg (EvMessage FromParent <$> ms) st = set_toInner (toInner st ++ ms) st.
Proof.
  intros Ha Hr Hms. revert st Ha Hr. induction Hms as [|m ms Hm Hms IH]; intros st Ha Hr.
  - cbn. rewrite app_nil_r. by destruct st.
  - cbn [fmap list_fmap]. rewrite run_cons, step_relay_posted by done.
    rewrite IH by done. cbn. by rewrite <- app_assoc.
Qed.

(** Either handshake event flushes the queue of an attached session that
    is not ready, in the order of the queue. *)
Lemma step_handshake cfg st ev :
  attached st = true → innerReady st = false → isHandshake st ev →
  let st' := step cfg st ev in
  toInner st' = toInner st ++ pendingMessages st
  ∧ pendingMessages st' = [] ∧ innerReady st' = true ∧ attached st' = true.
Proof.
  intros Ha Hr Hev. destruct ev as [[| |] data| |id| |]; try done; cbn [isHandshake] in Hev.
  - cbn [step handleMessage]. rewrite Ha, Hev. cbn [stateOf].
    rewrite flushPendingMessages_attached.
    + unfold clearFlushTimeout. by destruct (flushTimeout st).
    + unfold clearFlushTimeout. by destruct (flushTimeout st).
  - cbn [step]. unfold onTimeout. rewrite bool_decide_eq_true_2 by done.
    unfold fallbackCallback. cbn [innerReady set_timers]. rewrite Hr. cbn [negb].
    by rewrite flushPendingMessages_attached.
Qed.

(** The callback of the fallback timer does nothing once the session is
    ready, and an expiry does nothing when the timer is not set. *)
Lemma onTimeout_ready id st :
  innerReady st = true →
  toInner (onTimeout id st) = toInner st
  ∧ pendingMessages (onTimeout id st) = pendingMessages st
  ∧ innerReady (onTimeout id st) = true.
Proof.
  intros Hr. unfold onTimeout. destruct (bool_decide (id ∈ timers st)); [|done].
  unfold fallbackCallback. cbn [innerReady set_timers]. by rewrite Hr.
Qed.

(** ** Every relayed message is posted or pending, once, in order *)

Lemma step_detached cfg st ev :
  attached st = false →
  attached (step cfg st ev) = false
  ∧ toInner (step cfg st ev) = toInner st
  ∧ pendingMessages (step cfg st ev) = pendingMessages st.
Proof.
  intros Ha. destruct ev as [source data| |id|o|]; cbn [step].
  - by rewrite Ha.
  - done.
  - unfold onTimeout. destruct (bool_decide (id ∈ timers st)); [|done].
    unfold fallbackCallback. cbn [innerReady set_timers].
    destruct (innerReady st); cbn [negb]; [done|].
    by rewrite flushPendingMessages_detached.
  - unfold primeIframeFromCache_resume, afterPrime.
    destruct (namespacedKey cfg), (fetchCachedHtmlFromApi_result o) as [h|];
      try destruct (isEmpty h); cbn [negb];
      destruct (resourceUrl cfg) as [r|]; try destruct (isEmpty r); done.
  - done.
Qed.

Lemma run_detached cfg evs st :
  attached st = false →
  toInner (run cfg evs st) = toInner st
  ∧ pendingMessages (run cfg evs st) = pendingMessages st.
Proof.
  revert st. induction evs as [|ev evs IH]; intros st Ha; [done|].
  rewrite run_cons. destruct (step_detached cfg st ev Ha) as (Ha' & <- & <-).
  by apply IH.
Qed.

Lemma writeThrough_queue cfg o html st :
  let st' := writeThrough cfg o html st in
  attached st' = attached st ∧ innerReady st' = innerReady st
  ∧ toInner st' = toInner st ∧ pendingMessages st' = pendingMessages st
  ∧ toParent st' = toParent st ∧ sandbox st' = sandbox st ∧ srcdoc st' = srcdoc st.
Proof.
  unfold writeThrough. destruct o as [r|]; [|done]. destruct (isEmpty r); [done|].
  unfold persistCachedHtmlToApi, setCachedHtml. cbn [fetchAvailable set_htmlCache].
  destruct (fetchAvailable st); cbn [negb]; [|done].
  by destruct (buildCachePath r (Some (cacheNamespace cfg))).
Qed.

Lemma handleResourceReady_queue cfg data st :
  let st' := stateOf (handleResourceReady cfg data st) in
  attached st' = attached st ∧ toInner st' = toInner st
  ∧ pendingMessages st' = pendingMessages st
  ∧ toParent st' = toParent st.
Proof.
  unfold handleResourceReady.
  destruct (getProp _ s_html_key) as [| | | |html|]; try done.
  destruct (ensureCspMetaAny _ _ _) as [safe|]; [|done]. cbn [stateOf].
  destruct (writeThrough_queue cfg (resourceForCacheOf cfg (getProp (paramsOf data) s_resource))
              safe (set_srcdoc safe (set_innerReady false
                 (set_sandbox (sandboxValueOf (getProp (paramsOf data) s_sandbox)) st))))
    as (-> & _ & -> & -> & -> & _). done.
Qed.

Lemma handleResourceReady_ready cfg data st :
  pendingMessages st = [] ∨ innerReady st = false →
  let st' := stateOf (handleResourceReady cfg data st) in
  innerReady st' = true → pendingMessages st' = [].
Proof.
  intros Hq. cbn zeta.
  destruct (handleResourceReady_queue cfg data st) as (_ & _ & -> & _).
  unfold handleResourceReady.
  destruct (getProp _ s_html_key) as [| | | |html|];
    try (cbn; destruct Hq as [->| ->]; done).
  destruct (ensureCspMetaAny _ _ _) as [safe|]; [|cbn; destruct Hq as [->| ->]; done].
  cbn [stateOf].
  destruct (writeThrough_queue cfg (resourceForCacheOf cfg (getProp (paramsOf data) s_resource))
              safe (set_srcdoc safe (set_innerReady false
                 (set_sandbox (sandboxValueOf (getProp (paramsOf data) s_sandbox)) st))))
    as (_ & -> & _). done.
Qed.

Lemma step_mounted cfg st ev :
  mounted_inv st → ev ≠ EvUnmount →
  mounted_inv (step cfg st ev)
  ∧ toInner (step cfg st ev) ++ pendingMessages (step cfg st ev)
    = toInner st ++ pendingMessages st ++ arrivals [ev].
Proof.
  intros [Ha Hq] Hev. destruct ev as [[| |] data| |id|o|]; try done; cbn [step arrivals].
  - (* from the inner iframe *)
    rewrite Ha. cbn [handleMessage].
    destruct (hasMethod data m_client_ready) eqn:E; cbn [stateOf].
    + rewrite flushPendingMessages_attached
        by (unfold clearFlushTimeout; by destruct (flushTimeout st)).
      unfold clearFlushTimeout, mounted_inv.
      destruct (flushTimeout st); cbn; by rewrite !app_nil_r.
    + unfold mounted_inv. cbn. by rewrite app_nil_r.
  - (* from the host *)
    rewrite Ha. cbn [handleMessage].
    destruct (hasMethod data m_sandbox_resource_ready) eqn:E.
    + destruct (handleResourceReady_queue cfg data st) as (Ha' & Ht & Hp & _).
      rewrite app_nil_r, Ht, Hp. split; [|done]. split; [by rewrite Ha'|].
      apply handleResourceReady_ready.
      destruct (innerReady st) eqn:Er; [left; by apply Hq|by right].
    + cbn [stateOf]. unfold forwardToInner, mounted_inv. rewrite Ha.
      destruct (innerReady st) eqn:Er; cbn.
      * rewrite (Hq eq_refl). by rewrite !app_nil_r.
      * split; [|done]. split; [done|]. by rewrite Er.
  - (* from elsewhere *)
    rewrite Ha. cbn. by rewrite app_nil_r.
  - (* load *)
    unfold mounted_inv. cbn. by rewrite app_nil_r.
  - (* timer *)
    rewrite app_nil_r. unfold onTimeout. destruct (bool_decide (id ∈ timers st)); [|done].
    unfold fallbackCallback. cbn [innerReady set_timers].
    destruct (innerReady st) eqn:Er; cbn [negb].
    + unfold mounted_inv. cbn. by rewrite Er.
    + rewrite flushPendingMessages_attached by done. unfold mounted_inv. cbn.
      by rewrite app_nil_r.
  - (* answer of the persistent tier *)
    rewrite app_nil_r. unfold primeIframeFromCache_resume, afterPrime, mounted_inv.
    destruct (namespacedKey cfg), (fetchCachedHtmlFromApi_result o) as [h|];
      try destruct (isEmpty h); cbn [negb];
      destruct (resourceUrl cfg) as [r|]; try destruct (isEmpty r); done.
Qed.

Lemma run_mounted cfg evs st :
  mounted_inv st →
  toInner (run cfg evs st) ++ pendingMessages (run cfg evs st)
  = toInner st ++ pendingMessages st ++ arrivals evs.
Proof.
  revert st. induction evs as [|ev evs IH]; intros st Hst.
  - cbn. by rewrite app_nil_r.
  - rewrite run_cons.
    assert (ev = EvUnmount ∨ ev ≠ EvUnmount) as [->|Hev] by (destruct ev; by eauto).
    + cbn [step arrivals]. rewrite app_nil_r.
      by destruct (run_detached cfg evs (unmount st) eq_refl) as [-> ->].
    + destruct (step_mounted cfg st ev Hst Hev) as [Hst' E].
      rewrite IH by done. rewrite app_assoc, E.
      rewrite <- !app_assoc. do 2 f_equal.
      destruct ev as [[| |] data| | | |]; try done.
      cbn. by destruct (hasMethod data m_sandbox_resource_ready).
Qed.

(** ** Facts about the handling of [sandbox-resource-ready] *)

Lemma sandboxValueOf_string s : trim s ≠ [] → sandboxValueOf (VStr s) = s.
Proof. intros H. cbn. by destruct (trim s). Qed.

Lemma sandboxValueOf_default v :
  (∀ s, v = VStr s → trim s = []) → sandboxValueOf v = DEFAULT_SANDBOX.
Proof. intros H. destruct v as [| | | |s|]; try done. cbn. by rewrite (H s eq_refl). Qed.

Lemma ensureCspMetaAny_usable html csp policy overwrite :
  usablePolicy csp policy →
  ensureCspMetaAny html (effectiveCspOf csp) overwrite
  = Some (ensureCspMeta html policy overwrite).
Proof.
  unfold ensureCspMetaAny, effectiveCspOf. intros [[-> Hp]|[Hf ->]].
  - destruct policy as [|p policy]; [done|]. cbn [truthy isEmpty negb orb].
    destruct html; [done|]. done.
  - rewrite Hf. cbn [truthy DEFAULT_CSP isEmpty negb orb].
    destruct html; [done|]. done.
Qed.

Lemma writeThrough_write cfg r html st :
  r ≠ [] →
  let st' := writeThrough cfg (Some r) html st in
  htmlCache st' = <[cacheNamespace cfg ++ s_colons ++ r := html]> (htmlCache st)
  ∧ (∀ path, fetchAvailable st = true →
       buildCachePath r (Some (cacheNamespace cfg)) = Some path →
       fetched st' = fetched st ++ [postCall path html])
  ∧ (fetchAvailable st = false ∨ buildCachePath r (Some (cacheNamespace cfg)) = None →
       fetched st' = fetched st).
Proof.
  intros Hr. unfold writeThrough. destruct r as [|c r]; [done|]. cbn [isEmpty].
  unfold persistCachedHtmlToApi, setCachedHtml. cbn [fetchAvailable set_htmlCache].
  destruct (fetchAvailable st); cbn [negb].
  - destruct (buildCachePath (c :: r) (Some (cacheNamespace cfg))) as [path|].
    + split_and!; [done| |by intros [|]]. by intros ? _ [= <-].
    + split_and!; done.
  - split_and!; done.
Qed.

Lemma writeThrough_skip cfg o html st :
  o = None ∨ o = Some [] → writeThrough cfg o html st = st.
Proof. by intros [-> | ->]. Qed.

Lemma resourceForCacheOf_fallback cfg v :
  (∀ x, v ≠ VStr x) → resourceForCacheOf cfg v = resourceUrl cfg.
Proof. intros H. destruct v as [| | | |x|]; try done. by destruct (H x). Qed.

Lemma handleResourceReady_html cfg data st h policy :
  getProp (paramsOf data) s_html_key = VStr h →
  usablePolicy (getProp (paramsOf data) s_csp) policy →
  handleResourceReady cfg data st
  = Returned
      (writeThrough cfg (resourceForCacheOf cfg (getProp (paramsOf data) s_resource))
         (ensureCspMeta h policy true)
         (set_srcdoc (ensureCspMeta h policy true)
            (set_innerReady false
               (set_sandbox (sandboxValueOf (getProp (paramsOf data) s_sandbox)) st)))).
Proof.
  intros Hh Hp. unfold handleResourceReady. rewrite Hh.
  by rewrite (ensureCspMetaAny_usable _ _ _ _ Hp).
Qed.

Lemma handleResourceReady_no_html cfg data st :
  (∀ h, getProp (paramsOf data) s_html_key ≠ VStr h) →
  handleResourceReady cfg data st
  = Returned (set_sandbox (sandboxValueOf (getProp (paramsOf data) s_sandbox)) st).
Proof.
  intros H. unfold handleResourceReady.
  destruct (getProp (paramsOf data) s_html_key) as [| | | |h|]; try done. by destruct (H h).
Qed.

Lemma handleResourceReady_sandbox cfg data st :
  sandbox (stateOf (handleResourceReady cfg data st))
  = sandboxValueOf (getProp (paramsOf data) s_sandbox).
Proof.
  unfold handleResourceReady.
  destruct (getProp (paramsOf data) s_html_key) as [| | | |h|]; try done.
  destruct (ensureCspMetaAny _ _ _) as [safe|]; [|done]. cbn [stateOf].
  destruct (writeThrough_queue cfg (resourceForCacheOf cfg (getProp (paramsOf data) s_resource))
              safe (set_srcdoc safe (set_innerReady false
                 (set_sandbox (sandboxValueOf (getProp (paramsOf data) s_sandbox)) st))))
    as (_ & _ & _ & _ & _ & -> & _). done.
Qed.

(** The handler does not read the [noCache] flag. *)
Lemma handleMessage_noCache cfg b source data st :
  handleMessage {| flowId := flowId cfg; resourceUrl := resourceUrl cfg; noCacheParam := b |}
    source data st
  = handleMessage cfg source data st.
Proof. done. Qed.

(** ** Facts about the cache read *)

Lemma cacheNamespace_nonempty cfg : isEmpty (cacheNamespace cfg) = false.
Proof. unfold cacheNamespace. destruct (flowId cfg) as [[|c f]|]; done. Qed.

Lemma buildCachePath_namespaced cfg r :
  buildCachePath r (Some (cacheNamespace cfg))
  = (encoded ← encodeCacheKey (cacheNamespace cfg ++ s_colons ++ r);
     Some (CACHE_ENDPOINT_BASE ++ [c_slash] ++ encoded)).
Proof. unfold buildCachePath. by rewrite cacheNamespace_nonempty. Qed.

Lemma namespacedKey_resource cfg r :
  resourceUrl cfg = Some r → r ≠ [] →
  namespacedKey cfg = Some (cacheNamespace cfg ++ s_colons ++ r).
Proof. intros Hr Hne. unfold namespacedKey. rewrite Hr. by destruct r. Qed.

(** With the flag or the marker, the read is over before it looks at
    either tier. *)
Lemma primeIframeFromCache_start_disabled cfg st :
  noCacheParam cfg = true
  ∨ (∃ r, resourceUrl cfg = Some r ∧ includes s_cache_buster r = true) →
  primeIframeFromCache_start cfg st = (st, Some false).
Proof.
  intros H. unfold primeIframeFromCache_start.
  destruct (resourceUrl cfg) as [r|]; [|done].
  destruct (namespacedKey cfg); [|done].
  destruct H as [->|(r' & [= <-] & ->)]; [done|]. by rewrite orb_true_r.
Qed.

Lemma primeIframeFromCache_start_enabled cfg st r :
  resourceUrl cfg = Some r → r ≠ [] →
  noCacheParam cfg = false → includes s_cache_buster r = false →
  primeIframeFromCache_start cfg st
  = match htmlCache st !! (cacheNamespace cfg ++ s_colons ++ r) with
    | Some (c :: h) => (set_srcdoc (ensureCspMeta (c :: h) DEFAULT_CSP false) st, Some true)
    | _ =>
        if fetchAvailable st then
          match encodeCacheKey (cacheNamespace cfg ++ s_colons ++ r) with
          | Some encoded =>
              (set_fetched
                 (fetched st ++ [getCall (CACHE_ENDPOINT_BASE ++ [c_slash] ++ encoded)]) st,
               None)
          | None => (st, Some false)
          end
        else (st, Some false)
    end.
Proof.
  intros Hr Hne Hn Hm. unfold primeIframeFromCache_start.
  rewrite (namespacedKey_resource cfg r Hr Hne), Hr, Hn, Hm. cbn [orb].
  unfold getCachedHtml, fetchCachedHtmlFromApi_call. rewrite buildCachePath_namespaced.
  destruct (htmlCache st !! _) as [[|c h]|]; cbn [isEmpty negb];
    try done; destruct (fetchAvailable st); cbn [negb]; try done;
    by destruct (encodeCacheKey _).
Qed.

Lemma primeIframeFromCache_resume_hit cfg st r status h :
  resourceUrl cfg = Some r → r ≠ [] →
  200 ≤ status ≤ 299 → h ≠ [] →
  primeIframeFromCache_resume cfg (FetchResponse status (Some h)) st
  = (set_srcdoc (ensureCspMeta h DEFAULT_CSP false)
       (setCachedHtml (cacheNamespace cfg ++ s_colons ++ r) h st), true).
Proof.
  intros Hr Hne [H1 H2] Hh. unfold primeIframeFromCache_resume.
  rewrite (namespacedKey_resource cfg r Hr Hne). cbn [fetchCachedHtmlFromApi_result].
  rewrite (proj2 (Nat.leb_le _ _) H1), (proj2 (Nat.leb_le _ _) H2). cbn [andb].
  by destruct h.
Qed.

Lemma primeIframeFromCache_resume_miss cfg st o :
  o = FetchRejected
  ∨ (∃ status text, o = FetchResponse status text ∧ (status < 200 ∨ 299 < status))
  ∨ (∃ status, o = FetchResponse status None)
  ∨ (∃ status, o = FetchResponse status (Some [])) →
  primeIframeFromCache_resume cfg o st = (st, false).
Proof.
  unfold primeIframeFromCache_resume.
  intros [->|[(status & text & -> & Hs)|[(status & ->)|(status & ->)]]];
    destruct (namespacedKey cfg); try done; cbn [fetchCachedHtmlFromApi_result].
  - destruct (Nat.leb_spec 200 status), (Nat.leb_spec status 299); cbn [andb]; try done.
    lia.
  - by destruct ((200 <=? status) && (status <=? 299)).
  - by destruct ((200 <=? status) && (status <=? 299)).
Qed.

(** ** Facts about the decoder *)

Lemma parseEscape_shorter s b r : parseEscape s = Some (b, r) → length r < length s.
Proof.
  destruct s as [|p [|h1 [|h2 rest]]]; try done. cbn [parseEscape].
  destruct (p =? 37)%N; [|done].
  destruct (hexVal h1); [|done]. destruct (hexVal h2); [|done].
  cbn. intros [= _ <-]. cbn. lia.
Qed.

Lemma continuationOctets_shorter n s bs r :
  continuationOctets n s = Some (bs, r) → length r ≤ length s.
Proof.
  revert s bs. induction n as [|n IH]; intros s bs; cbn [continuationOctets].
  - by intros [= _ <-].
  - destruct (parseEscape s) as [[b s1]|] eqn:E; [|done]. cbn.
    destruct (continuationOctets n s1) as [[bs' s2]|] eqn:E'; [|done]. cbn.
    intros [= _ <-]. apply parseEscape_shorter in E. apply IH in E'. lia.
Qed.

Lemma utf16Encode_nonempty v : utf16Encode v ≠ [].
Proof. unfold utf16Encode. by destruct (v <? 65536)%N. Qed.

(** One turn of the decoder appends something and takes something. *)
Lemma decodeStep_progress s e r :
  decodeStep s = Some (e, r) → e ≠ [] ∧ length r < length s.
Proof.
  destruct s as [|c rest]; [done|]. unfold decodeStep.
  destruct (negb (c =? 37)%N).
  { intros [= <- <-]. split; [done|]. cbn. lia. }
  destruct (parseEscape (c :: rest)) as [[b s1]|] eqn:E; [|done]. cbn [mbind option_bind].
  apply parseEscape_shorter in E.
  destruct (b <? 128)%N.
  { intros [= <- <-]. done. }
  destruct (if ((192 <=? b) && (b <=? 223))%N then 2
            else if ((224 <=? b) && (b <=? 239))%N then 3
            else if ((240 <=? b) && (b <=? 247))%N then 4 else 0) as [|n']; [done|].
  destruct (continuationOctets n' s1) as [[bs s2]|] eqn:E'; [|done]. cbn [mbind option_bind].
  destruct (utf8Decode (b :: bs)) as [v|]; [|done]. cbn [mbind option_bind].
  intros [= <- <-]. split; [apply utf16Encode_nonempty|].
  apply continuationOctets_shorter in E'. lia.
Qed.

(** The fuel of the loop is never the reason of a failure: any fuel of at
    least the length of the text gives the same result. *)
Lemma decodeLoop_fuel fuel fuel' s :
  length s ≤ fuel → length s ≤ fuel' → decodeLoop fuel s = decodeLoop fuel' s.
Proof.
  revert fuel' s. induction fuel as [|fuel IH]; intros fuel' s Hs Hs'.
  - destruct s; [by destruct fuel'|]. cbn in Hs. lia.
  - destruct s as [|c s]; [by destruct fuel'|].
    destruct fuel' as [|fuel']; [cbn in Hs'; lia|]. cbn [decodeLoop].
    destruct (decodeStep (c :: s)) as [[e r]|] eqn:E; [|done]. cbn [mbind option_bind].
    apply decodeStep_progress in E as [_ Hr]. cbn in Hr, Hs, Hs'.
    by rewrite (IH fuel' r) by lia.
Qed.

(** The decoding of a non-empty text, when there is one, is not empty. *)
Lemma decodeURIComponent_nonempty s d :
  s ≠ [] → decodeURIComponent s = Some d → d ≠ [].
Proof.
  unfold decodeURIComponent. destruct s as [|c s]; [done|]. intros _.
  cbn [length decodeLoop].
  destruct (decodeStep (c :: s)) as [[e r]|] eqn:E; [|done]. cbn [mbind option_bind].
  destruct (decodeLoop (length s) r); [|done]. cbn [mbind option_bind].
  intros [= <-]. apply decodeStep_progress in E as [He _]. by destruct e.
Qed.

(** ** Facts about the handler *)

Lemma rawSegmentOf_nonempty pathname raw : rawSegmentOf pathname = Some raw → raw ≠ [].
Proof.
  unfold rawSegmentOf. destruct (rev (splitOn c_slash pathname)) as [|a [|b rest]].
  - done.
  - destruct a; [done|]. by intros [= <-].
  - destruct a; cbn [isEmpty negb].
    + destruct b; [done|]. by intros [= <-].
    + by intros [= <-].
Qed.

(** The key the handler tests is there exactly when the path has a
    segment for it: a segment that cannot be decoded is the key as it is. *)
Lemma getCacheKey_segment req raw encoded :
  rawSegmentOf (rq_pathname req) = Some raw →
  encodeURIComponent raw = Some encoded →
  ∃ cacheKey, cacheKey ≠ []
    ∧ getCacheKey req = Some (Some cacheKey, rq_origin req ++ s_api_cache ++ encoded).
Proof.
  intros Hraw Henc. unfold getCacheKey. rewrite Hraw, Henc. cbn [mbind option_bind].
  apply rawSegmentOf_nonempty in Hraw.
  destruct (decodeURIComponent raw) as [d|] eqn:E.
  - exists d. split; [by eapply decodeURIComponent_nonempty|done].
  - by exists raw.
Qed.

Lemma getCacheKey_no_segment req :
  rawSegmentOf (rq_pathname req) = None →
  getCacheKey req = Some (None, rq_origin req ++ s_api_cache ++ []).
Proof. intros Hraw. unfold getCacheKey. by rewrite Hraw. Qed.

Section HandlerFacts.
Variable JSON_parse : jsstring → option JsVal.

Lemma handler_storedByWrite cache req :
  storedByWrite cache → storedByWrite (handler JSON_parse cache req).2.
Proof.
  intros Hc. unfold handler.
  destruct (getCacheKey req) as [[cacheKey cacheUrl]|]; [|done].
  destruct (isEmpty (default [] cacheKey)); [done|].
  destruct (bool_decide (rq_method req = s_GET)).
  { by destruct (readFromCache cacheUrl cache). }
  destruct (bool_decide (rq_method req = s_POST)); [|done].
  destruct (postedHtml JSON_parse req) as [[html|]|]; try done.
  destruct html as [|c html]; [done|]. cbn [isEmpty snd].
  intros url r. unfold writeToCache. rewrite lookup_insert.
  case_decide; [|by apply Hc]. intros [= <-]. by exists (c :: html).
Qed.

Lemma serve_storedByWrite reqs cache :
  storedByWrite cache → storedByWrite (serve JSON_parse reqs cache).
Proof.
  revert cache. induction reqs as [|req reqs IH]; intros cache Hc; [done|].
  cbn [serve fold_left]. apply IH. by apply handler_storedByWrite.
Qed.

Lemma storedByWrite_empty : storedByWrite ∅.
Proof. intros url r. by rewrite lookup_empty. Qed.

(** A [GET] with a key segment answers with the stored response, or 404. *)
Lemma handler_get cache req raw encoded :
  rq_method req = s_GET →
  rawSegmentOf (rq_pathname req) = Some raw →
  encodeURIComponent raw = Some encoded →
  handler JSON_parse cache req
  = (Responded
       match cache !! (rq_origin req ++ s_api_cache ++ encoded) with
       | Some cached => cached
       | None => {| rs_status := 404; rs_body := s_NotFound; rs_headers := [] |}
       end, cache).
Proof.
  intros Hm Hraw Henc. unfold handler.
  destruct (getCacheKey_segment req raw encoded Hraw Henc) as (k & Hk & ->).
  cbn [default]. destruct k; [done|]. cbn [isEmpty].
  rewrite bool_decide_eq_true_2 by done. unfold readFromCache.
  by destruct (cache !! _).
Qed.

(** A [POST] of a non-empty text that is not announced as JSON stores it. *)
Lemma handler_post_text cache req raw encoded html :
  rq_method req = s_POST →
  rawSegmentOf (rq_pathname req) = Some raw →
  encodeURIComponent raw = Some encoded →
  includes s_application_json (default [] (rq_contentType req)) = false →
  rq_body req = Some html → html ≠ [] →
  handler JSON_parse cache req
  = (Responded (jsonResponse 200 jsonOk),
     <[rq_origin req ++ s_api_cache ++ encoded := cachedResponse html]> cache).
Proof.
  intros Hm Hraw Henc Hct Hb Hh. unfold handler.
  destruct (getCacheKey_segment req raw encoded Hraw Henc) as (k & Hk & ->).
  cbn [default]. destruct k; [done|]. cbn [isEmpty].
  rewrite Hm. rewrite bool_decide_eq_false_2 by done.
  rewrite bool_decide_eq_true_2 by done.
  unfold postedHtml. rewrite Hct, Hb. by destruct html.
Qed.
End HandlerFacts.

(** * Further properties of the code *)

(** ** The injector on a document that has a tag *)

Lemma re_replace_plain (m : matcher) s template pre caps rest :
  re_search m s = Some (pre, caps, rest) → c_dollar ∉ template →
  re_replace m s template = pre ++ template ++ rest.
Proof. intros E Ht. unfold re_replace. rewrite E. by rewrite getSubstitution_plain. Qed.


(** The escaping can be undone: two values with the same escaping are the
    same. *)
Lemma escapeChar_cases c :
  (c = c_amp ∧ escapeChar c = s_ent_amp) ∨ (c = c_dq ∧ escapeChar c = s_ent_quot)
  ∨ (c = c_lt ∧ escapeChar c = s_ent_lt) ∨ (c = c_gt ∧ escapeChar c = s_ent_gt)
  ∨ ((c ≠ c_amp ∧ c ≠ c_dq ∧ c ≠ c_lt ∧ c ≠ c_gt) ∧ escapeChar c = [c]).
Proof.
  unfold escapeChar.
  destruct (N.eqb_spec c c_amp) as [->|?]; [by left|].
  destruct (N.eqb_spec c c_dq) as [->|?]; [by right; left|].
  destruct (N.eqb_spec c c_lt) as [->|?]; [by right; right; left|].
  destruct (N.eqb_spec c c_gt) as [->|?]; [by right; right; right; left|].
  by right; right; right; right.
Qed.

Lemma flat_map_escapeChar_inj s t :
  flat_map escapeChar s = flat_map escapeChar t → s = t.
Proof.
  revert t. induction s as [|c s IH]; intros [|d t] H; cbn [flat_map] in H.
  - done.
  - destruct (escapeChar_cases d) as [[_ E]|[[_ E]|[[_ E]|[[_ E]|[_ E]]]]];
      rewrite E in H; done.
  - destruct (escapeChar_cases c) as [[_ E]|[[_ E]|[[_ E]|[[_ E]|[_ E]]]]];
      rewrite E in H; done.
  - destruct (escapeChar_cases c) as [[-> E]|[[-> E]|[[-> E]|[[-> E]|[Hc E]]]]];
      destruct (escapeChar_cases d) as [[-> E']|[[-> E']|[[-> E']|[[-> E']|[Hd E']]]]];
      rewrite ?E, ?E' in H; cbn in H; simplify_eq;
      try (f_equal; by apply IH);
      try (by destruct Hc as (? & ? & ? & ?));
      try (by destruct Hd as (? & ? & ? & ?)).
Qed.

Lemma escapeHtmlAttr_inj a b : escapeHtmlAttr a = escapeHtmlAttr b → a = b.
Proof. rewrite !escapeHtmlAttr_flat_map. apply flat_map_escapeChar_inj. Qed.

(** ** The fields a handler leaves alone *)

Lemma flushPendingMessages_fields st :
  let st' := flushPendingMessages st in
  srcdoc st' = srcdoc st ∧ src st' = src st ∧ sandbox st' = sandbox st
  ∧ htmlCache st' = htmlCache st ∧ fetched st' = fetched st
  ∧ toParent st' = toParent st ∧ attached st' = attached st
  ∧ timers st' = timers st ∧ flushTimeout st' = flushTimeout st.
Proof.
  unfold flushPendingMessages. destruct (attached st) eqn:E; cbn [negb]; [|done].
  rewrite flushLoop_spec. cbn. by rewrite E.
Qed.

Lemma onTimeout_fields id st :
  let st' := onTimeout id st in
  srcdoc st' = srcdoc st ∧ src st' = src st ∧ sandbox st' = sandbox st
  ∧ htmlCache st' = htmlCache st ∧ fetched st' = fetched st
  ∧ toParent st' = toParent st ∧ attached st' = attached st.
Proof.
  unfold onTimeout. destruct (bool_decide (id ∈ timers st)); [|done].
  unfold fallbackCallback. cbn [innerReady set_timers].
  destruct (innerReady st); cbn [negb]; [done|].
  match goal with |- context [flushPendingMessages ?s] =>
    destruct (flushPendingMessages_fields s) as (-> & -> & -> & -> & -> & -> & -> & _) end.
  done.
Qed.

Lemma clearFlushTimeout_fields st :
  let st' := clearFlushTimeout st in
  srcdoc st' = srcdoc st ∧ toParent st' = toParent st ∧ attached st' = attached st
  ∧ innerReady st' = innerReady st ∧ pendingMessages st' = pendingMessages st
  ∧ toInner st' = toInner st.
Proof. unfold clearFlushTimeout. by destruct (flushTimeout st). Qed.

Lemma writeThrough_fields cfg o html st :
  let st' := writeThrough cfg o html st in
  src st' = src st ∧ timers st' = timers st ∧ flushTimeout st' = flushTimeout st.
Proof.
  unfold writeThrough. destruct o as [r|]; [|done]. destruct (isEmpty r); [done|].
  unfold persistCachedHtmlToApi, setCachedHtml. cbn [fetchAvailable set_htmlCache].
  destruct (fetchAvailable st); cbn [negb]; [|done].
  by destruct (buildCachePath r (Some (cacheNamespace cfg))).
Qed.

(** ** What the handler passes to the injector *)

Lemma effectiveCspOf_truthy csp : truthy (effectiveCspOf csp) = true.
Proof. unfold effectiveCspOf. by destruct (truthy csp) eqn:E. Qed.

Lemma ensureCspMetaAny_guarded html csp overwrite safe :
  ensureCspMetaAny html (effectiveCspOf csp) overwrite = Some safe →
  safe ≠ [] → re_test cspRegex safe = true.
Proof.
  unfold ensureCspMetaAny. rewrite effectiveCspOf_truthy. cbn [negb].
  destruct html as [|h html]; cbn [isEmpty orb]; [by intros [= <-]|].
  pose proof (effectiveCspOf_truthy csp) as Ht.
  destruct (effectiveCspOf csp) as [| | | |c|]; try done.
  intros [= <-] _. apply ensureCspMeta_has_csp; [done|]. by destruct c.
Qed.

(** A policy that is truthy and not a string raises, unless the HTML is
    empty. *)
Lemma ensureCspMetaAny_raises html csp overwrite :
  html ≠ [] → truthy csp = true → (∀ c, csp ≠ VStr c) →
  ensureCspMetaAny html (effectiveCspOf csp) overwrite = None.
Proof.
  intros Hh Ht Hc. unfold ensureCspMetaAny, effectiveCspOf. rewrite Ht, Ht.
  destruct html; [done|]. cbn [isEmpty orb negb].
  destruct csp as [| | | |c|]; try done. by destruct (Hc c).
Qed.

(** ** The document source over the life of a session *)

Lemma handleMessage_srcdocGuarded cfg source data st :
  srcdocGuarded st → srcdocGuarded (stateOf (handleMessage cfg source data st)).
Proof.
  intros Hst. destruct source; cbn [handleMessage].
  - destruct (hasMethod data m_client_ready); cbn [stateOf]; [|done].
    unfold srcdocGuarded.
    destruct (flushPendingMessages_fields (clearFlushTimeout st)) as (-> & _).
    by destruct (clearFlushTimeout_fields st) as (-> & _).
  - destruct (hasMethod data m_sandbox_resource_ready).
    + unfold handleResourceReady.
      destruct (getProp (paramsOf data) s_html_key) as [| | | |html|]; try done.
      destruct (ensureCspMetaAny html _ true) as [safe|] eqn:E; [|done].
      cbn [stateOf]. unfold srcdocGuarded.
      match goal with |- context [writeThrough cfg ?o safe ?s] =>
        destruct (writeThrough_queue cfg o safe s) as (_ & _ & _ & _ & _ & _ & ->) end.
      cbn. intros doc [= <-]. by eapply ensureCspMetaAny_guarded.
    + cbn [stateOf]. unfold forwardToInner.
      by destruct (innerReady st && attached st).
  - done.
Qed.

Lemma afterPrime_fields cfg found st :
  let st' := afterPrime cfg found st in
  srcdoc st' = srcdoc st ∧ toInner st' = toInner st
  ∧ pendingMessages st' = pendingMessages st ∧ innerReady st' = innerReady st
  ∧ attached st' = attached st ∧ fetched st' = fetched st
  ∧ htmlCache st' = htmlCache st ∧ src st' = src st.
Proof.
  unfold afterPrime. destruct (resourceUrl cfg) as [r|]; [|done].
  by destruct (isEmpty r || found).
Qed.

Lemma primeIframeFromCache_resume_srcdocGuarded cfg o st :
  srcdocGuarded st → srcdocGuarded (primeIframeFromCache_resume cfg o st).1.
Proof.
  intros Hst. unfold primeIframeFromCache_resume.
  destruct (namespacedKey cfg) as [key|]; [|done].
  destruct (fetchCachedHtmlFromApi_result o) as [[|c h]|]; cbn [isEmpty negb fst]; try done.
  intros doc [= <-] _. by apply ensureCspMeta_has_csp.
Qed.

Lemma primeIframeFromCache_start_srcdocGuarded cfg st :
  srcdocGuarded st → srcdocGuarded (primeIframeFromCache_start cfg st).1.
Proof.
  intros Hst. unfold primeIframeFromCache_start.
  destruct (resourceUrl cfg) as [r|]; [|done].
  destruct (namespacedKey cfg) as [key|]; [|done].
  destruct (noCacheParam cfg || includes s_cache_buster r); [done|].
  destruct (getCachedHtml key st) as [[|c h]|]; cbn [isEmpty negb].
  - by destruct (fetchCachedHtmlFromApi_call r _ st).
  - intros doc [= <-] _. by apply ensureCspMeta_has_csp.
  - by destruct (fetchCachedHtmlFromApi_call r _ st).
Qed.

Lemma step_srcdocGuarded cfg st ev :
  srcdocGuarded st → srcdocGuarded (step cfg st ev).
Proof.
  intros Hst. destruct ev as [source data| |id|o|]; cbn [step].
  - destruct (attached st); [by apply handleMessage_srcdocGuarded|done].
  - done.
  - unfold srcdocGuarded. by destruct (onTimeout_fields id st) as (-> & _).
  - pose proof (primeIframeFromCache_resume_srcdocGuarded cfg o st Hst) as H.
    destruct (primeIframeFromCache_resume cfg o st) as [st' found]. cbn [fst] in H.
    unfold srcdocGuarded. by destruct (afterPrime_fields cfg found st') as (-> & _).
  - done.
Qed.

Lemma run_srcdocGuarded cfg evs st :
  srcdocGuarded st → srcdocGuarded (run cfg evs st).
Proof.
  revert st. induction evs as [|ev evs IH]; intros st Hst; [done|].
  rewrite run_cons. by apply IH, step_srcdocGuarded.
Qed.

Lemma mount_srcdocGuarded isHttpUrl cfg st :
  srcdocGuarded st → srcdocGuarded (mount isHttpUrl cfg st).
Proof.
  intros Hst. unfold mount.
  set (st0 := set_toParent _ st). assert (H0 : srcdocGuarded st0) by done.
  pose proof (primeIframeFromCache_start_srcdocGuarded cfg st0 H0) as H.
  destruct (primeIframeFromCache_start cfg st0) as [st1 [found|]]; cbn [fst] in H.
  - assert (srcdocGuarded (afterPrime cfg found st1)).
    { unfold srcdocGuarded. by destruct (afterPrime_fields cfg found st1) as (-> & _). }
    destruct (resourceUrl cfg) as [r|]; [|done].
    by destruct (negb (isEmpty r) && isHttpUrl r).
  - destruct (resourceUrl cfg) as [r|]; [|done].
    by destruct (negb (isEmpty r) && isHttpUrl r).
Qed.

(** ** What the session sends to the host *)

Lemma step_upward cfg st ev :
  attached st = true → notFetched ev → ev ≠ EvUnmount →
  attached (step cfg st ev) = true
  ∧ toParent (step cfg st ev) = toParent st ++ upward [ev].
Proof.
  intros Ha Hf Hu. destruct ev as [[| |] data| |id|o|]; try done; cbn [step upward].
  - rewrite Ha. cbn [handleMessage].
    destruct (hasMethod data m_client_ready); cbn [stateOf]; [|done].
    destruct (flushPendingMessages_fields (clearFlushTimeout st))
      as (_ & _ & _ & _ & _ & -> & -> & _).
    destruct (clearFlushTimeout_fields st) as (_ & -> & -> & _).
    by rewrite app_nil_r.
  - rewrite Ha. cbn [handleMessage]. rewrite app_nil_r.
    destruct (hasMethod data m_sandbox_resource_ready).
    + destruct (handleResourceReady_queue cfg data st) as (-> & _ & _ & ->). done.
    + cbn [stateOf]. unfold forwardToInner. by destruct (innerReady st && attached st).
  - rewrite Ha. cbn. by rewrite app_nil_r.
  - cbn. by rewrite app_nil_r.
  - destruct (onTimeout_fields id st) as (_ & _ & _ & _ & _ & -> & -> ).
    by rewrite app_nil_r.
Qed.

Lemma step_detached_quiet cfg st ev :
  attached st = false → notFetched ev →
  toParent (step cfg st ev) = toParent st
  ∧ srcdoc (step cfg st ev) = srcdoc st
  ∧ htmlCache (step cfg st ev) = htmlCache st
  ∧ fetched (step cfg st ev) = fetched st.
Proof.
  intros Ha Hf. destruct ev as [source data| |id|o|]; try done; cbn [step].
  - by rewrite Ha.
  - by destruct (onTimeout_fields id st) as (-> & _ & _ & -> & -> & -> & _).
Qed.

Lemma run_detached_quiet cfg evs st :
  attached st = false → Forall notFetched evs →
  toParent (run cfg evs st) = toParent st
  ∧ srcdoc (run cfg evs st) = srcdoc st
  ∧ htmlCache (run cfg evs st) = htmlCache st
  ∧ fetched (run cfg evs st) = fetched st.
Proof.
  revert st. induction evs as [|ev evs IH]; intros st Ha Hf; [done|].
  rewrite run_cons. inversion_clear Hf as [|? ? Hev Hevs].
  destruct (step_detached cfg st ev Ha) as (Ha' & _).
  destruct (step_detached_quiet cfg st ev Ha Hev) as (<- & <- & <- & <-).
  by apply IH.
Qed.

Lemma step_detached_ready cfg st ev :
  attached st = false → innerReady (step cfg st ev) = innerReady st.
Proof.
  intros Ha. destruct ev as [source data| |id|o|]; cbn [step].
  - by rewrite Ha.
  - done.
  - unfold onTimeout. destruct (bool_decide (id ∈ timers st)); [|done].
    unfold fallbackCallback. cbn [innerReady set_timers].
    destruct (innerReady st) eqn:E; cbn [negb]; [done|].
    by rewrite flushPendingMessages_detached.
  - destruct (primeIframeFromCache_resume cfg o st) as [st' found] eqn:E.
    destruct (afterPrime_fields cfg found st') as (_ & _ & _ & -> & _).
    unfold primeIframeFromCache_resume in E.
    destruct (namespacedKey cfg); [|by injection E as <- _].
    destruct (fetchCachedHtmlFromApi_result o) as [h|]; [|by injection E as <- _].
    destruct (isEmpty h); cbn [negb] in E; by injection E as <- _.
  - done.
Qed.

Lemma run_detached_ready cfg evs st :
  attached st = false →
  attached (run cfg evs st) = false ∧ innerReady (run cfg evs st) = innerReady st.
Proof.
  revert st. induction evs as [|ev evs IH]; intros st Ha; [done|]. rewrite run_cons.
  destruct (step_detached cfg st ev Ha) as (Ha' & _).
  destruct (IH _ Ha') as [-> ->]. by rewrite step_detached_ready.
Qed.

Lemma step_readyQueueEmpty cfg st ev :
  readyQueueEmpty st → readyQueueEmpty (step cfg st ev).
Proof.
  intros Hq. destruct (attached st) eqn:Ha.
  - assert (ev = EvUnmount ∨ ev ≠ EvUnmount) as [->|Hev] by (destruct ev; by eauto).
    + done.
    + by destruct (step_mounted cfg st ev (conj Ha Hq) Hev) as [[_ H] _].
  - unfold readyQueueEmpty.
    destruct (step_detached cfg st ev Ha) as (_ & _ & ->).
    by rewrite (step_detached_ready cfg st ev Ha).
Qed.

Lemma primeIframeFromCache_start_fields cfg st :
  let st' := (primeIframeFromCache_start cfg st).1 in
  toInner st' = toInner st ∧ pendingMessages st' = pendingMessages st
  ∧ innerReady st' = innerReady st ∧ attached st' = attached st
  ∧ toParent st' = toParent st ∧ htmlCache st' = htmlCache st ∧ src st' = src st.
Proof.
  unfold primeIframeFromCache_start.
  destruct (resourceUrl cfg) as [r|]; [|done].
  destruct (namespacedKey cfg) as [key|]; [|done].
  destruct (noCacheParam cfg || includes s_cache_buster r); [done|].
  destruct (getCachedHtml key st) as [[|c h]|]; cbn [isEmpty negb]; try done;
    by destruct (fetchCachedHtmlFromApi_call r _ st).
Qed.

Lemma mount_fields isHttpUrl cfg st :
  let st' := mount isHttpUrl cfg st in
  toInner st' = toInner st ∧ pendingMessages st' = pendingMessages st
  ∧ innerReady st' = innerReady st ∧ attached st' = attached st
  ∧ htmlCache st' = htmlCache st.
Proof.
  unfold mount. set (st0 := set_toParent _ st).
  pose proof (primeIframeFromCache_start_fields cfg st0) as H.
  destruct (primeIframeFromCache_start cfg st0) as [st1 [found|]]; cbn [fst] in H;
    destruct H as (H1 & H2 & H3 & H4 & _ & H6 & _);
    try destruct (afterPrime_fields cfg found st1) as (_ & F1 & F2 & F3 & F4 & _ & F6 & _);
    destruct (resourceUrl cfg) as [r|]; try destruct (negb (isEmpty r) && isHttpUrl r);
    try done; by rewrite ?F1, ?F2, ?F3, ?F4, ?F6, ?H1, ?H2, ?H3, ?H4, ?H6.
Qed.

(** ** The encoding of the cache key and its decoding *)

Ltac ncases :=
  repeat match goal with
         | |- context [(?a <=? ?b)%N] => destruct (N.leb_spec a b)
         | |- context [(?a <? ?b)%N] => destruct (N.ltb_spec a b)
         | |- context [(?a =? ?b)%N] => destruct (N.eqb_spec a b)
         end.

Lemma hexVal_hexDigit n : (n < 16)%N → hexVal (hexDigit n) = Some n.
Proof.
  intros Hn. unfold hexDigit, hexVal. ncases; cbn [andb]; try lia; f_equal; lia.
Qed.

Lemma hexDigit_ascii n : (n < 16)%N → (hexDigit n < 128)%N ∧ isUnreserved (hexDigit n) = true.
Proof.
  intros Hn. unfold hexDigit, isUnreserved. ncases; cbn [andb orb]; try lia; done.
Qed.

Lemma parseEscape_percentOctet b rest :
  (b < 256)%N → parseEscape (percentOctet b ++ rest) = Some (b, rest).
Proof.
  intros Hb. unfold percentOctet. cbn [app parseEscape N.eqb Pos.eqb].
  assert (b / 16 < 16)%N by (apply N.Div0.div_lt_upper_bound; lia).
  assert (b mod 16 < 16)%N by (apply N.mod_lt; lia).
  rewrite !hexVal_hexDigit by done. cbn [mbind option_bind].
  do 2 f_equal. rewrite (N.div_mod b 16) at 3 by lia. done.
Qed.


Lemma isUnreserved_not_percent c : isUnreserved c = true → (c =? 37)%N = false.
Proof. intros H. destruct (N.eqb_spec c 37) as [->|]; [by vm_compute in H|done]. Qed.

Lemma decodeStep_plain c rest :
  (c =? 37)%N = false → decodeStep (c :: rest) = Some ([c], rest).
Proof. intros H. unfold decodeStep. by rewrite H. Qed.

Lemma decodeStep_percentOctet b rest :
  (b < 256)%N →
  decodeStep (percentOctet b ++ rest)
  = (if (b <? 128)%N then Some ([b], rest)
     else
       let n :=
         if ((192 <=? b) && (b <=? 223))%N then 2
         else if ((224 <=? b) && (b <=? 239))%N then 3
         else if ((240 <=? b) && (b <=? 247))%N then 4
         else 0 in
       match n with
       | 0 => None
       | S n' =>
           '(bs, s2) ← continuationOctets n' rest;
           v ← utf8Decode (b :: bs);
           Some (utf16Encode v, s2)
       end).
Proof.
  intros Hb. pose proof (parseEscape_percentOctet b rest Hb) as E.
  unfold decodeStep. unfold percentOctet in *. cbn [app] in *.
  cbn [N.eqb Pos.eqb negb]. rewrite E. done.
Qed.

Lemma continuationOctets_percent bs rest :
  Forall (λ b, (b < 256)%N) bs →
  continuationOctets (length bs) (flat_map percentOctet bs ++ rest) = Some (bs, rest).
Proof.
  induction 1 as [|b bs Hb Hbs IH]; [done|].
  cbn [length continuationOctets flat_map]. rewrite <- app_assoc.
  rewrite parseEscape_percentOctet by done. cbn [mbind option_bind].
  rewrite IH. done.
Qed.

(** One code point, encoded and decoded. *)
Lemma decodeStep_percentEncode_1 c rest :
  (c < 128)%N → decodeStep (percentEncode c ++ rest) = Some ([c], rest).
Proof.
  intros Hc. unfold percentEncode, utf8Octets.
  destruct (N.ltb_spec c 128); [|lia]. cbn [flat_map]. rewrite app_nil_r.
  rewrite decodeStep_percentOctet by lia. by destruct (N.ltb_spec c 128); [|lia].
Qed.

Lemma decodeStep_percentEncode_2 c rest :
  (128 ≤ c < 2048)%N → decodeStep (percentEncode c ++ rest) = Some ([c], rest).
Proof.
  intros Hc. unfold percentEncode, utf8Octets.
  destruct (N.ltb_spec c 128); [lia|]. destruct (N.ltb_spec c 2048); [|lia].
  assert (Hq : (c / 64 < 32)%N) by (apply N.Div0.div_lt_upper_bound; lia).
  assert (Hm : (c mod 64 < 64)%N) by (apply N.mod_lt; lia).
  pose proof (N.div_mod c 64 ltac:(lia)) as E.
  set (q := (c / 64)%N) in *. set (m := (c mod 64)%N) in *.
  change (flat_map percentOctet [(192 + q)%N; (128 + m)%N])
    with (percentOctet (192 + q) ++ flat_map percentOctet [(128 + m)%N]).
  rewrite <- app_assoc, decodeStep_percentOctet by lia.
  destruct (N.ltb_spec (192 + q) 128); [lia|].
  destruct (N.leb_spec 192 (192 + q)); [|lia].
  destruct (N.leb_spec (192 + q) 223); [|lia]. cbn [andb].
  cbn zeta.
  pose proof (continuationOctets_percent [(128 + m)%N] rest
                ltac:(repeat constructor; lia)) as Ec.
  cbn [length] in Ec. rewrite Ec.
  cbn [mbind option_bind]. unfold utf8Decode, isContinuation.
  replace ((192 + q - 192) * 64 + (128 + m - 128))%N with c by lia.
  destruct (N.leb_spec 128 (128 + m)); [|lia].
  destruct (N.leb_spec (128 + m) 191); [|lia].
  destruct (N.leb_spec 128 c); [|lia]. cbn [andb mbind option_bind].
  unfold utf16Encode. by destruct (N.ltb_spec c 65536); [|lia].
Qed.

Lemma decodeStep_percentEncode_3 c rest :
  (2048 ≤ c < 65536)%N → isLeadSurrogate c = false → isTrailSurrogate c = false →
  decodeStep (percentEncode c ++ rest) = Some ([c], rest).
Proof.
  intros Hc Hl Ht. unfold percentEncode, utf8Octets.
  destruct (N.ltb_spec c 128); [lia|]. destruct (N.ltb_spec c 2048); [lia|].
  destruct (N.ltb_spec c 65536); [|lia].
  assert (Hs : (c < 55296 ∨ 57343 < c)%N).
  { unfold isLeadSurrogate, isTrailSurrogate in *.
    destruct (N.leb_spec 55296 c); [|lia]. destruct (N.leb_spec c 56319); [done|].
    destruct (N.leb_spec 56320 c); [|lia]. destruct (N.leb_spec c 57343); [done|lia]. }
  assert (Hq : (c / 4096 < 16)%N) by (apply N.Div0.div_lt_upper_bound; lia).
  assert (Hm : (c mod 64 < 64)%N) by (apply N.mod_lt; lia).
  assert (Hm2 : ((c / 64) mod 64 < 64)%N) by (apply N.mod_lt; lia).
  pose proof (N.div_mod c 64 ltac:(lia)) as E.
  pose proof (N.div_mod (c / 64) 64 ltac:(lia)) as E2.
  rewrite N.Div0.div_div in E2. change (64 * 64)%N with 4096%N in E2.
  set (q := (c / 4096)%N) in *. set (m2 := ((c / 64) mod 64)%N) in *.
  set (m := (c mod 64)%N) in *.
  change (flat_map percentOctet [(224 + q)%N; (128 + m2)%N; (128 + m)%N])
    with (percentOctet (224 + q)
            ++ flat_map percentOctet [(128 + m2)%N; (128 + m)%N]).
  rewrite <- app_assoc, decodeStep_percentOctet by lia.
  destruct (N.ltb_spec (224 + q) 128); [lia|].
  destruct (N.leb_spec 192 (224 + q)); [|lia].
  destruct (N.leb_spec (224 + q) 223); [lia|].
  destruct (N.leb_spec 224 (224 + q)); [|lia].
  destruct (N.leb_spec (224 + q) 239); [|lia]. cbn [andb]. cbn zeta.
  pose proof (continuationOctets_percent [(128 + m2)%N; (128 + m)%N] rest
                ltac:(repeat constructor; lia)) as Ec.
  cbn [length] in Ec. rewrite Ec.
  cbn [mbind option_bind]. unfold utf8Decode, isContinuation.
  replace ((224 + q - 224) * 4096 + (128 + m2 - 128) * 64 + (128 + m - 128))%N
    with c by lia.
  destruct (N.leb_spec 128 (128 + m)); [|lia].
  destruct (N.leb_spec (128 + m) 191); [|lia].
  destruct (N.leb_spec 128 (128 + m2)); [|lia].
  destruct (N.leb_spec (128 + m2) 191); [|lia].
  destruct (N.leb_spec 2048 c); [|lia].
  assert (((55296 <=? c) && (c <=? 57343))%N = false) as ->.
  { destruct (N.leb_spec 55296 c); [|done]. destruct (N.leb_spec c 57343); [lia|done]. }
  cbn [andb negb mbind option_bind].
  unfold utf16Encode. by destruct (N.ltb_spec c 65536); [|lia].
Qed.

Lemma decodeStep_percentEncode_4 c d rest :
  isLeadSurrogate c = true → isTrailSurrogate d = true →
  decodeStep (percentEncode ((c - 55296) * 1024 + (d - 56320) + 65536)%N ++ rest)
  = Some ([c; d], rest).
Proof.
  intros Hl Ht.
  assert (Hc : (55296 ≤ c ≤ 56319)%N).
  { unfold isLeadSurrogate in Hl. apply andb_true_iff in Hl as [?%N.leb_le ?%N.leb_le]. lia. }
  assert (Hd : (56320 ≤ d ≤ 57343)%N).
  { unfold isTrailSurrogate in Ht. apply andb_true_iff in Ht as [?%N.leb_le ?%N.leb_le]. lia. }
  set (cp := ((c - 55296) * 1024 + (d - 56320) + 65536)%N).
  assert (Hcp : (65536 ≤ cp ≤ 1114111)%N) by (unfold cp; lia).
  assert (Hu : utf16Encode cp = [c; d]).
  { unfold utf16Encode. destruct (N.ltb_spec cp 65536); [lia|].
    replace (cp - 65536)%N with ((d - 56320) + (c - 55296) * 1024)%N by (unfold cp; lia).
    rewrite N.div_add, N.Div0.mod_add by lia.
    rewrite N.div_small, N.mod_small by lia. f_equal; [lia|f_equal; lia]. }
  clearbody cp. unfold percentEncode, utf8Octets.
  destruct (N.ltb_spec cp 128); [lia|]. destruct (N.ltb_spec cp 2048); [lia|].
  destruct (N.ltb_spec cp 65536); [lia|].
  assert (Hq : (cp / 262144 < 5)%N) by (apply N.Div0.div_lt_upper_bound; lia).
  assert (Hm : (cp mod 64 < 64)%N) by (apply N.mod_lt; lia).
  assert (Hm2 : ((cp / 64) mod 64 < 64)%N) by (apply N.mod_lt; lia).
  assert (Hm3 : ((cp / 4096) mod 64 < 64)%N) by (apply N.mod_lt; lia).
  pose proof (N.div_mod cp 64 ltac:(lia)) as E.
  pose proof (N.div_mod (cp / 64) 64 ltac:(lia)) as E2.
  pose proof (N.div_mod (cp / 4096) 64 ltac:(lia)) as E3.
  rewrite N.Div0.div_div in E2, E3. change (64 * 64)%N with 4096%N in E2.
  change (4096 * 64)%N with 262144%N in E3.
  set (q := (cp / 262144)%N) in *. set (m3 := ((cp / 4096) mod 64)%N) in *.
  set (m2 := ((cp / 64) mod 64)%N) in *. set (m := (cp mod 64)%N) in *.
  change (flat_map percentOctet [(240 + q)%N; (128 + m3)%N; (128 + m2)%N; (128 + m)%N])
    with (percentOctet (240 + q)
            ++ flat_map percentOctet [(128 + m3)%N; (128 + m2)%N; (128 + m)%N]).
  rewrite <- app_assoc, decodeStep_percentOctet by lia.
  destruct (N.ltb_spec (240 + q) 128); [lia|].
  destruct (N.leb_spec 192 (240 + q)); [|lia].
  destruct (N.leb_spec (240 + q) 223); [lia|].
  destruct (N.leb_spec 224 (240 + q)); [|lia].
  destruct (N.leb_spec (240 + q) 239); [lia|].
  destruct (N.leb_spec 240 (240 + q)); [|lia].
  destruct (N.leb_spec (240 + q) 247); [|lia]. cbn [andb]. cbn zeta.
  pose proof (continuationOctets_percent [(128 + m3)%N; (128 + m2)%N; (128 + m)%N] rest
                ltac:(repeat constructor; lia)) as Ec.
  cbn [length] in Ec. rewrite Ec.
  cbn [mbind option_bind]. unfold utf8Decode, isContinuation.
  replace ((240 + q - 240) * 262144 + (128 + m3 - 128) * 4096 + (128 + m2 - 128) * 64
           + (128 + m - 128))%N with cp by lia.
  destruct (N.leb_spec 128 (128 + m)); [|lia].
  destruct (N.leb_spec (128 + m) 191); [|lia].
  destruct (N.leb_spec 128 (128 + m2)); [|lia].
  destruct (N.leb_spec (128 + m2) 191); [|lia].
  destruct (N.leb_spec 128 (128 + m3)); [|lia].
  destruct (N.leb_spec (128 + m3) 191); [|lia].
  destruct (N.leb_spec 65536 cp); [|lia].
  destruct (N.leb_spec cp 1114111); [|lia].
  cbn [andb mbind option_bind]. by rewrite Hu.
Qed.

Lemma decodeURIComponent_step s e r t :
  decodeStep s = Some (e, r) → decodeURIComponent r = Some t →
  decodeURIComponent s = Some (e ++ t).
Proof.
  intros Hs Hr. destruct (decodeStep_progress s e r Hs) as [_ Hlen].
  unfold decodeURIComponent in *. destruct s as [|c s]; [done|].
  cbn [length decodeLoop]. rewrite Hs. cbn [mbind option_bind].
  rewrite (decodeLoop_fuel (length s) (length r) r) by (cbn [length] in Hlen; lia).
  by rewrite Hr.
Qed.

Lemma decodeStep_percentEncode c rest :
  (c < 65536)%N → isLeadSurrogate c = false → isTrailSurrogate c = false →
  decodeStep (percentEncode c ++ rest) = Some ([c], rest).
Proof.
  intros Hc Hl Ht. destruct (N.lt_ge_cases c 128); [by apply decodeStep_percentEncode_1|].
  destruct (N.lt_ge_cases c 2048); [by apply decodeStep_percentEncode_2|].
  by apply decodeStep_percentEncode_3.
Qed.

(** Decoding undoes the encoding. *)
Lemma decode_encode_aux n s t :
  length s ≤ n → codeUnits s → encodeURIComponent s = Some t →
  decodeURIComponent t = Some s.
Proof.
  revert s t. induction n as [|n IH]; intros s t Hn Hs.
  { destruct s; [by intros [= <-]|cbn in Hn; lia]. }
  destruct s as [|c s]; [by intros [= <-]|].
  inversion_clear Hs as [|? ? Hc Hs']. cbn [length] in Hn. cbn [encodeURIComponent].
  destruct (isUnreserved c) eqn:Eu.
  - destruct (encodeURIComponent s) as [u|] eqn:E; [|done]. intros [= <-].
    apply (decodeURIComponent_step _ [c] u s).
    + apply decodeStep_plain. by apply isUnreserved_not_percent.
    + apply IH; [lia|done..].
  - destruct (isTrailSurrogate c) eqn:Et; [done|].
    destruct (isLeadSurrogate c) eqn:El.
    + destruct s as [|d s]; [done|]. destruct (isTrailSurrogate d) eqn:Ed; [|done].
      destruct (encodeURIComponent s) as [u|] eqn:E; [|done]. intros [= <-].
      inversion_clear Hs' as [|? ? Hd Hs'']. cbn [length] in Hn.
      apply (decodeURIComponent_step _ [c; d] u s).
      * by apply decodeStep_percentEncode_4.
      * apply IH; [lia|done..].
    + destruct (encodeURIComponent s) as [u|] eqn:E; [|done]. intros [= <-].
      apply (decodeURIComponent_step _ [c] u s).
      * by apply decodeStep_percentEncode.
      * apply IH; [lia|done..].
Qed.

Lemma decode_encode s t :
  codeUnits s → encodeURIComponent s = Some t → decodeURIComponent t = Some s.
Proof. by apply (decode_encode_aux (length s)). Qed.

Lemma isUnreserved_encodedChar c : isUnreserved c = true → encodedChar c.
Proof.
  unfold isUnreserved. intros H.
  apply orb_true_iff in H as [H|H].
  - assert (48 ≤ c ≤ 57 ∨ 65 ≤ c ≤ 122)%N.
    { revert H. ncases; cbn [andb orb]; try done; lia. }
    unfold encodedChar, isLeadSurrogate, isTrailSurrogate, c_slash, c_colon.
    split_and!; ncases; cbn [andb]; try done; lia.
  - apply bool_decide_eq_true_1 in H.
    repeat (apply elem_of_cons in H as [->|H]; [by vm_compute|]).
    by apply elem_of_nil in H.
Qed.

Lemma percentOctet_encodedChar b : (b < 256)%N → Forall encodedChar (percentOctet b).
Proof.
  intros Hb.
  assert (b / 16 < 16)%N by (apply N.Div0.div_lt_upper_bound; lia).
  assert (b mod 16 < 16)%N by (apply N.mod_lt; lia).
  assert (encodedChar 37) by by vm_compute.
  unfold percentOctet.
  repeat (apply Forall_cons_2; [first [done|by apply isUnreserved_encodedChar, hexDigit_ascii]|]).
  apply Forall_nil_2.
Qed.

Lemma utf8Octets_bound cp : (cp < 1114112)%N → Forall (λ b, (b < 256)%N) (utf8Octets cp).
Proof.
  intros Hcp. unfold utf8Octets.
  destruct (N.ltb_spec cp 128); [repeat constructor; lia|].
  assert (cp mod 64 < 64)%N by (apply N.mod_lt; lia).
  assert ((cp / 64) mod 64 < 64)%N by (apply N.mod_lt; lia).
  assert ((cp / 4096) mod 64 < 64)%N by (apply N.mod_lt; lia).
  destruct (N.ltb_spec cp 2048).
  { assert (cp / 64 < 32)%N by (apply N.Div0.div_lt_upper_bound; lia).
    repeat constructor; lia. }
  destruct (N.ltb_spec cp 65536).
  { assert (cp / 4096 < 16)%N by (apply N.Div0.div_lt_upper_bound; lia).
    repeat constructor; lia. }
  assert (cp / 262144 < 5)%N by (apply N.Div0.div_lt_upper_bound; lia).
  repeat constructor; lia.
Qed.

Lemma percentEncode_encodedChar cp :
  (cp < 1114112)%N → Forall encodedChar (percentEncode cp) ∧ percentEncode cp ≠ [].
Proof.
  intros Hcp. pose proof (utf8Octets_bound cp Hcp) as Hb. unfold percentEncode. split.
  - induction Hb as [|b bs Hb Hbs IH]; [done|]. cbn [flat_map].
    apply Forall_app. split; [by apply percentOctet_encodedChar|done].
  - unfold utf8Octets.
    destruct (cp <? 128)%N; [done|]. destruct (cp <? 2048)%N; [done|].
    by destruct (cp <? 65536)%N.
Qed.

Lemma encodeURIComponent_encodedChar_aux n s t :
  length s ≤ n → codeUnits s → encodeURIComponent s = Some t →
  Forall encodedChar t ∧ (s ≠ [] → t ≠ []).
Proof.
  revert s t. induction n as [|n IH]; intros s t Hn Hs.
  { destruct s; [by intros [= <-]|cbn in Hn; lia]. }
  destruct s as [|c s]; [by intros [= <-]|].
  inversion_clear Hs as [|? ? Hc Hs']. cbn [length] in Hn. cbn [encodeURIComponent].
  destruct (isUnreserved c) eqn:Eu.
  - destruct (encodeURIComponent s) as [u|] eqn:E; [|done]. intros [= <-].
    destruct (IH s u ltac:(lia) Hs' E) as [Hu _].
    split; [|done]. constructor; [by apply isUnreserved_encodedChar|done].
  - destruct (isTrailSurrogate c) eqn:Et; [done|].
    destruct (isLeadSurrogate c) eqn:El.
    + destruct s as [|d s]; [done|]. destruct (isTrailSurrogate d) eqn:Ed; [|done].
      destruct (encodeURIComponent s) as [u|] eqn:E; [|done]. intros [= <-].
      inversion_clear Hs' as [|? ? Hd Hs'']. cbn [length] in Hn.
      destruct (IH s u ltac:(lia) Hs'' E) as [Hu _].
      assert (Hcp : ((c - 55296) * 1024 + (d - 56320) + 65536 < 1114112)%N).
      { unfold isLeadSurrogate in El. unfold isTrailSurrogate in Ed.
        apply andb_true_iff in El as [?%N.leb_le ?%N.leb_le].
        apply andb_true_iff in Ed as [?%N.leb_le ?%N.leb_le]. lia. }
      destruct (percentEncode_encodedChar _ Hcp) as [Hp Hpne].
      split; [by apply Forall_app|]. intros _ Happ.
      by apply app_eq_nil in Happ as [? _].
    + destruct (encodeURIComponent s) as [u|] eqn:E; [|done]. intros [= <-].
      destruct (IH s u ltac:(lia) Hs' E) as [Hu _].
      destruct (percentEncode_encodedChar c ltac:(lia)) as [Hp Hpne].
      split; [by apply Forall_app|]. intros _ Happ.
      by apply app_eq_nil in Happ as [? _].
Qed.

Lemma encodeURIComponent_encodedChar s t :
  codeUnits s → encodeURIComponent s = Some t →
  Forall encodedChar t ∧ (s ≠ [] → t ≠ []).
Proof. by apply (encodeURIComponent_encodedChar_aux (length s)). Qed.

Lemma encodedChar_codeUnits t : Forall encodedChar t → codeUnits t.
Proof. intros H. eapply Forall_impl; [done|]. intros c (? & _). cbn beta. lia. Qed.

(** A text made of such code units can be encoded. *)
Lemma encodeURIComponent_total t :
  Forall encodedChar t → is_Some (encodeURIComponent t).
Proof.
  induction 1 as [|c t (Hc & Hl & Ht & _) _ [u IH]]; [by eexists|].
  cbn [encodeURIComponent]. rewrite IH, Ht, Hl. cbn [mbind option_bind].
  by destruct (isUnreserved c).
Qed.

(** ** The key segment of a path *)

Lemma splitOn_nonempty sep s : splitOn sep s ≠ [].
Proof.
  destruct s as [|c s]; [done|]. cbn [splitOn].
  destruct (c =? sep)%N; [done|]. by destruct (splitOn sep s).
Qed.

Lemma splitOn_free sep seg : sep ∉ seg → splitOn sep seg = [seg].
Proof.
  induction seg as [|c seg IH]; [done|]. intros H.
  apply not_elem_of_cons in H as [Hc Hseg]. cbn [splitOn].
  destruct (N.eqb_spec c sep) as [->|_]; [done|]. by rewrite IH.
Qed.

Lemma splitOn_app sep pre seg :
  sep ∉ seg → splitOn sep (pre ++ sep :: seg) = splitOn sep pre ++ [seg].
Proof.
  intros H. induction pre as [|c pre IH]; cbn [app splitOn].
  - by rewrite N.eqb_refl, splitOn_free.
  - destruct (c =? sep)%N; [by rewrite IH|]. rewrite IH.
    pose proof (splitOn_nonempty sep pre). by destruct (splitOn sep pre).
Qed.

Lemma rawSegmentOf_last pre seg :
  c_slash ∉ seg → seg ≠ [] → rawSegmentOf (pre ++ c_slash :: seg) = Some seg.
Proof.
  intros H Hne. unfold rawSegmentOf. rewrite splitOn_app, rev_unit by done.
  by destruct seg.
Qed.

Lemma rawSegmentOf_trailing pre seg :
  c_slash ∉ seg → seg ≠ [] → rawSegmentOf (pre ++ c_slash :: seg ++ [c_slash]) = Some seg.
Proof.
  intros H Hne. unfold rawSegmentOf.
  replace (pre ++ c_slash :: seg ++ [c_slash]) with ((pre ++ c_slash :: seg) ++ c_slash :: [])
    by (by rewrite <- app_assoc).
  rewrite splitOn_app by apply not_elem_of_nil. rewrite splitOn_app by done.
  rewrite !rev_unit. cbn [isEmpty negb]. by destruct seg.
Qed.

Lemma rawSegmentOf_two_slashes pre : rawSegmentOf (pre ++ [c_slash; c_slash]) = None.
Proof.
  unfold rawSegmentOf.
  replace (pre ++ [c_slash; c_slash]) with ((pre ++ c_slash :: []) ++ c_slash :: [])
    by (by rewrite <- app_assoc).
  rewrite !splitOn_app by apply not_elem_of_nil. by rewrite !rev_unit.
Qed.

Lemma rawSegmentOf_no_slash seg :
  c_slash ∉ seg → rawSegmentOf seg = (if isEmpty seg then None else Some seg).
Proof. intros H. unfold rawSegmentOf. rewrite splitOn_free by done. by destruct seg. Qed.

(** ** The path of a key at the endpoint *)

Lemma encodeURIComponent_inj s s' t :
  codeUnits s → codeUnits s' →
  encodeURIComponent s = Some t → encodeURIComponent s' = Some t → s = s'.
Proof.
  intros Hs Hs' E E'. apply decode_encode in E; [|done]. apply decode_encode in E'; [|done].
  congruence.
Qed.

(** The path of a key, taken apart: the key encoded once and twice, and
    what the handler makes of the segment. *)
Lemma encodeCacheKey_path key enc :
  codeUnits key → key ≠ [] → encodeCacheKey key = Some enc →
  ∃ once thrice,
    encodeURIComponent key = Some once ∧ encodeURIComponent once = Some enc
    ∧ encodeURIComponent enc = Some thrice
    ∧ codeUnits once ∧ codeUnits enc
    ∧ Forall encodedChar enc ∧ enc ≠ []
    ∧ rawSegmentOf (CACHE_ENDPOINT_BASE ++ [c_slash] ++ enc) = Some enc.
Proof.
  intros Hk Hne E. unfold encodeCacheKey in E.
  destruct (encodeURIComponent key) as [once|] eqn:E1; [|done]. cbn [mbind option_bind] in E.
  destruct (encodeURIComponent_encodedChar key once Hk E1) as [H1 Hne1].
  pose proof (encodedChar_codeUnits once H1) as Hc1.
  destruct (encodeURIComponent_encodedChar once enc Hc1 E) as [H2 Hne2].
  destruct (encodeURIComponent_total enc H2) as [thrice E3].
  exists once, thrice. split_and!; try done.
  - by apply encodedChar_codeUnits.
  - by apply Hne2, Hne1.
  - apply rawSegmentOf_last; [|by apply Hne2, Hne1].
    intros Hin. apply (proj1 (Forall_forall _ _) H2) in Hin. by destruct Hin as (_ & _ & _ & ? & _).
Qed.

Lemma namespaced_inj (ns ns' r r' : jsstring) :
  c_colon ∉ ns → c_colon ∉ ns' →
  ns ++ s_colons ++ r = ns' ++ s_colons ++ r' → ns = ns' ∧ r = r'.
Proof.
  revert ns'. induction ns as [|c ns IH]; intros ns' H H' E.
  - destruct ns' as [|c' ns'].
    + split; [done|]. by injection E.
    + injection E as <- _. apply not_elem_of_cons in H' as [? _]. done.
  - apply not_elem_of_cons in H as [Hc H]. destruct ns' as [|c' ns'].
    + injection E as -> _. done.
    + apply not_elem_of_cons in H' as [Hc' H']. injection E as <- E.
      destruct (IH ns' H H' E) as [-> ->]. done.
Qed.

Lemma buildCachePath_some key ns :
  ns ≠ [] →
  buildCachePath key (Some ns)
  = (enc ← encodeCacheKey (ns ++ s_colons ++ key);
     Some (CACHE_ENDPOINT_BASE ++ [c_slash] ++ enc)).
Proof. intros H. unfold buildCachePath. by destruct ns. Qed.

(** The handler reads the path through its key segment only. *)
Lemma handler_pathname JSON_parse cache req req' :
  rq_method req = rq_method req' → rq_origin req = rq_origin req' →
  rq_contentType req = rq_contentType req' → rq_body req = rq_body req' →
  rawSegmentOf (rq_pathname req) = rawSegmentOf (rq_pathname req') →
  handler JSON_parse cache req = handler JSON_parse cache req'.
Proof.
  intros Hm Ho Hc Hb Hp. unfold handler, getCacheKey, postedHtml.
  by rewrite Hm, Ho, Hc, Hb, Hp.
Qed.

(** ** The cache read at the mount *)

Lemma primeIframeFromCache_start_toParent cfg st msgs :
  primeIframeFromCache_start cfg (set_toParent msgs st)
  = (set_toParent msgs (primeIframeFromCache_start cfg st).1,
     (primeIframeFromCache_start cfg st).2).
Proof.
  unfold primeIframeFromCache_start, getCachedHtml, fetchCachedHtmlFromApi_call.
  destruct (resourceUrl cfg) as [r|]; [|done].
  destruct (namespacedKey cfg) as [key|]; [|done].
  destruct (noCacheParam cfg || includes s_cache_buster r); [done|].
  cbn [htmlCache fetchAvailable set_toParent].
  destruct (htmlCache st !! key) as [[|c h]|]; cbn [isEmpty negb]; try done;
    destruct (fetchAvailable st); cbn [negb]; try done;
    by destruct (buildCachePath r (Some (cacheNamespace cfg))).
Qed.

(** ** The calls of a session and its sandbox attribute *)

Lemma buildCachePath_cacheCall cfg r path :
  buildCachePath r (Some (cacheNamespace cfg)) = Some path →
  cacheCall (getCall path) ∧ ∀ html, cacheCall (postCall path html).
Proof.
  rewrite buildCachePath_namespaced. intros H.
  destruct (encodeCacheKey _) as [enc|] eqn:E; [|done]. injection H as <-.
  split; [|intros html]; exists (cacheNamespace cfg ++ s_colons ++ r), enc; eauto.
Qed.

Lemma fetchedInv_post st st' call :
  fetchedInv st → fetchAvailable st = true → fetchAvailable st' = true →
  cacheCall call → fc_method call = s_POST →
  fetched st' = fetched st ++ [call] → fetchedInv st'.
Proof.
  intros (H1 & H2 & H3) Hf Hf' Hc Hm E. unfold fetchedInv. rewrite E. split_and!.
  - apply Forall_app. by split; [|constructor].
  - destruct (fetched st) as [|c l]; [done|]. cbn [tail app] in *.
    apply Forall_app. by split; [|constructor].
  - by rewrite Hf'.
Qed.

Lemma fetchedInv_same st st' :
  fetchedInv st → fetchAvailable st' = fetchAvailable st → fetched st' = fetched st →
  fetchedInv st'.
Proof. intros H Hf E. unfold fetchedInv. by rewrite Hf, E. Qed.

Lemma writeThrough_calls cfg o html st :
  let st' := writeThrough cfg o html st in
  fetchAvailable st' = fetchAvailable st
  ∧ (fetched st' = fetched st
     ∨ (fetchAvailable st = true
        ∧ ∃ call, cacheCall call ∧ fc_method call = s_POST
                  ∧ fetched st' = fetched st ++ [call])).
Proof.
  unfold writeThrough. destruct o as [r|]; [|by auto]. destruct (isEmpty r); [by auto|].
  unfold persistCachedHtmlToApi, setCachedHtml. cbn [fetchAvailable set_htmlCache].
  destruct (fetchAvailable st) eqn:Hf; cbn [negb]; [|cbn; by auto].
  destruct (buildCachePath r (Some (cacheNamespace cfg))) as [path|] eqn:Hp; [|cbn; by auto].
  cbn. split; [done|]. right. split; [done|]. exists (postCall path html).
  by destruct (buildCachePath_cacheCall cfg r path Hp) as [_ ?].
Qed.

Lemma handleMessage_calls cfg source data st :
  let st' := stateOf (handleMessage cfg source data st) in
  sandboxSet st → fetchedInv st → sandboxSet st' ∧ fetchedInv st'.
Proof.
  intros st' Hs Hi. subst st'. destruct source; cbn [handleMessage].
  - destruct (hasMethod data m_client_ready); cbn [stateOf]; [|done].
    destruct (flushPendingMessages_fields (clearFlushTimeout st))
      as (_ & _ & Hsb & _ & Hfe & _).
    split.
    + unfold sandboxSet. rewrite Hsb. unfold clearFlushTimeout. by destruct (flushTimeout st).
    + assert (Hfa : ∀ s, fetchAvailable (flushPendingMessages s) = fetchAvailable s).
      { intros s. unfold flushPendingMessages. destruct (attached s); cbn [negb]; [|done].
        by rewrite flushLoop_spec. }
      apply (fetchedInv_same (clearFlushTimeout st)); [|by rewrite Hfa|done].
      unfold clearFlushTimeout. by destruct (flushTimeout st).
  - destruct (hasMethod data m_sandbox_resource_ready).
    + unfold handleResourceReady.
      set (st0 := set_sandbox _ st).
      assert (Hs0 : sandboxSet st0).
      { unfold sandboxSet, st0, sandboxValueOf. cbn [sandbox set_sandbox].
        destruct (getProp (paramsOf data) s_sandbox) as [| | | |s|]; try by vm_compute.
        destruct (trim s) eqn:Et; cbn [isEmpty negb]; [by vm_compute|by rewrite Et]. }
      destruct (getProp (paramsOf data) s_html_key) as [| | | |html|]; try done.
      destruct (ensureCspMetaAny html _ true) as [safe|]; [|done]. cbn [stateOf].
      match goal with |- context [writeThrough cfg ?o safe ?s] =>
        destruct (writeThrough_queue cfg o safe s) as (_ & _ & _ & _ & _ & Hsb & _);
        destruct (writeThrough_calls cfg o safe s) as (Hfa & [Hfe|(Hf & call & Hc & Hm & Hfe)])
      end.
      * split; [unfold sandboxSet; by rewrite Hsb|]. by eapply fetchedInv_same.
      * split; [unfold sandboxSet; by rewrite Hsb|].
        eapply (fetchedInv_post st); [done|done| |done|done|done]. by rewrite Hfa.
    + cbn [stateOf]. unfold forwardToInner. by destruct (innerReady st && attached st).
  - done.
Qed.

Lemma afterPrime_calls cfg found st :
  sandboxSet st → fetchedInv st →
  sandboxSet (afterPrime cfg found st) ∧ fetchedInv (afterPrime cfg found st).
Proof.
  unfold afterPrime. destruct (resourceUrl cfg) as [r|]; [|done].
  by destruct (isEmpty r || found).
Qed.

Lemma step_calls cfg st ev :
  sandboxSet st → fetchedInv st →
  sandboxSet (step cfg st ev) ∧ fetchedInv (step cfg st ev).
Proof.
  intros Hs Hi. destruct ev as [source data| |id|o|]; cbn [step].
  - destruct (attached st); [by apply handleMessage_calls|done].
  - done.
  - destruct (onTimeout_fields id st) as (_ & _ & Hsb & _ & Hfe & _).
    split; [unfold sandboxSet; by rewrite Hsb|].
    apply (fetchedInv_same st); [done| |done].
    unfold onTimeout. destruct (bool_decide (id ∈ timers st)); [|done].
    unfold fallbackCallback. cbn [innerReady set_timers].
    destruct (innerReady st); cbn [negb]; [done|].
    unfold flushPendingMessages. cbn [attached set_timers]. destruct (attached st); cbn [negb]; [|done].
    by rewrite flushLoop_spec.
  - assert (H : sandboxSet (primeIframeFromCache_resume cfg o st).1
                ∧ fetchedInv (primeIframeFromCache_resume cfg o st).1).
    { unfold primeIframeFromCache_resume. destruct (namespacedKey cfg); [|done].
      destruct (fetchCachedHtmlFromApi_result o) as [h|]; [|done].
      by destruct (isEmpty h). }
    destruct (primeIframeFromCache_resume cfg o st) as [st' found].
    cbn [fst] in H. destruct H as [H1 H2]. by apply afterPrime_calls.
  - done.
Qed.

Lemma mount_calls isHttpUrl cfg st :
  sandboxSet st → fetched st = [] →
  sandboxSet (mount isHttpUrl cfg st) ∧ fetchedInv (mount isHttpUrl cfg st).
Proof.
  intros Hs Hf.
  assert (Hi : ∀ msgs, fetchedInv (set_toParent msgs st)).
  { intros msgs. unfold fetchedInv. cbn. rewrite Hf. by split_and!. }
  unfold mount. set (st0 := set_toParent _ st).
  assert (Hs0 : sandboxSet st0) by done.
  assert (Hi0 : fetchedInv st0) by apply Hi.
  assert (H : sandboxSet (primeIframeFromCache_start cfg st0).1
              ∧ fetchedInv (primeIframeFromCache_start cfg st0).1).
  { unfold primeIframeFromCache_start.
    destruct (resourceUrl cfg) as [r|]; [|by split].
    destruct (namespacedKey cfg) as [key|]; [|by split].
    destruct (noCacheParam cfg || includes s_cache_buster r); [by split|].
    assert (Hcall : sandboxSet
                      (match fetchCachedHtmlFromApi_call r (Some (cacheNamespace cfg)) st0 with
                       | Some call => (set_fetched (fetched st0 ++ [call]) st0, None)
                       | None => (st0, Some false)
                       end).1
                    ∧ fetchedInv
                        (match fetchCachedHtmlFromApi_call r (Some (cacheNamespace cfg)) st0 with
                         | Some call => (set_fetched (fetched st0 ++ [call]) st0, None)
                         | None => (st0, Some false)
                         end).1).
    { unfold fetchCachedHtmlFromApi_call. cbn [fetchAvailable st0 set_toParent].
      destruct (fetchAvailable st) eqn:Hfa; cbn [negb]; [|by split].
      destruct (buildCachePath r (Some (cacheNamespace cfg))) as [path|] eqn:Hp; [|by split].
      cbn. split; [done|]. unfold fetchedInv. cbn. rewrite Hf, Hfa. cbn.
      split_and!; [|done..]. constructor; [|done].
      by destruct (buildCachePath_cacheCall cfg r path Hp) as [? _]. }
    destruct (getCachedHtml key st0) as [[|c h]|]; cbn [isEmpty negb]; try done. }
  destruct (primeIframeFromCache_start cfg st0) as [st1 [found|]]; cbn [fst] in H;
    destruct H as [H1 H2];
    destruct (resourceUrl cfg) as [r|] eqn:Hr;
    try destruct (negb (isEmpty r) && isHttpUrl r);
    try (by apply afterPrime_calls); try done; by split.
Qed.

(** ** Where the search finds the tag *)

Lemma nomatch_nil (m : matcher) z : nomatch m [] z.
Proof. intros p1 p2 E Hne. symmetry in E. apply app_eq_nil in E as [_ ->]. done. Qed.

Lemma nomatch_cons (m : matcher) c pre z :
  m (c :: pre ++ z) = None → nomatch m pre z → nomatch m (c :: pre) z.
Proof.
  intros Hc Hpre p1 p2 E Hne. destruct p1 as [|c' p1]; cbn [app] in E.
  - by subst p2.
  - injection E as -> E. by eapply Hpre.
Qed.

Lemma nomatch_app (m : matcher) pre1 pre2 z :
  nomatch m pre1 (pre2 ++ z) → nomatch m pre2 z → nomatch m (pre1 ++ pre2) z.
Proof.
  revert pre2 z. induction pre1 as [|c pre1 IH]; intros pre2 z H1 H2; [done|].
  cbn [app]. apply nomatch_cons.
  - rewrite <- app_assoc. apply (H1 [] (c :: pre1)); done.
  - apply IH; [|done]. intros p1 p2 E Hne. apply (H1 (c :: p1) p2); [by rewrite E|done].
Qed.

Lemma re_search_intro (m : matcher) pre t caps rest :
  nomatch m pre t → m t = Some (caps, rest) →
  re_search m (pre ++ t) = Some (pre, caps, rest).
Proof.
  induction pre as [|c pre IH]; intros Hn Hm.
  - cbn [app]. destruct t; cbn [re_search]; by rewrite Hm.
  - pose proof (Hn [] (c :: pre) eq_refl ltac:(done)) as Hc. cbn [app] in Hc.
    cbn [app re_search]. rewrite Hc.
    rewrite IH; [done| |done]. intros p1 p2 E Hne. by apply (Hn (c :: p1) p2); [rewrite E|].
Qed.

Lemma re_search_nomatch (m : matcher) s pre caps rest :
  re_search m s = Some (pre, caps, rest) →
  ∃ t, s = pre ++ t ∧ m t = Some (caps, rest) ∧ nomatch m pre t.
Proof.
  intros E. destruct (re_search_sound _ _ _ _ _ E) as (t & -> & Hm).
  exists t. split_and!; [done..|]. intros p1 p2 -> Hne.
  eapply (re_search_leftmost _ _ _ _ _ E p1 p2); [|done..]. by rewrite <- app_assoc.
Qed.

Lemma re_test_false_nomatch (m : matcher) pre z :
  re_test m (pre ++ z) = false → nomatch m pre z.
Proof.
  intros E p1 p2 -> _. rewrite <- app_assoc in E. by apply re_test_false_suffix in E.
Qed.

(** A position before a [>] where the regex fails still fails when the
    text up to that [>] changes case only, whatever comes after. *)
Lemma nomatch_transfer a a0 y z :
  Forall2 cieq a a0 → nomatch cspRegex (a0 ++ [c_gt]) y →
  nomatch cspRegex (a ++ [c_gt]) z.
Proof.
  intros Hsim H0 p1 p2 E Hne.
  destruct (decide (p2 = [c_gt])) as [->|Hp2].
  { by apply cspRegex_first. }
  assert (∃ q, p2 = q ++ [c_gt] ∧ a = p1 ++ q) as (q & -> & ->).
  { destruct (exists_last (l:=p2)) as (q & c & ->); [done|]. rewrite app_assoc in E.
    apply app_inj_tail in E as [-> <-]. by exists q. }
  apply Forall2_app_inv_l in Hsim as (q1 & q2 & _ & Hq & ->).
  pose proof (sim_app q q2 z y Hq) as Hs.
  pose proof (cspRegex_sim _ _ Hs) as Ha.
  rewrite <- app_assoc. cbn [app].
  destruct (cspRegex (q ++ c_gt :: z)) as [v|] eqn:Ev; [|done].
  destruct (proj1 Ha ltac:(by eexists)) as [v' Ev'].
  assert (H : cspRegex ((q2 ++ [c_gt]) ++ y) = None).
  { apply (H0 q1); [by rewrite app_assoc|by destruct q2]. }
  rewrite <- app_assoc in H. cbn [app] in H. congruence.
Qed.

Lemma lit_ci_app p s r z : lit_ci p s = Some r → lit_ci p (s ++ z) = Some (r ++ z).
Proof.
  revert s. induction p as [|a p IH]; intros s; cbn [lit_ci].
  - by intros [= ->].
  - destruct s as [|c s]; [done|]. cbn [app]. destruct (ci_eqb a c); [apply IH|done].
Qed.

(** A match that starts before a tag starts with its [<meta] before it. *)
Lemma lit_ci_meta_before p2 t r :
  p2 ≠ [] → lit_ci s_lt_meta (p2 ++ c_lt :: t) = Some r →
  ∃ p', lit_ci s_lt_meta p2 = Some p'.
Proof.
  intros Hne. unfold s_lt_meta.
  destruct p2 as [|c1 [|c2 [|c3 [|c4 [|c5 p2]]]]]; [done|..]; cbn [app lit_ci];
    repeat (match goal with |- context [ci_eqb ?a ?c] =>
              destruct (ci_eqb a c) eqn:? end; try done);
    try (by eexists);
    match goal with H : ci_eqb _ c_lt = true |- _ => by vm_compute in H end.
Qed.

(** A match of the regex is still one with a [<meta] and text without [>]
    put before it: the run after [<meta] takes the text and the old
    [<meta] in. *)
Lemma cspRegex_extend p p' o :
  lit_ci s_lt_meta p = Some p' → c_gt ∉ p' →
  is_Some (cspRegex o) → is_Some (cspRegex (p ++ o)).
Proof.
  intros Hp Hgt [v Ho]. unfold cspRegex in *.
  rewrite (lit_ci_app _ _ _ o Hp). cbn [mbind option_bind].
  destruct (lit_ci s_lt_meta o) as [s1|] eqn:E1; [|done]. cbn [mbind option_bind] in Ho.
  destruct (lit_ci_gtfree s_lt_meta o s1) as (o5 & -> & Ho5); [|done|].
  { unfold s_lt_meta. repeat constructor; by vm_compute. }
  unfold plus_not in Ho. destruct s1 as [|c s1]; [done|].
  destruct (N.eqb_spec c c_gt) as [->|Hc]; [done|].
  apply star_not_sound in Ho as (m & r & -> & Hm & Hk).
  assert (Hrun : c_gt ∉ p' ++ o5 ++ c :: m).
  { rewrite !elem_of_app, elem_of_cons. intros [?|[?|[?|?]]]; done. }
  replace (p' ++ o5 ++ c :: m ++ r) with ((p' ++ o5 ++ c :: m) ++ r)
    by (by rewrite <- !app_assoc).
  destruct (p' ++ o5 ++ c :: m) as [|x run] eqn:Erun.
  { by destruct p', o5. }
  apply not_elem_of_cons in Hrun as [Hx Hrun]. cbn [app plus_not].
  destruct (N.eqb_spec x c_gt) as [->|_]; [done|].
  match goal with |- is_Some (star_not _ ?k _) =>
    apply (star_not_complete c_gt k run r); [done|] end.
  cbv beta. cbv beta in Hk. by rewrite Hk.
Qed.

Lemma sim_same u z z' : sim (u ++ c_gt :: z) (u ++ c_gt :: z').
Proof. apply sim_app. by apply Forall_Forall2_diag, Forall_true. Qed.

(** In the replacing branch: no match starts before the new tag. *)
Lemma nomatch_replaced pre old post csp :
  nomatch cspRegex pre (old ++ c_gt :: post) →
  is_Some (cspRegex (old ++ c_gt :: post)) →
  nomatch cspRegex pre (metaTag csp ++ post).
Proof.
  intros Hn Ho p1 p2 E Hne.
  destruct (cspRegex (p2 ++ metaTag csp ++ post)) as [v|] eqn:Ev; [|done]. exfalso.
  pose proof (Hn p1 p2 E Hne) as Horig.
  destruct (decide (c_gt ∈ p2)) as [Hin|Hnin].
  - destruct (first_gt_split _ Hin) as (u & w & -> & Hu).
    pose proof (cspRegex_sim _ _ (sim_same u (w ++ metaTag csp ++ post)
                                    (w ++ old ++ c_gt :: post))) as Ha.
    rewrite <- app_assoc in Ev, Horig. cbn [app] in Ev, Horig.
    destruct (proj1 Ha ltac:(by eexists)) as [v' Ev']. congruence.
  - destruct (metaTag_tail csp) as (t & Et & _).
    assert (∃ r, lit_ci s_lt_meta (p2 ++ c_lt :: t ++ post) = Some r) as [r Hr].
    { unfold cspRegex in Ev. rewrite Et in Ev. cbn [app] in Ev.
      destruct (lit_ci s_lt_meta (p2 ++ c_lt :: t ++ post)); [by eexists|done]. }
    destruct (lit_ci_meta_before p2 _ r Hne Hr) as [p' Hp'].
    destruct (lit_ci_suffix _ _ _ Hp') as (m & -> & _).
    assert (c_gt ∉ p') by (intros ?; apply Hnin; rewrite elem_of_app; by right).
    destruct (cspRegex_extend (m ++ p') p' (old ++ c_gt :: post) Hp' ltac:(done) Ho)
      as [v' Ev'].
    congruence.
Qed.

Lemma ensureCspMeta_replace html csp pre caps rest :
  csp ≠ [] → c_dollar ∉ csp →
  re_search cspRegex html = Some (pre, caps, rest) →
  ensureCspMeta html csp true = pre ++ metaTag csp ++ rest.
Proof.
  intros Hc Hd E. pose proof (re_search_test _ _ _ _ _ E) as Ht.
  assert (html ≠ []) by (intros ->; by vm_compute in E).
  unfold ensureCspMeta. rewrite Ht. destruct html; [done|]. destruct csp; [done|].
  cbn [isEmpty orb andb negb]. by rewrite (re_replace_plain _ _ _ _ _ _ E (metaTag_plain _ Hd)).
Qed.

Lemma open_tag_unique (name pre tag tag' attrs attrs' rest : jsstring) :
  Forall2 cieq name tag → Forall2 cieq name tag' →
  pre ++ tag ++ attrs ++ c_gt :: rest = pre ++ tag' ++ attrs' ++ c_gt :: rest →
  attrs = attrs'.
Proof.
  intros H H' E. apply app_inv_head in E.
  apply app_inj_1 in E as [_ E].
  - by apply (app_inv_tail (c_gt :: rest)).
  - by rewrite <- (Forall2_length _ _ _ H), <- (Forall2_length _ _ _ H').
Qed.

Lemma Forall2_cieq_app_same (a : jsstring) x y b :
  Forall2 cieq x y → Forall2 cieq ((a ++ x) ++ b) ((a ++ y) ++ b).
Proof.
  intros H. repeat apply Forall2_app; [|done|]; by apply Forall_Forall2_diag, Forall_true.
Qed.

(** Where the tag is after the first pass: the text before it, in which no
    match starts, and the text after it, both the same for every policy. *)
Lemma ensureCspMeta_tag_position html overwrite :
  html ≠ [] → overwrite = true ∨ re_test cspRegex html = false →
  ∃ P Q, ∀ csp, csp ≠ [] → c_dollar ∉ csp →
    ensureCspMeta html csp overwrite = P ++ metaTag csp ++ Q
    ∧ nomatch cspRegex P (metaTag csp ++ Q).
Proof.
  intros Hh How. destruct (re_test cspRegex html) eqn:Ht.
  - destruct How as [->|?]; [|done].
    destruct (re_test_true_search _ _ Ht) as (pre & caps & post & E).
    destruct (re_search_nomatch _ _ _ _ _ E) as (t & -> & Hm & Hn).
    destruct (cspRegex_rest _ _ _ Hm) as (-> & old & -> & Hold).
    exists pre, post. intros csp Hc Hd. split.
    + by apply (ensureCspMeta_replace _ _ _ _ _ Hc Hd E).
    + apply (nomatch_replaced pre old post csp Hn). by eexists.
  - clear How.
    assert (Hfirst : ∀ c l z, c ≠ c_lt → nomatch cspRegex l z → nomatch cspRegex (c :: l) z).
    { intros c l z Hc Hl. apply nomatch_cons; [by apply cspRegex_first|done]. }
    assert (Hsecond : ∀ d l z, ci_eqb 109 d = false → nomatch cspRegex (d :: l) z →
                               nomatch cspRegex (c_lt :: d :: l) z).
    { intros d l z Hd Hl. apply nomatch_cons; [by apply cspRegex_second|done]. }
    destruct (re_test headRegex html) eqn:Eh; [|destruct (re_test htmlRegex html) eqn:Et].
    + apply re_test_true_search in Eh as (pre & caps & rest & Eh).
      destruct (injectIntoHead_head html [] _ _ _ ltac:(apply not_elem_of_nil) Eh)
        as (tag & attrs & Ehtml & Htag & Hattrs & _).
      exists ((((pre ++ (c_lt :: s_head)) ++ attrs) ++ [c_gt]) ++ [c_lf]), (c_lf :: rest).
      intros csp Hc Hd. rewrite (ensureCspMeta_inject html csp overwrite Hh Hc Ht).
      destruct (injectIntoHead_head html csp _ _ _ Hd Eh)
        as (tag' & attrs' & Ehtml' & Htag' & _ & ->).
      rewrite Ehtml in Ehtml'.
      rewrite <- (open_tag_unique _ _ _ _ _ _ _ Htag Htag' Ehtml'). split; [list_assoc|].
      apply nomatch_app; [|by apply Hfirst, nomatch_nil].
      apply (nomatch_transfer _ ((pre ++ tag) ++ attrs) rest);
        [by apply Forall2_cieq_app_same|].
      apply re_test_false_nomatch. rewrite <- Ht, Ehtml. f_equal. list_assoc.
    + apply re_test_true_search in Et as (pre & caps & rest & Et).
      destruct (injectIntoHead_html html [] _ _ _ ltac:(apply not_elem_of_nil) Eh Et)
        as (tag & attrs & Ehtml & Htag & Hattrs & _).
      exists ((((pre ++ (c_lt :: s_html)) ++ attrs) ++ [c_gt]) ++ c_lf :: s_head_open ++ [c_lf]),
        (c_lf :: s_head_close ++ rest).
      intros csp Hc Hd. rewrite (ensureCspMeta_inject html csp overwrite Hh Hc Ht).
      destruct (injectIntoHead_html html csp _ _ _ Hd Eh Et)
        as (tag' & attrs' & Ehtml' & Htag' & _ & ->).
      rewrite Ehtml in Ehtml'.
      rewrite <- (open_tag_unique _ _ _ _ _ _ _ Htag Htag' Ehtml'). split; [list_assoc|].
      apply nomatch_app.
      * apply (nomatch_transfer _ ((pre ++ tag) ++ attrs) rest);
          [by apply Forall2_cieq_app_same|].
        apply re_test_false_nomatch. rewrite <- Ht, Ehtml. f_equal. list_assoc.
      * unfold s_head_open. cbn [app].
        apply Hfirst; [done|]. apply Hsecond; [done|].
        repeat (apply Hfirst; [done|]). apply nomatch_nil.
    + exists (s_head_open ++ [c_lf]), (c_lf :: s_head_close ++ c_lf :: html).
      intros csp Hc Hd. rewrite (ensureCspMeta_inject html csp overwrite Hh Hc Ht).
      rewrite injectIntoHead_prepend by done. split; [list_assoc|].
      unfold s_head_open. cbn [app].
      apply Hsecond; [done|]. repeat (apply Hfirst; [done|]). apply nomatch_nil.
Qed.

(** ** The built-ins on concrete inputs *)

Example encodeURIComponent_key :
  encodeURIComponent (str "f1::ui://app/widget")
  = Some (str "f1%3A%3Aui%3A%2F%2Fapp%2Fwidget").
Proof. by vm_compute. Qed.

Example encodeCacheKey_key :
  encodeCacheKey (str "f1::ui://app/widget")
  = Some (str "f1%253A%253Aui%253A%252F%252Fapp%252Fwidget").
Proof. by vm_compute. Qed.

(* U+00E9, U+20AC, and U+1F600 as a surrogate pair *)
Example encodeURIComponent_utf8 :
  encodeURIComponent [233; 8364; 55357; 56832]%N
  = Some (str "%C3%A9%E2%82%AC%F0%9F%98%80").
Proof. by vm_compute. Qed.

Example encodeURIComponent_lone_surrogate :
  encodeURIComponent [97; 55357; 98]%N = None.
Proof. by vm_compute. Qed.

Example decodeURIComponent_key :
  decodeURIComponent (str "f1%253A%253Aui%253A%252F%252Fapp%252Fwidget")
  = Some (str "f1%3A%3Aui%3A%2F%2Fapp%2Fwidget").
Proof. by vm_compute. Qed.

Example decodeURIComponent_utf8 :
  decodeURIComponent (str "%c3%A9%E2%82%AC%F0%9F%98%80")
  = Some [233; 8364; 55357; 56832]%N.
Proof. by vm_compute. Qed.

Example decodeURIComponent_malformed :
  decodeURIComponent (str "%") = None
  ∧ decodeURIComponent (str "%E0%A4%A") = None
  ∧ decodeURIComponent (str "%C0%80") = None
  ∧ decodeURIComponent (str "%ED%A0%80") = None.
Proof. by vm_compute. Qed.

Example trim_blank : trim [32; 9; 160; 10]%N = [] ∧ trim (str "  allow-scripts ") = str "allow-scripts".
Proof. by vm_compute. Qed.

Example rawSegmentOf_paths :
  rawSegmentOf (str "/api/cache/abc") = Some (str "abc")
  ∧ rawSegmentOf (str "/api/cache/abc/") = Some (str "abc")
  ∧ rawSegmentOf (str "/api/cache/") = Some (str "cache")
  ∧ rawSegmentOf (str "/") = None
  ∧ rawSegmentOf (str "/api/cache//") = None.
Proof. by vm_compute. Qed.

Example includes_marker :
  includes s_cache_buster (str "ui://my-app?cache_buster=17") = true
  ∧ includes s_cache_buster (str "ui://my-app?v=2") = false.
Proof. by vm_compute. Qed.

(** The injector on the documents of the three branches, and on a
    document that has a tag, with the overwrite flag off and on. *)
Example ensureCspMeta_head :
  ensureCspMeta (str "<html><HEAD lang=x><title>t</title></head></html>")
    (str "img-src 'self'") false
  = str "<html><head lang=x>" ++ [c_lf] ++ metaTag (str "img-src 'self'") ++ [c_lf]
      ++ str "<title>t</title></head></html>".
Proof. by vm_compute. Qed.

Example ensureCspMeta_html :
  ensureCspMeta (str "<html lang=en><body></body></html>") (str "img-src 'self'") false
  = str "<html lang=en>" ++ [c_lf] ++ str "<head>" ++ [c_lf]
      ++ metaTag (str "img-src 'self'") ++ [c_lf] ++ str "</head><body></body></html>".
Proof. by vm_compute. Qed.

Example ensureCspMeta_fragment :
  ensureCspMeta (str "<p>hi</p>") (str "img-src 'self'") true
  = str "<head>" ++ [c_lf] ++ metaTag (str "img-src 'self'") ++ [c_lf] ++ str "</head>"
      ++ [c_lf] ++ str "<p>hi</p>".
Proof. by vm_compute. Qed.

Example ensureCspMeta_present :
  let html := str "<head><meta charset=u><META  HTTP-EQUIV='content-security-policy' content=x></head>" in
  ensureCspMeta html (str "img-src 'self'") false = html
  ∧ ensureCspMeta html (str "img-src 'self'") true
    = str "<head><meta charset=u>" ++ metaTag (str "img-src 'self'") ++ str "</head>".
Proof. by vm_compute. Qed.

Example escapeHtmlAttr_chars :
  escapeHtmlAttr (str "a&b<c>" ++ [c_dq] ++ str "d'")
  = str "a&amp;b&lt;c&gt;&quot;d'".
Proof. by vm_compute. Qed.

(** A policy that is truthy and not a string makes the handler end on an
    exception, after the sandbox attribute was set and before anything
    else. *)
Example non_string_policy_raises :
  let cfg := {| flowId := Some (str "f1"); resourceUrl := Some (str "ui://app/widget");
                noCacheParam := false |} in
  let data :=
    VObj [ (s_method, VStr m_sandbox_resource_ready);
           (s_params, VObj [ (s_html_key, VStr (str "<p>hi</p>")); (s_csp, VNum 5) ]) ] in
  handleMessage cfg FromParent data (initialState ∅ true)
  = Thrown (initialState ∅ true).
Proof. by vm_compute. Qed.

(** * The properties *)

(** C9. For every HTML string and every non-empty CSP string, the injector
    is idempotent when it does not overwrite: a second pass over its own
    result changes nothing.  The reason is the second part: on a non-empty
    document the result of the first pass holds a tag that the CSP
    detection regex matches, so that the second pass takes the branch that
    returns its input. *)
Theorem ensureCspMeta_idempotent (html csp : jsstring) :
  csp ≠ [] →
  ensureCspMeta (ensureCspMeta html csp false) csp false = ensureCspMeta html csp false
  ∧ (html ≠ [] → re_test cspRegex (ensureCspMeta html csp false) = true).
Proof.
  intros Hc. split.
  - destruct html as [|h html]; [done|].
    apply ensureCspMeta_keep. by apply ensureCspMeta_has_csp.
  - intros Hh. by apply ensureCspMeta_has_csp.
Qed.

Lemma ensureCspMeta_idempotent_witness :
  let html := str "<html><head><title>t</title></head><body>x</body></html>" in
  let csp := str "default-src 'none'; img-src $1 $& <x>" in
  csp ≠ []
  ∧ ensureCspMeta (ensureCspMeta html csp false) csp false = ensureCspMeta html csp false
  ∧ (html ≠ [] → re_test cspRegex (ensureCspMeta html csp false) = true).
Proof.
  intros html csp. split; [done|].
  apply (ensureCspMeta_idempotent html csp). done.
Defined.

(** C10. An empty document or an empty policy is passed through: applied
    to the empty HTML string the injector returns the empty string, for
    every policy and both values of the overwrite flag, and with the empty
    policy it returns every HTML string unchanged. *)
Theorem ensureCspMeta_empty_passthrough :
  (∀ (csp : jsstring) (overwrite : bool), ensureCspMeta [] csp overwrite = [])
  ∧ (∀ (html : jsstring) (overwrite : bool), ensureCspMeta html [] overwrite = html).
Proof.
  split; [done|]. intros html overwrite. unfold ensureCspMeta.
  by destruct html.
Qed.

(** C3, as the code has it.  For every non-empty HTML string that holds no
    CSP meta tag and every non-empty policy without a [$], the injector,
    with the overwrite flag off and with it on, returns HTML that holds
    exactly one CSP meta tag, and that tag is the one whose content
    attribute is the policy with its ampersands, double quotes and angle
    brackets escaped. *)
Theorem ensureCspMeta_exactly_one_tag (html policy : jsstring) (overwrite : bool) :
  html ≠ [] → policy ≠ [] → c_dollar ∉ policy →
  cspTags html = [] →
  cspTags (ensureCspMeta html policy overwrite)
  = [metaTagOpen ++ flat_map escapeChar policy ++ metaTagClose].
Proof.
  intros Hh Hp Hd Hn. apply cspTags_nil_test in Hn.
  rewrite ensureCspMeta_inject by done. rewrite <- escapeHtmlAttr_flat_map.
  by apply cspTags_injectIntoHead.
Qed.

Lemma ensureCspMeta_exactly_one_tag_witness :
  let html := str "<!doctype html><HTML lang=en><body><meta charset=utf-8>x</body></HTML>" in
  let policy := str "default-src 'none'; img-src <a&b>" in
  cspTags html = []
  ∧ cspTags (ensureCspMeta html policy true)
    = [metaTagOpen ++ str "default-src 'none'; img-src &lt;a&amp;b&gt;" ++ metaTagClose].
Proof.
  intros html policy. split; [by vm_compute|].
  rewrite (ensureCspMeta_exactly_one_tag html policy true); [done|done|done| |by vm_compute].
  apply (bool_decide_eq_false_1 _). by vm_compute.
Defined.

(** C3 as stated fails on the empty document: it holds no CSP meta tag,
    and neither does what the injector returns for it. *)
Lemma exactly_one_tag_fails_on_empty_html :
  let html : jsstring := [] in
  let policy := str "default-src 'none'" in
  cspTags html = []
  ∧ cspTags (ensureCspMeta html policy false) = []
  ∧ cspTags (ensureCspMeta html policy true) = [].
Proof. by vm_compute. Qed.

(** C4, as the code has it.  Take a non-empty document and a non-empty
    policy without a [$].  When the document holds no CSP meta tag: if it
    has a [head] open tag, the new meta tag is put, between two line feeds,
    right after the first one, which is written back in lower case with
    its attributes; otherwise, if it has an [html] open tag, a [head]
    element wrapping the tag is put right after the first one; otherwise
    the [head] element is put, with a line feed, before the document.
    When the document holds a CSP meta tag and the overwrite flag is off,
    the document is returned unchanged. *)
Theorem ensureCspMeta_placement (html csp : jsstring) (overwrite : bool) :
  html ≠ [] → csp ≠ [] → c_dollar ∉ csp →
  (re_test cspRegex html = false →
     (re_test headRegex html = true →
        ∃ pre tag attrs post,
          html = pre ++ tag ++ attrs ++ c_gt :: post
          ∧ Forall2 cieq (c_lt :: s_head) tag ∧ (c_gt ∉ attrs)
          ∧ (∀ p1 p2, pre = p1 ++ p2 → p2 ≠ [] →
               headRegex (p2 ++ tag ++ attrs ++ c_gt :: post) = None)
          ∧ ensureCspMeta html csp overwrite
            = pre ++ (c_lt :: s_head) ++ attrs ++ [c_gt]
                ++ [c_lf] ++ metaTag csp ++ [c_lf] ++ post)
     ∧ (re_test headRegex html = false → re_test htmlRegex html = true →
        ∃ pre tag attrs post,
          html = pre ++ tag ++ attrs ++ c_gt :: post
          ∧ Forall2 cieq (c_lt :: s_html) tag ∧ (c_gt ∉ attrs)
          ∧ (∀ p1 p2, pre = p1 ++ p2 → p2 ≠ [] →
               htmlRegex (p2 ++ tag ++ attrs ++ c_gt :: post) = None)
          ∧ ensureCspMeta html csp overwrite
            = pre ++ (c_lt :: s_html) ++ attrs ++ [c_gt]
                ++ [c_lf] ++ s_head_open ++ [c_lf] ++ metaTag csp ++ [c_lf]
                ++ s_head_close ++ post)
     ∧ (re_test headRegex html = false → re_test htmlRegex html = false →
        ensureCspMeta html csp overwrite
        = s_head_open ++ [c_lf] ++ metaTag csp ++ [c_lf] ++ s_head_close
            ++ [c_lf] ++ html))
  ∧ (re_test cspRegex html = true → ensureCspMeta html csp false = html).
Proof.
  intros Hh Hc Hd. split; [|apply ensureCspMeta_keep].
  intros Hn. rewrite ensureCspMeta_inject by done. split_and!.
  - intros (pre & caps & post & E)%re_test_true_search.
    destruct (injectIntoHead_head html csp _ _ _ Hd E) as (tag & attrs & Eq & Htag & Ha & ->).
    exists pre, tag, attrs, post. split_and!; [done..| |list_assoc].
    intros p1 p2 -> Hp2. rewrite Eq in E.
    eapply (re_search_leftmost _ _ _ _ _ E p1 p2); [|done..]. list_assoc.
  - intros Eh (pre & caps & post & E)%re_test_true_search.
    destruct (injectIntoHead_html html csp _ _ _ Hd Eh E) as (tag & attrs & Eq & Htag & Ha & ->).
    exists pre, tag, attrs, post. split_and!; [done..| |list_assoc].
    intros p1 p2 -> Hp2. rewrite Eq in E.
    eapply (re_search_leftmost _ _ _ _ _ E p1 p2); [|done..]. list_assoc.
  - intros Eh Et. rewrite injectIntoHead_prepend by done. list_assoc.
Qed.

Lemma ensureCspMeta_placement_witness :
  let html := str "<HTML><Head lang=en><title>t</title></head><body>x</body></HTML>" in
  let csp := str "default-src 'none'; img-src <a&b>" in
  html ≠ [] ∧ csp ≠ []
  ∧ ensureCspMeta html csp true
    = str "<HTML><head lang=en>" ++ [c_lf] ++ metaTag csp ++ [c_lf]
        ++ str "<title>t</title></head><body>x</body></HTML>".
Proof.
  intros html csp. split_and!; [done..|].
  assert (Hd : c_dollar ∉ csp) by (apply (bool_decide_eq_false_1 _); by vm_compute).
  destruct (ensureCspMeta_placement html csp true ltac:(done) ltac:(done) Hd) as [H _].
  destruct H as [H _]; [by vm_compute|].
  destruct H as (pre & tag & attrs & post & _ & _ & _ & _ & H); [by vm_compute|].
  by vm_compute.
Defined.

(** C4 as stated fails on the empty document: it holds no CSP meta tag, no
    [head] and no [html] open tag, and the injector returns it as it is
    instead of a [head] element with the tag. *)
Lemma placement_fails_on_empty_html :
  let html : jsstring := [] in
  let csp := str "default-src 'none'" in
  re_test cspRegex html = false
  ∧ re_test headRegex html = false
  ∧ re_test htmlRegex html = false
  ∧ ensureCspMeta html csp false = []
  ∧ s_head_open ++ [c_lf] ++ metaTag csp ++ [c_lf] ++ s_head_close ++ [c_lf] ++ html ≠ [].
Proof. by vm_compute. Qed.

(** For the record: a [$] pattern in the policy is expanded by the
    replacement when the document has a [head] or an [html] tag, so that
    the content attribute is not the escaped policy ([$$] comes out as one
    [$]). *)
Example dollar_pattern_expanded :
  ensureCspMeta (str "<head></head>") (str "a$$b") false
  = str "<head>" ++ [c_lf] ++ metaTagOpen ++ str "a$b" ++ metaTagClose ++ [c_lf]
      ++ str "</head>".
Proof. by vm_compute. Qed.

(** C2. Take an attached session that is not ready and any sequence [ms]
    of messages of the host with a method other than
    [sandbox-resource-ready].  Each one is appended to the pending queue
    and none is posted to the widget before the handshake; when
    [client-ready] is received, or when a fallback timer that is set
    expires, the whole queue is posted to the widget in the order of
    arrival; and the messages [ms'] that arrive after the flush are posted
    at once, in the order of their arrival, the queue staying empty. *)
Theorem queue_flushed_in_arrival_order
    (cfg : Config) (st : State) (ms ms' : list JsVal) (ev : Event) :
  attached st = true → innerReady st = false →
  Forall relayed ms → Forall relayed ms' →
  isHandshake (run cfg (EvMessage FromParent <$> ms) st) ev →
  let st1 := run cfg (EvMessage FromParent <$> ms) st in
  let st2 := step cfg st1 ev in
  let st3 := run cfg (EvMessage FromParent <$> ms') st2 in
  (pendingMessages st1 = pendingMessages st ++ ms
   ∧ toInner st1 = toInner st ∧ innerReady st1 = false)
  ∧ (toInner st2 = toInner st ++ pendingMessages st ++ ms
     ∧ pendingMessages st2 = [] ∧ innerReady st2 = true)
  ∧ (toInner st3 = toInner st ++ pendingMessages st ++ ms ++ ms'
     ∧ pendingMessages st3 = []).
Proof.
  intros Ha Hr Hms Hms' Hev st1 st2 st3.
  assert (E1 : st1 = set_pendingMessages (pendingMessages st ++ ms) st)
    by by apply run_relay_queued.
  assert (H1 : pendingMessages st1 = pendingMessages st ++ ms
               ∧ toInner st1 = toInner st ∧ innerReady st1 = false
               ∧ attached st1 = true) by by rewrite E1.
  destruct H1 as (Hp1 & Ht1 & Hr1 & Ha1).
  destruct (step_handshake cfg st1 ev Ha1 Hr1 Hev) as (Ht2 & Hp2 & Hr2 & Ha2).
  fold st2 in Ht2, Hp2, Hr2, Ha2.
  assert (E3 : st3 = set_toInner (toInner st2 ++ ms') st2) by by apply run_relay_posted.
  split_and!; try done.
  - by rewrite Ht2, Ht1, Hp1.
  - rewrite E3. cbn. by rewrite Ht2, Ht1, Hp1, <- !app_assoc.
  - by rewrite E3.
Qed.

Lemma queue_flushed_in_arrival_order_witness :
  let cfg := {| flowId := Some (str "f1"); resourceUrl := Some (str "ui://app/widget");
                noCacheParam := false |} in
  let st := initialState ∅ true in
  let m1 := VObj [(s_method, VStr (str "ui/notifications/tool-input"))] in
  let m2 := VNum 7 in
  let m3 := VObj [(s_method, VStr (str "ui/notifications/tool-result"))] in
  let ready := EvMessage FromInner (VObj [(s_method, VStr m_client_ready)]) in
  let st1 := run cfg (EvMessage FromParent <$> [m1; m2]) st in
  let st3 := run cfg (EvMessage FromParent <$> [m3]) (step cfg st1 ready) in
  toInner st1 = [] ∧ pendingMessages st1 = [m1; m2]
  ∧ toInner st3 = [m1; m2; m3] ∧ pendingMessages st3 = [].
Proof.
  intros cfg st m1 m2 m3 ready st1 st3.
  assert (Hms : Forall relayed [m1; m2]) by (repeat constructor; by vm_compute).
  assert (Hms' : Forall relayed [m3]) by (repeat constructor; by vm_compute).
  assert (Hev : isHandshake (run cfg (EvMessage FromParent <$> [m1; m2]) st) ready)
    by by vm_compute.
  pose proof (queue_flushed_in_arrival_order cfg st [m1; m2] [m3] ready
                eq_refl eq_refl Hms Hms' Hev) as ((H1 & H2 & _) & _ & (H3 & H4)).
  split_and!; [exact H2|exact H1|exact H3|exact H4].
Defined.

(** C7. The listener of the [load] event of the inner iframe sets a
    fallback timer.  When a fallback timer that is set expires while the
    attached session is not ready, which is the case if [client-ready]
    never arrived, the pending queue is posted to the widget, in order,
    and emptied, and the session becomes ready.  An expiry while the
    session is ready posts nothing: so a second expiry after the first
    one, of whatever timer, leaves what was posted as it is.  And over any
    sequence of events of a mounted session, the messages posted followed
    by the messages pending are the messages that arrived, each once and in
    order: nothing is ever posted a second time.  (The delay of 500 ms is
    not part of the model: an expiry is an event.) *)
Theorem fallback_flushes_once (cfg : Config) (st : State) (id : nat) :
  attached st = true → innerReady st = false → id ∈ timers st →
  let st' := onTimeout id st in
  (nextTimer st ∈ timers (onLoad st)
   ∧ toInner (onLoad st) = toInner st
   ∧ pendingMessages (onLoad st) = pendingMessages st)
  ∧ (toInner st' = toInner st ++ pendingMessages st
     ∧ pendingMessages st' = [] ∧ innerReady st' = true)
  ∧ (∀ id', toInner (onTimeout id' st') = toInner st'
            ∧ pendingMessages (onTimeout id' st') = [])
  ∧ (∀ s id', innerReady s = true →
       toInner (onTimeout id' s) = toInner s
       ∧ pendingMessages (onTimeout id' s) = pendingMessages s)
  ∧ (∀ evs,
       toInner (run cfg evs st) ++ pendingMessages (run cfg evs st)
       = toInner st ++ pendingMessages st ++ arrivals evs).
Proof.
  intros Ha Hr Hid st'.
  destruct (step_handshake cfg st (EvTimeout id) Ha Hr Hid) as (Ht & Hp & Hr' & Ha').
  change (step cfg st (EvTimeout id)) with st' in *.
  split_and!; try done.
  - cbn. rewrite elem_of_app. right. by left.
  - intros id'. destruct (onTimeout_ready id' st' Hr') as (-> & -> & _). done.
  - intros s id' Hs. destruct (onTimeout_ready id' s Hs) as (-> & -> & _). done.
  - intros evs. apply run_mounted. split; [done|]. by rewrite Hr.
Qed.

Lemma fallback_flushes_once_witness :
  let cfg := {| flowId := Some (str "f1"); resourceUrl := Some (str "ui://app/widget");
                noCacheParam := false |} in
  let m1 := VObj [(s_method, VStr (str "ui/notifications/tool-input"))] in
  let m2 := VStr (str "hello") in
  let st := run cfg [EvMessage FromParent m1; EvLoad; EvMessage FromParent m2]
              (initialState ∅ true) in
  1 ∈ timers st
  ∧ toInner (onTimeout 1 st) = [m1; m2]
  ∧ toInner (onTimeout 1 (onTimeout 1 st)) = [m1; m2]
  ∧ toInner (onTimeout 2 (onTimeout 1 st)) = [m1; m2].
Proof.
  intros cfg m1 m2 st.
  assert (Hid : 1 ∈ timers st) by (cbn; set_solver).
  destruct (fallback_flushes_once cfg st 1 eq_refl eq_refl Hid)
    as (_ & (H1 & _) & H2 & _).
  split_and!; [done|done|by rewrite (proj1 (H2 1))|by rewrite (proj1 (H2 2))].
Defined.

(** C8, as the code has it.  For every [GET] request to the endpoint, on
    the store left by any sequence of earlier requests: when the path has
    no key segment (its last two segments are empty) the response is 400;
    otherwise the segment is the key, also when it cannot be decoded, and
    when the key has a stored entry the response is 200 with the cached
    HTML as body, [Content-Type: text/html; charset=utf-8] and
    [Cache-Control: public, max-age=0, s-maxage=3600,
    stale-while-revalidate=86400], and when it has none the response is
    404.  The stored entry is the HTML last posted under the key. *)
Theorem cache_endpoint_get
    (JSON_parse : jsstring → option JsVal) (reqs : list Request) (req : Request) :
  rq_method req = s_GET →
  let cache := serve JSON_parse reqs ∅ in
  (rawSegmentOf (rq_pathname req) = None →
     handler JSON_parse cache req
     = (Responded (jsonResponse 400 (jsonError s_missing_key)), cache))
  ∧ (∀ raw encoded,
       rawSegmentOf (rq_pathname req) = Some raw →
       encodeURIComponent raw = Some encoded →
       let url := rq_origin req ++ s_api_cache ++ encoded in
       (∀ cached, cache !! url = Some cached →
          handler JSON_parse cache req = (Responded cached, cache)
          ∧ rs_status cached = 200
          ∧ rs_headers cached
            = [(s_ContentType, s_text_html); (s_CacheControl, s_cache_policy)]
          ∧ rs_body cached ≠ [])
       ∧ (cache !! url = None →
          handler JSON_parse cache req
          = (Responded {| rs_status := 404; rs_body := s_NotFound; rs_headers := [] |},
             cache))
       ∧ (∀ post html,
            rq_method post = s_POST →
            rq_origin post = rq_origin req → rq_pathname post = rq_pathname req →
            includes s_application_json (default [] (rq_contentType post)) = false →
            rq_body post = Some html → html ≠ [] →
            let cache' := (handler JSON_parse cache post).2 in
            handler JSON_parse cache' req = (Responded (cachedResponse html), cache'))).
Proof.
  intros Hm cache. split.
  - intros Hraw. unfold handler. by rewrite (getCacheKey_no_segment _ Hraw).
  - intros raw encoded Hraw Henc url. split_and!.
    + intros cached Hc. rewrite (handler_get _ _ _ _ _ Hm Hraw Henc). fold url. rewrite Hc.
      destruct (serve_storedByWrite JSON_parse reqs ∅ storedByWrite_empty _ _ Hc)
        as (html & Hh & ->). done.
    + intros Hc. rewrite (handler_get _ _ _ _ _ Hm Hraw Henc). fold url. by rewrite Hc.
    + intros post html Hpm Hpo Hpp Hct Hb Hh cache'.
      rewrite (handler_get _ _ _ _ _ Hm Hraw Henc). unfold cache'.
      rewrite <- Hpp in Hraw. rewrite (handler_post_text _ _ _ _ _ _ Hpm Hraw Henc Hct Hb Hh).
      cbn [snd]. rewrite Hpo. by rewrite lookup_insert_eq.
Qed.

Lemma cache_endpoint_get_witness :
  let parse : jsstring → option JsVal := λ _, None in
  let path := str "/api/cache/f1%253A%253Aui%253A%252F%252Fapp%252Fwidget" in
  let post := {| rq_method := s_POST; rq_origin := str "https://proxy.test";
                 rq_pathname := path; rq_contentType := Some s_text_html;
                 rq_body := Some (str "<p>cached</p>") |} in
  let get := {| rq_method := s_GET; rq_origin := str "https://proxy.test";
                rq_pathname := path; rq_contentType := None; rq_body := None |} in
  let other := {| rq_method := s_GET; rq_origin := str "https://proxy.test";
                  rq_pathname := str "/api/cache/nothing"; rq_contentType := None;
                  rq_body := None |} in
  rq_method get = s_GET
  ∧ (handler parse (serve parse [post] ∅) get).1
    = Responded (cachedResponse (str "<p>cached</p>"))
  ∧ (handler parse (serve parse [post] ∅) other).1
    = Responded {| rs_status := 404; rs_body := s_NotFound; rs_headers := [] |}.
Proof.
  intros parse path post get other. split_and!; [done| |].
  - destruct (cache_endpoint_get parse [] get eq_refl) as [_ H].
    destruct (H (str "f1%253A%253Aui%253A%252F%252Fapp%252Fwidget")
                (str "f1%25253A%25253Aui%25253A%25252F%25252Fapp%25252Fwidget")
                ltac:(by vm_compute) ltac:(by vm_compute)) as (_ & _ & H').
    pose proof (H' post (str "<p>cached</p>") eq_refl eq_refl eq_refl
                  ltac:(by vm_compute) eq_refl ltac:(done)) as E.
    exact (f_equal fst E).
  - destruct (cache_endpoint_get parse [post] other eq_refl) as [_ H].
    destruct (H (str "nothing") (str "nothing") ltac:(by vm_compute) ltac:(by vm_compute))
      as (_ & H' & _).
    exact (f_equal fst (H' ltac:(by vm_compute))).
Defined.

(** C8 as stated fails on a key segment that cannot be decoded: the
    segment [%] makes [decodeURIComponent] raise, the handler takes it as
    the key, and the response to the [GET] is 404 (or the stored entry),
    not 400. *)
Lemma undecodable_key_is_not_rejected :
  let get := {| rq_method := s_GET; rq_origin := str "https://proxy.test";
                rq_pathname := str "/api/cache/%"; rq_contentType := None;
                rq_body := None |} in
  rawSegmentOf (rq_pathname get) = Some (str "%")
  ∧ decodeURIComponent (str "%") = None
  ∧ handler (λ _, None) ∅ get
    = (Responded {| rs_status := 404; rs_body := s_NotFound; rs_headers := [] |}, ∅).
Proof. by vm_compute. Qed.

(** C1, as the code has it.  When the session receives a
    [sandbox-resource-ready] message from the host, with [params] for
    [data.params || {}]:
    - the message is not relayed to the widget, neither posted nor queued;
    - the sandbox attribute of the inner iframe is set to [params.sandbox]
      when that is a string that is not blank, and to the default
      otherwise;
    - when [params.html] is not a string, nothing else happens;
    - when [params.html] is a string, and [params.csp] is a non-empty
      string or falsy (the default policy then stands in), the HTML is
      rewritten by the injector with that policy and the overwrite flag
      on, the session is set not ready, the rewritten HTML is made the
      document source of the inner iframe, and, the resource name being
      [params.resource] when that is a string and the resource the page
      was asked for otherwise: when that name is a non-empty string, the
      rewritten HTML is written to the memory tier under the namespaced
      key, and is sent to the persistent tier by a [POST] that is not
      awaited (when [fetch] is there and the key can be encoded); when that
      name is empty or absent, nothing is written. *)
Theorem resource_ready_handled (cfg : Config) (data : JsVal) (st : State) :
  hasMethod data m_sandbox_resource_ready = true →
  let params := paramsOf data in
  let out := handleMessage cfg FromParent data st in
  let st' := stateOf out in
  (toInner st' = toInner st ∧ pendingMessages st' = pendingMessages st)
  ∧ (∀ s, getProp params s_sandbox = VStr s → trim s ≠ [] → sandbox st' = s)
  ∧ ((∀ s, getProp params s_sandbox = VStr s → trim s = []) →
       sandbox st' = DEFAULT_SANDBOX)
  ∧ ((∀ h, getProp params s_html_key ≠ VStr h) →
       innerReady st' = innerReady st ∧ srcdoc st' = srcdoc st
       ∧ htmlCache st' = htmlCache st ∧ fetched st' = fetched st)
  ∧ (∀ h policy,
       getProp params s_html_key = VStr h →
       usablePolicy (getProp params s_csp) policy →
       let safeHtml := ensureCspMeta h policy true in
       out = Returned st' ∧ innerReady st' = false ∧ srcdoc st' = Some safeHtml
       ∧ (∀ r,
            getProp params s_resource = VStr r
            ∨ ((∀ x, getProp params s_resource ≠ VStr x) ∧ resourceUrl cfg = Some r) →
            r ≠ [] →
            htmlCache st' = <[cacheNamespace cfg ++ s_colons ++ r := safeHtml]> (htmlCache st)
            ∧ (∀ path,
                 fetchAvailable st = true →
                 buildCachePath r (Some (cacheNamespace cfg)) = Some path →
                 fetched st' = fetched st ++ [postCall path safeHtml]))
       ∧ (getProp params s_resource = VStr []
          ∨ ((∀ x, getProp params s_resource ≠ VStr x)
             ∧ (resourceUrl cfg = None ∨ resourceUrl cfg = Some [])) →
          htmlCache st' = htmlCache st ∧ fetched st' = fetched st)).
Proof.
  intros Hm params out st'. unfold st', out. cbn [handleMessage]. rewrite Hm. fold params.
  split_and!.
  - by destruct (handleResourceReady_queue cfg data st) as (_ & -> & _).
  - by destruct (handleResourceReady_queue cfg data st) as (_ & _ & -> & _).
  - intros s Hs Ht. rewrite handleResourceReady_sandbox. fold params. rewrite Hs.
    by apply sandboxValueOf_string.
  - intros Hs. rewrite handleResourceReady_sandbox. by apply sandboxValueOf_default.
  - intros Hh. by rewrite handleResourceReady_no_html.
  - intros h policy Hh Hp. set (safeHtml := ensureCspMeta h policy true).
    rewrite (handleResourceReady_html cfg data st h policy Hh Hp). fold params safeHtml.
    cbn [stateOf].
    set (st1 := set_srcdoc safeHtml (set_innerReady false
                  (set_sandbox (sandboxValueOf (getProp params s_sandbox)) st))).
    destruct (writeThrough_queue cfg (resourceForCacheOf cfg (getProp params s_resource))
                safeHtml st1) as (_ & Hr & _ & _ & _ & _ & Hs).
    split_and!; [done|by rewrite Hr|by rewrite Hs| |].
    + intros r Hres Hne.
      assert (resourceForCacheOf cfg (getProp params s_resource) = Some r) as ->.
      { destruct Hres as [->|[Hx <-]]; [done|by apply resourceForCacheOf_fallback]. }
      destruct (writeThrough_write cfg r safeHtml st1 Hne) as (Hc & Hf & _).
      split; [exact Hc|exact Hf].
    + intros Hres. rewrite writeThrough_skip; [done|].
      destruct Hres as [->|[Hx Hu]]; [by right|].
      rewrite resourceForCacheOf_fallback by done. destruct Hu as [->| ->]; eauto.
Qed.

Lemma resource_ready_handled_witness :
  let cfg := {| flowId := Some (str "f1"); resourceUrl := Some (str "ui://app/widget");
                noCacheParam := false |} in
  let data :=
    VObj [ (s_jsonrpc, VStr s_2_0);
           (s_method, VStr m_sandbox_resource_ready);
           (s_params, VObj [ (s_html_key, VStr (str "<html></html>"));
                             (s_csp, VNull);
                             (s_sandbox, VStr (str "allow-scripts")) ]) ] in
  let st := initialState ∅ true in
  let st' := stateOf (handleMessage cfg FromParent data st) in
  let safeHtml := ensureCspMeta (str "<html></html>") DEFAULT_CSP true in
  hasMethod data m_sandbox_resource_ready = true
  ∧ sandbox st' = str "allow-scripts"
  ∧ srcdoc st' = Some safeHtml
  ∧ htmlCache st' = {[ str "f1::ui://app/widget" := safeHtml ]}
  ∧ fetched st'
    = [postCall (str "/api/cache/f1%253A%253Aui%253A%252F%252Fapp%252Fwidget") safeHtml]
  ∧ toInner st' = [] ∧ pendingMessages st' = [].
Proof.
  intros cfg data st st' safeHtml. subst st'.
  destruct (resource_ready_handled cfg data st eq_refl)
    as ((Ht & Hq) & Hs & _ & _ & Hh).
  assert (Hhtml : getProp (paramsOf data) s_html_key = VStr (str "<html></html>"))
    by by vm_compute.
  assert (Hp : usablePolicy (getProp (paramsOf data) s_csp) DEFAULT_CSP)
    by (right; by vm_compute).
  destruct (Hh (str "<html></html>") DEFAULT_CSP Hhtml Hp) as (_ & _ & Hd & Hw & _).
  assert (Hres : getProp (paramsOf data) s_resource = VStr (str "ui://app/widget")
                 ∨ ((∀ x, getProp (paramsOf data) s_resource ≠ VStr x)
                    ∧ resourceUrl cfg = Some (str "ui://app/widget")))
    by (right; split; [by vm_compute|done]).
  destruct (Hw (str "ui://app/widget") Hres ltac:(done)) as (Hc & Hf).
  split_and!; [done| |exact Hd| | |exact Ht|exact Hq].
  - apply Hs; [done|by vm_compute].
  - rewrite Hc. by vm_compute.
  - rewrite (Hf _ eq_refl ltac:(by vm_compute)). done.
Defined.

(** C1 as stated fails when [params.resource] is the empty string: it is
    a string, so that the key would be built from it, and the handler
    writes to neither tier, under that key or under the key of the
    resource the page was asked for. *)
Lemma empty_resource_is_not_written :
  let cfg := {| flowId := Some (str "f1"); resourceUrl := Some (str "ui://app/widget");
                noCacheParam := false |} in
  let data :=
    VObj [ (s_method, VStr m_sandbox_resource_ready);
           (s_params, VObj [ (s_html_key, VStr (str "<p>hi</p>"));
                             (s_resource, VStr []) ]) ] in
  let st' := stateOf (handleMessage cfg FromParent data (initialState ∅ true)) in
  hasMethod data m_sandbox_resource_ready = true
  ∧ getProp (paramsOf data) s_resource = VStr []
  ∧ srcdoc st' = Some (ensureCspMeta (str "<p>hi</p>") DEFAULT_CSP true)
  ∧ htmlCache st' = ∅
  ∧ fetched st' = [].
Proof. by vm_compute. Qed.

(** C5. When [noCache] is set, or when the resource identifier has the
    legacy cache-busting marker as a literal substring, the cache read of
    the session reports not-found and leaves the state as it is: no call
    to the persistent tier is made and the answer is the same whatever the
    memory tier holds.  The handling of [sandbox-resource-ready] does not
    read the flag (it is the same for both values of the flag), and its
    write still fills both tiers: the memory tier holds the rewritten HTML
    under the namespaced key and the [POST] for the persistent tier is
    made. *)
Theorem noCache_skips_read_not_write (cfg : Config) (st : State) :
  noCacheParam cfg = true
  ∨ (∃ r, resourceUrl cfg = Some r ∧ includes s_cache_buster r = true) →
  primeIframeFromCache_start cfg st = (st, Some false)
  ∧ (∀ b source data s,
       handleMessage
         {| flowId := flowId cfg; resourceUrl := resourceUrl cfg; noCacheParam := b |}
         source data s
       = handleMessage cfg source data s)
  ∧ (∀ data h policy r path s,
       hasMethod data m_sandbox_resource_ready = true →
       getProp (paramsOf data) s_html_key = VStr h →
       usablePolicy (getProp (paramsOf data) s_csp) policy →
       getProp (paramsOf data) s_resource = VStr r
       ∨ ((∀ x, getProp (paramsOf data) s_resource ≠ VStr x) ∧ resourceUrl cfg = Some r) →
       r ≠ [] →
       fetchAvailable s = true →
       buildCachePath r (Some (cacheNamespace cfg)) = Some path →
       let s' := stateOf (handleMessage cfg FromParent data s) in
       htmlCache s' !! (cacheNamespace cfg ++ s_colons ++ r)
       = Some (ensureCspMeta h policy true)
       ∧ fetched s' = fetched s ++ [postCall path (ensureCspMeta h policy true)]).
Proof.
  intros H. split_and!.
  - by apply primeIframeFromCache_start_disabled.
  - intros. apply handleMessage_noCache.
  - intros data h policy r path s Hm Hh Hp Hres Hne Hf Hpath. cbn [handleMessage].
    rewrite Hm, (handleResourceReady_html cfg data s h policy Hh Hp). cbn [stateOf].
    assert (resourceForCacheOf cfg (getProp (paramsOf data) s_resource) = Some r) as ->.
    { destruct Hres as [->|[Hx <-]]; [done|by apply resourceForCacheOf_fallback]. }
    match goal with |- context [writeThrough cfg (Some r) ?html ?s1] =>
      destruct (writeThrough_write cfg r html s1 Hne) as (Hc & Hw & _) end.
    cbv zeta. rewrite Hc, (Hw path Hf Hpath). by rewrite lookup_insert_eq.
Qed.

Lemma noCache_skips_read_not_write_witness :
  let cfg := {| flowId := Some (str "f1"); resourceUrl := Some (str "ui://app/widget");
                noCacheParam := true |} in
  let data :=
    VObj [ (s_method, VStr m_sandbox_resource_ready);
           (s_params, VObj [ (s_html_key, VStr (str "<p>new</p>"));
                             (s_resource, VStr (str "ui://app/widget")) ]) ] in
  let st := initialState {[ str "f1::ui://app/widget" := str "<p>old</p>" ]} true in
  let safeHtml := ensureCspMeta (str "<p>new</p>") DEFAULT_CSP true in
  noCacheParam cfg = true
  ∧ primeIframeFromCache_start cfg st = (st, Some false)
  ∧ htmlCache (stateOf (handleMessage cfg FromParent data st))
      !! str "f1::ui://app/widget" = Some safeHtml
  ∧ fetched (stateOf (handleMessage cfg FromParent data st))
    = [postCall (str "/api/cache/f1%253A%253Aui%253A%252F%252Fapp%252Fwidget") safeHtml].
Proof.
  intros cfg data st safeHtml.
  destruct (noCache_skips_read_not_write cfg st (or_introl eq_refl)) as (H1 & _ & H3).
  assert (Hp : usablePolicy (getProp (paramsOf data) s_csp) DEFAULT_CSP)
    by (right; by vm_compute).
  assert (Hh : getProp (paramsOf data) s_html_key = VStr (str "<p>new</p>"))
    by by vm_compute.
  assert (Hres : getProp (paramsOf data) s_resource = VStr (str "ui://app/widget")
                 ∨ ((∀ x, getProp (paramsOf data) s_resource ≠ VStr x)
                    ∧ resourceUrl cfg = Some (str "ui://app/widget")))
    by (left; by vm_compute).
  assert (Hpath : buildCachePath (str "ui://app/widget") (Some (cacheNamespace cfg))
                  = Some (str "/api/cache/f1%253A%253Aui%253A%252F%252Fapp%252Fwidget"))
    by by vm_compute.
  assert (Hne : str "ui://app/widget" ≠ []) by done.
  destruct (H3 data (str "<p>new</p>") DEFAULT_CSP (str "ui://app/widget")
              (str "/api/cache/f1%253A%253Aui%253A%252F%252Fapp%252Fwidget") st
              eq_refl Hh Hp Hres Hne eq_refl Hpath) as (H4 & H5).
  split_and!; [done|exact H1|exact H4|exact H5].
Defined.

(** C6, as the code has it.  For every namespace and every non-empty
    resource identifier, caching not being disabled, the cache read looks
    at the memory tier first.  On a non-empty entry it is done: the entry
    is made the document source, and neither the store nor the record of
    calls changes.  Without an entry, or with an empty one, it makes a
    [GET] to the persistent tier at the path of the key encoded twice
    (and reports a miss when [fetch] is not there or the key cannot be
    encoded).  On a 2xx answer with a non-empty text it writes the text
    to the memory tier under the key and makes it the document source.
    A rejected call, an answer that is not 2xx, a text that cannot be read
    or is empty: each is reported as a miss, the state being as it was,
    and none is raised. *)
Theorem cache_read_tiers (cfg : Config) (st : State) (r : jsstring) :
  resourceUrl cfg = Some r → r ≠ [] →
  noCacheParam cfg = false → includes s_cache_buster r = false →
  let key := cacheNamespace cfg ++ s_colons ++ r in
  (∀ h, htmlCache st !! key = Some h → h ≠ [] →
     primeIframeFromCache_start cfg st
     = (set_srcdoc (ensureCspMeta h DEFAULT_CSP false) st, Some true))
  ∧ (htmlCache st !! key = None ∨ htmlCache st !! key = Some [] →
     (∀ encoded,
        fetchAvailable st = true → encodeCacheKey key = Some encoded →
        primeIframeFromCache_start cfg st
        = (set_fetched
             (fetched st ++ [getCall (CACHE_ENDPOINT_BASE ++ [c_slash] ++ encoded)]) st,
           None))
     ∧ (fetchAvailable st = false ∨ encodeCacheKey key = None →
        primeIframeFromCache_start cfg st = (st, Some false)))
  ∧ (∀ status h, 200 ≤ status ≤ 299 → h ≠ [] →
     primeIframeFromCache_resume cfg (FetchResponse status (Some h)) st
     = (set_srcdoc (ensureCspMeta h DEFAULT_CSP false) (setCachedHtml key h st), true))
  ∧ (∀ o,
       o = FetchRejected
       ∨ (∃ status text, o = FetchResponse status text ∧ (status < 200 ∨ 299 < status))
       ∨ (∃ status, o = FetchResponse status None)
       ∨ (∃ status, o = FetchResponse status (Some [])) →
       primeIframeFromCache_resume cfg o st = (st, false)).
Proof.
  intros Hr Hne Hn Hm key. split_and!.
  - intros h Hh Hhne. rewrite (primeIframeFromCache_start_enabled cfg st r Hr Hne Hn Hm).
    fold key. rewrite Hh. by destruct h.
  - intros Hmiss. rewrite (primeIframeFromCache_start_enabled cfg st r Hr Hne Hn Hm).
    fold key. split.
    + intros encoded Hf He. rewrite Hf, He. by destruct Hmiss as [->| ->].
    + intros Hno. destruct Hmiss as [->| ->]; destruct Hno as [->| ->]; try done;
        by destruct (fetchAvailable st).
  - intros status h Hs Hh. by apply primeIframeFromCache_resume_hit.
  - intros o Ho. by apply primeIframeFromCache_resume_miss.
Qed.

Lemma cache_read_tiers_witness :
  let cfg := {| flowId := Some (str "f1"); resourceUrl := Some (str "ui://app/widget");
                noCacheParam := false |} in
  let key := str "f1::ui://app/widget" in
  let warm := initialState {[ key := str "<p>cached</p>" ]} true in
  let cold := initialState ∅ true in
  resourceUrl cfg = Some (str "ui://app/widget")
  ∧ primeIframeFromCache_start cfg warm
    = (set_srcdoc (ensureCspMeta (str "<p>cached</p>") DEFAULT_CSP false) warm, Some true)
  ∧ primeIframeFromCache_start cfg cold
    = (set_fetched
         [getCall (str "/api/cache/f1%253A%253Aui%253A%252F%252Fapp%252Fwidget")] cold,
       None)
  ∧ primeIframeFromCache_resume cfg (FetchResponse 200 (Some (str "<p>stored</p>"))) cold
    = (set_srcdoc (ensureCspMeta (str "<p>stored</p>") DEFAULT_CSP false)
         (setCachedHtml key (str "<p>stored</p>") cold), true)
  ∧ primeIframeFromCache_resume cfg (FetchResponse 404 (Some (str "Not Found"))) cold
    = (cold, false).
Proof.
  intros cfg key warm cold.
  assert (Hm : includes s_cache_buster (str "ui://app/widget") = false) by by vm_compute.
  destruct (cache_read_tiers cfg warm (str "ui://app/widget") eq_refl ltac:(done) eq_refl Hm)
    as (Hw & _).
  destruct (cache_read_tiers cfg cold (str "ui://app/widget") eq_refl ltac:(done) eq_refl Hm)
    as (_ & Hc & Hh & Hf).
  split_and!; [done| | | |].
  - apply Hw; [by vm_compute|done].
  - assert (Hmiss : htmlCache cold !! (cacheNamespace cfg ++ s_colons ++ str "ui://app/widget")
                    = None
                    ∨ htmlCache cold !! (cacheNamespace cfg ++ s_colons ++ str "ui://app/widget")
                      = Some []) by (left; by vm_compute).
    destruct (Hc Hmiss) as [Hc' _].
    assert (Henc : encodeCacheKey (cacheNamespace cfg ++ s_colons ++ str "ui://app/widget")
                   = Some (str "f1%253A%253Aui%253A%252F%252Fapp%252Fwidget"))
      by by vm_compute.
    exact (Hc' _ eq_refl Henc).
  - apply Hh; [lia|done].
  - apply Hf. right. left. exists 404, (Some (str "Not Found")). split; [done|lia].
Defined.

(** C6 as stated fails on an empty entry of the memory tier.  A
    [sandbox-resource-ready] message with an empty HTML string leaves one
    under the key; the next session of the page finds the key in the
    memory tier and still calls the persistent tier. *)
Lemma empty_memory_entry_is_a_miss :
  let cfg := {| flowId := Some (str "f1"); resourceUrl := Some (str "ui://app/widget");
                noCacheParam := false |} in
  let key := str "f1::ui://app/widget" in
  let data :=
    VObj [ (s_method, VStr m_sandbox_resource_ready);
           (s_params, VObj [ (s_html_key, VStr []) ]) ] in
  let first := stateOf (handleMessage cfg FromParent data (initialState ∅ true)) in
  let next := initialState (htmlCache first) true in
  htmlCache next !! key = Some []
  ∧ primeIframeFromCache_start cfg next
    = (set_fetched
         [getCall (str "/api/cache/f1%253A%253Aui%253A%252F%252Fapp%252Fwidget")] next,
       None).
Proof. by vm_compute. Qed.

(** * Further properties *)

(** X1. With the overwrite flag on, on a non-empty document that has a CSP
    meta tag and for a non-empty policy without a [$], the injector
    replaces the first CSP meta tag, from its [<meta] to the first [>]
    after it, by the new tag, and leaves what is before and what is after
    as it is. *)
Theorem ensureCspMeta_overwrites_first_tag (html csp : jsstring) :
  html ≠ [] → csp ≠ [] → c_dollar ∉ csp →
  re_test cspRegex html = true →
  ∃ pre old post,
    html = pre ++ old ++ [c_gt] ++ post
    ∧ (c_gt ∉ old)
    ∧ cspRegex (old ++ [c_gt] ++ post) = Some ([], post)
    ∧ (∀ p1 p2, pre = p1 ++ p2 → p2 ≠ [] →
         cspRegex (p2 ++ old ++ [c_gt] ++ post) = None)
    ∧ ensureCspMeta html csp true = pre ++ metaTag csp ++ post.
Proof.
  intros Hh Hc Hd Ht.
  assert (Eo : ensureCspMeta html csp true = re_replace cspRegex html (metaTag csp)).
  { unfold ensureCspMeta. rewrite Ht. destruct html; [done|]. by destruct csp. }
  destruct (re_test_true_search _ _ Ht) as (pre & caps & post & E).
  rewrite Eo, (re_replace_plain _ _ _ _ _ _ E (metaTag_plain _ Hd)). clear Eo Hh Ht.
  destruct (re_search_sound _ _ _ _ _ E) as (t & -> & Hm).
  destruct (cspRegex_rest _ _ _ Hm) as (-> & old & -> & Hold).
  exists pre, old, post. split_and!; [done|done|done| |done].
  intros p1 p2 -> Hp2.
  eapply (re_search_leftmost _ _ _ _ _ E p1 p2); [|done..]. list_assoc.
Qed.

Lemma ensureCspMeta_overwrites_first_tag_witness :
  let html := str "<head><meta charset=u><META HTTP-EQUIV='content-security-policy' content=x><title>t</title></head>" in
  let csp := str "img-src 'self'" in
  ∃ pre old post,
    html = pre ++ old ++ [c_gt] ++ post
    ∧ (c_gt ∉ old)
    ∧ cspRegex (old ++ [c_gt] ++ post) = Some ([], post)
    ∧ (∀ p1 p2, pre = p1 ++ p2 → p2 ≠ [] →
         cspRegex (p2 ++ old ++ [c_gt] ++ post) = None)
    ∧ ensureCspMeta html csp true = pre ++ metaTag csp ++ post.
Proof.
  intros html csp.
  assert (Hh : html ≠ []) by done.
  assert (Hc : csp ≠ []) by done.
  assert (Hd : c_dollar ∉ csp)
    by (apply (bool_decide_eq_false_1 (c_dollar ∈ csp)); by vm_compute).
  assert (Ht : re_test cspRegex html = true) by by vm_compute.
  exact (ensureCspMeta_overwrites_first_tag html csp Hh Hc Hd Ht).
Defined.


(** X3. The escaping of attribute values loses nothing: it is the
    escaping of each code unit on its own, and two values with the same
    escaping are equal, so that two policies with the same tag are the
    same policy. *)
Theorem escapeHtmlAttr_injective (a b : jsstring) :
  escapeHtmlAttr a = flat_map escapeChar a
  ∧ (escapeHtmlAttr a = escapeHtmlAttr b → a = b)
  ∧ (metaTag a = metaTag b → a = b).
Proof.
  split_and!; [apply escapeHtmlAttr_flat_map|apply escapeHtmlAttr_inj|].
  unfold metaTag. intros H%app_inv_head%app_inv_tail. by apply escapeHtmlAttr_inj.
Qed.

(** X4. Whatever happens to a session after its mount, on whatever memory
    cache it starts: whenever the document source of the inner iframe is
    set to a non-empty document, that document holds a CSP meta tag, be it
    HTML sent by the host, an entry of the memory tier or an answer of the
    persistent tier. *)
Theorem srcdoc_always_has_csp
    (isHttpUrl : jsstring → bool) (cfg : Config) (cache : gmap jsstring jsstring)
    (hasFetch : bool) (evs : list Event) (doc : jsstring) :
  srcdoc (run cfg evs (mount isHttpUrl cfg (initialState cache hasFetch))) = Some doc →
  doc ≠ [] →
  re_test cspRegex doc = true.
Proof.
  apply (run_srcdocGuarded cfg evs), mount_srcdocGuarded. by intros d.
Qed.

Lemma srcdoc_always_has_csp_witness :
  let cfg := {| flowId := Some (str "f1"); resourceUrl := Some (str "ui://app/widget");
                noCacheParam := false |} in
  let data :=
    VObj [ (s_method, VStr m_sandbox_resource_ready);
           (s_params, VObj [ (s_html_key, VStr (str "<p>hi</p>")) ]) ] in
  let doc := ensureCspMeta (str "<p>hi</p>") DEFAULT_CSP true in
  re_test cspRegex doc = true.
Proof.
  intros cfg data doc.
  apply (srcdoc_always_has_csp (λ _, false) cfg ∅ true [EvMessage FromParent data] doc);
    by vm_compute.
Defined.

(** X5. A [sandbox-resource-ready] message whose HTML is a non-empty
    string and whose policy is truthy without being a string makes the
    handler raise: the sandbox attribute has been set by then, and nothing
    else has changed, so that the document source, the ready flag and both
    cache tiers are as they were.  With the empty string for HTML the same
    message raises nothing, and the empty document is made the document
    source. *)
Theorem non_string_policy_throws (cfg : Config) (data : JsVal) (st : State) (h : jsstring) :
  hasMethod data m_sandbox_resource_ready = true →
  getProp (paramsOf data) s_html_key = VStr h →
  truthy (getProp (paramsOf data) s_csp) = true →
  (∀ c, getProp (paramsOf data) s_csp ≠ VStr c) →
  (h ≠ [] →
     handleMessage cfg FromParent data st
     = Thrown (set_sandbox (sandboxValueOf (getProp (paramsOf data) s_sandbox)) st))
  ∧ (h = [] →
     ∃ st', handleMessage cfg FromParent data st = Returned st'
            ∧ srcdoc st' = Some [] ∧ innerReady st' = false).
Proof.
  intros Hm Hh Ht Hc. cbn [handleMessage]. rewrite Hm. unfold handleResourceReady.
  rewrite Hh. split.
  - intros Hne. by rewrite ensureCspMetaAny_raises.
  - intros ->. unfold ensureCspMetaAny. cbn [isEmpty orb]. eexists. split; [done|].
    match goal with |- context [writeThrough cfg ?o ?s ?x] =>
      destruct (writeThrough_queue cfg o s x) as (_ & -> & _ & _ & _ & _ & ->) end.
    done.
Qed.

Lemma non_string_policy_throws_witness :
  let cfg := {| flowId := Some (str "f1"); resourceUrl := Some (str "ui://app/widget");
                noCacheParam := false |} in
  let data :=
    VObj [ (s_method, VStr m_sandbox_resource_ready);
           (s_params, VObj [ (s_html_key, VStr (str "<p>hi</p>"));
                             (s_csp, VObj [ (str "connectDomains", VStr (str "https://a.test")) ]) ]) ] in
  let st := initialState ∅ true in
  handleMessage cfg FromParent data st = Thrown (set_sandbox DEFAULT_SANDBOX st).
Proof.
  intros cfg data st.
  assert (Hm : hasMethod data m_sandbox_resource_ready = true) by by vm_compute.
  assert (Hh : getProp (paramsOf data) s_html_key = VStr (str "<p>hi</p>")) by by vm_compute.
  assert (Ht : truthy (getProp (paramsOf data) s_csp) = true) by by vm_compute.
  assert (Hc : ∀ c, getProp (paramsOf data) s_csp ≠ VStr c) by by vm_compute.
  exact (proj1 (non_string_policy_throws cfg data st _ Hm Hh Ht Hc) ltac:(done)).
Defined.

(** X6. From an attached session, over any sequence of events without an
    answer of the persistent tier: what has been posted to the host is
    what had been posted before followed by the messages of the widget
    received before the cleanup, each once and in the order of arrival,
    [client-ready] left out; messages of the host, loads and timers post
    nothing to the host. *)
Theorem widget_messages_relayed_in_order (cfg : Config) (st : State) (evs : list Event) :
  attached st = true → Forall notFetched evs →
  toParent (run cfg evs st) = toParent st ++ upward evs.
Proof.
  revert st. induction evs as [|ev evs IH]; intros st Ha Hf.
  - cbn. by rewrite app_nil_r.
  - rewrite run_cons. inversion_clear Hf as [|? ? Hev Hevs].
    assert (ev = EvUnmount ∨ ev ≠ EvUnmount) as [->|Hu] by (destruct ev; by eauto).
    + cbn [step upward]. rewrite app_nil_r.
      by destruct (run_detached_quiet cfg evs (unmount st) eq_refl Hevs) as (-> & _).
    + destruct (step_upward cfg st ev Ha Hev Hu) as [Ha' E].
      rewrite IH, E by done. rewrite <- app_assoc. f_equal.
      destruct ev as [[| |] data| |id|o|]; try done; cbn [upward app];
        by destruct (hasMethod data m_client_ready).
Qed.

Lemma widget_messages_relayed_in_order_witness :
  let cfg := {| flowId := Some (str "f1"); resourceUrl := Some (str "ui://app/widget");
                noCacheParam := false |} in
  let m1 := VObj [ (s_method, VStr (str "tools/call")) ] in
  let ready := VObj [ (s_method, VStr m_client_ready) ] in
  let m2 := VObj [ (s_method, VStr (str "ui/message")) ] in
  let evs := [EvMessage FromInner m1; EvLoad; EvMessage FromInner ready;
              EvMessage FromParent m1; EvMessage FromInner m2; EvUnmount;
              EvMessage FromInner m1] in
  toParent (run cfg evs (initialState ∅ true)) = [m1; m2].
Proof.
  intros cfg m1 ready m2 evs.
  assert (Hf : Forall notFetched evs) by (repeat constructor).
  exact (widget_messages_relayed_in_order cfg (initialState ∅ true) evs eq_refl Hf).
Defined.

(** X7. After the cleanup, whatever happens: nothing more is posted to the
    widget or queued, and the ready flag stays as it was.  Messages are
    not listened to any more: a sequence of messages leaves the state as
    the cleanup left it.  The cleanup cancels neither the fallback timers
    nor a cache read in flight: the answer of the persistent tier is
    handled after the cleanup as it is before it. *)
Theorem cleanup_stops_relaying (cfg : Config) (st : State) (evs : list Event) :
  let st' := run cfg evs (unmount st) in
  (attached st' = false ∧ toInner st' = toInner st
   ∧ pendingMessages st' = pendingMessages st ∧ innerReady st' = innerReady st)
  ∧ (∀ ms : list (Source * JsVal),
       run cfg ((λ m, EvMessage m.1 m.2) <$> ms) (unmount st) = unmount st)
  ∧ timers (unmount st) = timers st
  ∧ (∀ o, step cfg (unmount st) (EvFetched o) = unmount (step cfg st (EvFetched o))).
Proof.
  split_and!.
  - by destruct (run_detached_ready cfg evs (unmount st) eq_refl).
  - by destruct (run_detached cfg evs (unmount st) eq_refl) as [-> _].
  - by destruct (run_detached cfg evs (unmount st) eq_refl) as [_ ->].
  - by destruct (run_detached_ready cfg evs (unmount st) eq_refl) as [_ ->].
  - intros ms. induction ms as [|m ms IH]; [done|]. by rewrite fmap_cons, run_cons.
  - done.
  - intros o. cbn [step]. unfold primeIframeFromCache_resume, afterPrime, setCachedHtml.
    destruct (namespacedKey cfg), (fetchCachedHtmlFromApi_result o) as [h|];
      try destruct (isEmpty h); cbn [negb];
      destruct (resourceUrl cfg) as [r|]; try destruct (isEmpty r); done.
Qed.

(** X8. In every state a session reaches from its mount, the cleanup
    included: once the session is ready, the pending queue is empty, so
    that no message of the host stays behind a handshake. *)
Theorem ready_means_nothing_pending
    (isHttpUrl : jsstring → bool) (cfg : Config) (cache : gmap jsstring jsstring)
    (hasFetch : bool) (evs : list Event) :
  let st := run cfg evs (mount isHttpUrl cfg (initialState cache hasFetch)) in
  innerReady st = true → pendingMessages st = [].
Proof.
  cbn zeta. fold (readyQueueEmpty (run cfg evs (mount isHttpUrl cfg (initialState cache hasFetch)))).
  assert (H0 : readyQueueEmpty (mount isHttpUrl cfg (initialState cache hasFetch))).
  { unfold readyQueueEmpty.
    by destruct (mount_fields isHttpUrl cfg (initialState cache hasFetch))
      as (_ & -> & -> & _). }
  revert H0. generalize (mount isHttpUrl cfg (initialState cache hasFetch)).
  induction evs as [|ev evs IH]; intros s Hs; [done|].
  rewrite run_cons. by apply IH, step_readyQueueEmpty.
Qed.

Lemma ready_means_nothing_pending_witness :
  let cfg := {| flowId := Some (str "f1"); resourceUrl := Some (str "ui://app/widget");
                noCacheParam := false |} in
  let m1 := VObj [ (s_method, VStr (str "ui/notifications/tool-input")) ] in
  let ready := VObj [ (s_method, VStr m_client_ready) ] in
  let evs := [EvMessage FromParent m1; EvMessage FromInner ready; EvMessage FromParent m1] in
  pendingMessages (run cfg evs (mount (λ _, false) cfg (initialState ∅ true))) = [].
Proof.
  intros cfg m1 ready evs.
  exact (ready_means_nothing_pending (λ _, false) cfg ∅ true evs eq_refl).
Defined.

(** X9. The memory tier round trip.  When a session has handled a
    [sandbox-resource-ready] message with non-empty HTML and a usable
    policy under a non-empty resource name, a later session of the same
    namespace asked for that resource, with caching not disabled and a
    memory tier that holds the same entry under the key, finds it at
    once: its cache read reports a hit without calling the persistent
    tier, and the document it shows is the very document the first
    session showed, the injector leaving the rewritten HTML as it is. *)
Theorem memory_round_trip
    (cfg cfg' : Config) (data : JsVal) (st st2 : State) (h policy r : jsstring) :
  hasMethod data m_sandbox_resource_ready = true →
  getProp (paramsOf data) s_html_key = VStr h → h ≠ [] →
  usablePolicy (getProp (paramsOf data) s_csp) policy →
  getProp (paramsOf data) s_resource = VStr r
  ∨ ((∀ x, getProp (paramsOf data) s_resource ≠ VStr x) ∧ resourceUrl cfg = Some r) →
  r ≠ [] →
  cacheNamespace cfg' = cacheNamespace cfg → resourceUrl cfg' = Some r →
  noCacheParam cfg' = false → includes s_cache_buster r = false →
  let st1 := stateOf (handleMessage cfg FromParent data st) in
  htmlCache st2 !! (cacheNamespace cfg ++ s_colons ++ r)
  = htmlCache st1 !! (cacheNamespace cfg ++ s_colons ++ r) →
  ∃ doc, srcdoc st1 = Some doc
         ∧ primeIframeFromCache_start cfg' st2 = (set_srcdoc doc st2, Some true).
Proof.
  intros Hm Hh Hne Hp Hr Hrne Hns Hr' Hnc Hcb st1 Hc.
  exists (ensureCspMeta h policy true).
  assert (Hpne : policy ≠ []) by (by destruct Hp as [[_ ?]|[_ ->]]).
  pose proof (ensureCspMeta_has_csp h policy true Hne Hpne) as Hcsp.
  assert (E : resourceForCacheOf cfg (getProp (paramsOf data) s_resource) = Some r).
  { destruct Hr as [->|[Hx <-]]; [done|by apply resourceForCacheOf_fallback]. }
  subst st1. cbn [handleMessage] in *. rewrite Hm in *.
  rewrite (handleResourceReady_html cfg data st h policy Hh Hp) in *. rewrite E in *.
  cbn [stateOf] in *.
  match type of Hc with context [writeThrough cfg (Some r) ?s ?x] =>
    destruct (writeThrough_write cfg r s x Hrne) as (Hw & _);
    destruct (writeThrough_queue cfg (Some r) s x) as (_ & _ & _ & _ & _ & _ & Hs) end.
  rewrite Hw, lookup_insert_eq in Hc. rewrite Hs. split; [done|].
  rewrite (primeIframeFromCache_start_enabled cfg' st2 r Hr' Hrne Hnc Hcb), Hns, Hc.
  destruct (ensureCspMeta h policy true) as [|c d] eqn:Ed; [done|].
  by rewrite ensureCspMeta_keep.
Qed.

Lemma memory_round_trip_witness :
  let cfg := {| flowId := Some (str "f1"); resourceUrl := Some (str "ui://app/widget");
                noCacheParam := true |} in
  let cfg' := {| flowId := Some (str "f1"); resourceUrl := Some (str "ui://app/widget");
                 noCacheParam := false |} in
  let data :=
    VObj [ (s_method, VStr m_sandbox_resource_ready);
           (s_params, VObj [ (s_html_key, VStr (str "<p>hi</p>")) ]) ] in
  let st1 := stateOf (handleMessage cfg FromParent data (initialState ∅ true)) in
  let st2 := initialState (htmlCache st1) true in
  ∃ doc, srcdoc st1 = Some doc
         ∧ primeIframeFromCache_start cfg' st2 = (set_srcdoc doc st2, Some true).
Proof.
  intros cfg cfg' data st1 st2.
  assert (Hm : hasMethod data m_sandbox_resource_ready = true) by by vm_compute.
  assert (Hh : getProp (paramsOf data) s_html_key = VStr (str "<p>hi</p>")) by by vm_compute.
  assert (Hp : usablePolicy (getProp (paramsOf data) s_csp) DEFAULT_CSP)
    by (right; by vm_compute).
  assert (Hr : getProp (paramsOf data) s_resource = VStr (str "ui://app/widget")
               ∨ ((∀ x, getProp (paramsOf data) s_resource ≠ VStr x)
                  ∧ resourceUrl cfg = Some (str "ui://app/widget")))
    by (right; by vm_compute).
  assert (Hcb : includes s_cache_buster (str "ui://app/widget") = false) by by vm_compute.
  exact (memory_round_trip cfg cfg' data (initialState ∅ true) st2 _ _ _
           Hm Hh ltac:(done) Hp Hr ltac:(done) eq_refl eq_refl eq_refl Hcb eq_refl).
Defined.

(** X10. The double encoding of the cache key and the decoding of the
    endpoint.  For a key of 16-bit code units that can be encoded, the
    twice-encoded key holds no slash and no colon and is not empty, so
    that it is the key segment of the path the helpers build; the one
    decoding of the endpoint gives back the key encoded once, and a second
    decoding the key itself; and the endpoint can always encode the
    segment for the URL of its store. *)
Theorem cache_key_decoded_once
    (key : jsstring) (namespace : jsstring) (path origin method : jsstring)
    (contentType body : option jsstring) :
  codeUnits namespace → codeUnits key → namespace ≠ [] →
  buildCachePath key (Some namespace) = Some path →
  let req := {| rq_method := method; rq_origin := origin; rq_pathname := path;
                rq_contentType := contentType; rq_body := body |} in
  ∃ once enc thrice,
    encodeURIComponent (namespace ++ s_colons ++ key) = Some once
    ∧ encodeCacheKey (namespace ++ s_colons ++ key) = Some enc
    ∧ path = CACHE_ENDPOINT_BASE ++ [c_slash] ++ enc
    ∧ (c_slash ∉ enc) ∧ (c_colon ∉ enc) ∧ enc ≠ []
    ∧ rawSegmentOf path = Some enc
    ∧ decodeURIComponent enc = Some once
    ∧ decodeURIComponent once = Some (namespace ++ s_colons ++ key)
    ∧ encodeURIComponent enc = Some thrice
    ∧ getCacheKey req = Some (Some once, origin ++ s_api_cache ++ thrice).
Proof.
  intros Hns Hk Hne Hp req. rewrite buildCachePath_some in Hp by done.
  destruct (encodeCacheKey (namespace ++ s_colons ++ key)) as [enc|] eqn:E; [|done].
  assert (path = CACHE_ENDPOINT_BASE ++ [c_slash] ++ enc) as -> by (by injection Hp).
  assert (Hc : codeUnits (namespace ++ s_colons ++ key)).
  { apply Forall_app. split; [done|]. apply Forall_app. split; [|done].
    repeat constructor; by vm_compute. }
  assert (Hkne : namespace ++ s_colons ++ key ≠ []) by by destruct namespace.
  destruct (encodeCacheKey_path _ enc Hc Hkne E)
    as (once & thrice & E1 & E2 & E3 & Hc1 & Hc2 & Hchars & Hene & Hraw).
  exists once, enc, thrice.
  assert (Hd : decodeURIComponent enc = Some once) by by apply decode_encode.
  split_and!; try done.
  - intros Hin. apply (proj1 (Forall_forall _ _) Hchars) in Hin.
    by destruct Hin as (_ & _ & _ & ? & _).
  - intros Hin. apply (proj1 (Forall_forall _ _) Hchars) in Hin.
    by destruct Hin as (_ & _ & _ & _ & ?).
  - by apply decode_encode.
  - subst req. unfold getCacheKey. cbn [rq_pathname rq_origin]. rewrite Hraw, Hd, E3. done.
Qed.

Lemma cache_key_decoded_once_witness :
  let path := str "/api/cache/f1%253A%253Aui%253A%252F%252Fapp%252Fwidget" in
  ∃ once enc thrice,
    encodeURIComponent (str "f1" ++ s_colons ++ str "ui://app/widget") = Some once
    ∧ encodeCacheKey (str "f1" ++ s_colons ++ str "ui://app/widget") = Some enc
    ∧ path = CACHE_ENDPOINT_BASE ++ [c_slash] ++ enc
    ∧ (c_slash ∉ enc) ∧ (c_colon ∉ enc) ∧ enc ≠ []
    ∧ rawSegmentOf path = Some enc
    ∧ decodeURIComponent enc = Some once
    ∧ decodeURIComponent once = Some (str "f1" ++ s_colons ++ str "ui://app/widget")
    ∧ encodeURIComponent enc = Some thrice
    ∧ getCacheKey {| rq_method := s_GET; rq_origin := str "https://proxy.test";
                     rq_pathname := path; rq_contentType := None; rq_body := None |}
      = Some (Some once, str "https://proxy.test" ++ s_api_cache ++ thrice).
Proof.
  intros path.
  assert (H1 : codeUnits (str "f1")) by (repeat constructor; by vm_compute).
  assert (H2 : codeUnits (str "ui://app/widget")) by (repeat constructor; by vm_compute).
  assert (H3 : buildCachePath (str "ui://app/widget") (Some (str "f1")) = Some path)
    by by vm_compute.
  exact (cache_key_decoded_once (str "ui://app/widget") (str "f1") path
           (str "https://proxy.test") s_GET None None H1 H2 ltac:(done) H3).
Defined.



(** X12. Distinct keys never share an entry of the persistent tier.  For
    two namespaces without a colon and two resource names, all of 16-bit
    code units: when the namespaces or the resource names differ, the two
    paths the helpers build differ, and HTML posted at one of them leaves
    the answer to a [GET] at the other as it was. *)
Theorem distinct_keys_distinct_entries
    (JSON_parse : jsstring → option JsVal) (ns ns' r r' p p' origin html : jsstring)
    (cache : gmap jsstring Response) :
  codeUnits ns → codeUnits ns' → codeUnits r → codeUnits r' →
  ns ≠ [] → ns' ≠ [] → c_colon ∉ ns → c_colon ∉ ns' →
  buildCachePath r (Some ns) = Some p → buildCachePath r' (Some ns') = Some p' →
  ns ≠ ns' ∨ r ≠ r' →
  p ≠ p'
  ∧ let cache' := (handler JSON_parse cache (requestOf origin (postCall p html))).2 in
    (handler JSON_parse cache' (requestOf origin (getCall p'))).1
    = (handler JSON_parse cache (requestOf origin (getCall p'))).1.
Proof.
  intros Hns Hns' Hr Hr' Hne Hne' Hc Hc' Hp Hp' Hd.
  rewrite buildCachePath_some in Hp, Hp' by done.
  destruct (encodeCacheKey (ns ++ s_colons ++ r)) as [enc|] eqn:E; [|done].
  destruct (encodeCacheKey (ns' ++ s_colons ++ r')) as [enc'|] eqn:E'; [|done].
  assert (p = CACHE_ENDPOINT_BASE ++ [c_slash] ++ enc) as -> by (by injection Hp).
  assert (p' = CACHE_ENDPOINT_BASE ++ [c_slash] ++ enc') as -> by (by injection Hp').
  clear Hp Hp'.
  assert (Hk : ∀ a b, codeUnits a → codeUnits b → codeUnits (a ++ s_colons ++ b)).
  { intros a b Ha Hb. apply Forall_app. split; [done|]. apply Forall_app. split; [|done].
    repeat constructor; by vm_compute. }
  destruct (encodeCacheKey_path _ enc (Hk _ _ Hns Hr) ltac:(by destruct ns) E)
    as (once & thrice & E1 & E2 & E3 & Hc1 & Hc2 & _ & _ & Hraw).
  destruct (encodeCacheKey_path _ enc' (Hk _ _ Hns' Hr') ltac:(by destruct ns') E')
    as (once' & thrice' & E1' & E2' & E3' & Hc1' & Hc2' & _ & _ & Hraw').
  assert (Henc : enc ≠ enc').
  { intros <-. assert (once = once') as <- by by eapply encodeURIComponent_inj.
    assert (ns ++ s_colons ++ r = ns' ++ s_colons ++ r') as Ek
      by (eapply encodeURIComponent_inj; [| |exact E1|exact E1']; by apply Hk).
    apply namespaced_inj in Ek as [-> ->]; [|done..]. by destruct Hd. }
  split.
  - intros Ep. by apply app_inv_head, app_inv_head in Ep.
  - cbn zeta.
    assert (Hu : origin ++ s_api_cache ++ thrice ≠ origin ++ s_api_cache ++ thrice').
    { intros Eu. apply app_inv_head, app_inv_head in Eu. subst thrice'.
      apply Henc. by eapply encodeURIComponent_inj. }
    rewrite !(handler_get JSON_parse _ (requestOf origin (getCall _)) enc' thrice'
                eq_refl Hraw' E3').
    cbn [fst requestOf rq_origin].
    unfold handler at 1. unfold getCacheKey. cbn [requestOf rq_pathname rq_origin postCall fc_path].
    rewrite Hraw, E3. cbn [mbind option_bind].
    destruct (isEmpty _); [done|].
    destruct (bool_decide _); [by destruct (readFromCache _ _)|].
    destruct (bool_decide _); [|done].
    destruct (postedHtml _ _) as [[html'|]|]; try done.
    destruct (isEmpty html'); [done|]. cbn [snd]. unfold writeToCache.
    by rewrite lookup_insert_ne.
Qed.

Lemma distinct_keys_distinct_entries_witness :
  let p := str "/api/cache/f1%253A%253Aui%253A%252F%252Fapp%252Fwidget" in
  let p' := str "/api/cache/f2%253A%253Aui%253A%252F%252Fapp%252Fwidget" in
  let origin := str "https://proxy.test" in
  p ≠ p'
  ∧ let cache' := (handler (λ _, None) ∅ (requestOf origin (postCall p (str "<p>hi</p>")))).2 in
    (handler (λ _, None) cache' (requestOf origin (getCall p'))).1
    = (handler (λ _, None) ∅ (requestOf origin (getCall p'))).1.
Proof.
  intros p p' origin.
  assert (H1 : codeUnits (str "f1")) by (repeat constructor; by vm_compute).
  assert (H1' : codeUnits (str "f2")) by (repeat constructor; by vm_compute).
  assert (H2 : codeUnits (str "ui://app/widget")) by (repeat constructor; by vm_compute).
  assert (Hc : c_colon ∉ str "f1")
    by (apply (bool_decide_eq_false_1 (c_colon ∈ str "f1")); by vm_compute).
  assert (Hc' : c_colon ∉ str "f2")
    by (apply (bool_decide_eq_false_1 (c_colon ∈ str "f2")); by vm_compute).
  assert (Hp : buildCachePath (str "ui://app/widget") (Some (str "f1")) = Some p)
    by by vm_compute.
  assert (Hp' : buildCachePath (str "ui://app/widget") (Some (str "f2")) = Some p')
    by by vm_compute.
  assert (Hn : str "f1" ≠ []) by done.
  assert (Hn' : str "f2" ≠ []) by done.
  assert (Hd : str "f1" ≠ str "f2" ∨ str "ui://app/widget" ≠ str "ui://app/widget")
    by (by left).
  exact (distinct_keys_distinct_entries (λ _, None) (str "f1") (str "f2") _ _ p p' origin
           (str "<p>hi</p>") ∅ H1 H1' H2 H2 Hn Hn' Hc Hc' Hp Hp' Hd).
Defined.

(** X13. The store of the endpoint changes only by a [POST] that is
    answered 200: one entry, the response built from the posted HTML, which
    is not empty, is set at the URL of the key segment.  A [GET], a request
    of another method and every request that is answered with an error or
    raises leave the store as it is. *)
Theorem only_a_successful_post_writes
    (JSON_parse : jsstring → option JsVal) (cache : gmap jsstring Response) (req : Request) :
  (handler JSON_parse cache req).2 = cache
  ∨ (rq_method req = s_POST
     ∧ (handler JSON_parse cache req).1 = Responded (jsonResponse 200 jsonOk)
     ∧ ∃ raw encoded html,
         rawSegmentOf (rq_pathname req) = Some raw
         ∧ encodeURIComponent raw = Some encoded
         ∧ postedHtml JSON_parse req = Some (Some html) ∧ html ≠ []
         ∧ (handler JSON_parse cache req).2
           = <[rq_origin req ++ s_api_cache ++ encoded := cachedResponse html]> cache).
Proof.
  unfold handler, getCacheKey.
  destruct (rawSegmentOf (rq_pathname req)) as [raw|] eqn:Hraw; [|by left].
  destruct (encodeURIComponent raw) as [encoded|] eqn:He; [|by left].
  cbn [mbind option_bind].
  destruct (isEmpty _); [by left|].
  destruct (bool_decide (rq_method req = s_GET)); [left; by destruct (readFromCache _ _)|].
  destruct (bool_decide (rq_method req = s_POST)) eqn:Hm; [|by left].
  apply bool_decide_eq_true_1 in Hm.
  destruct (postedHtml JSON_parse req) as [[html|]|] eqn:Hp; [|by left..].
  destruct html as [|c html]; [by left|]. cbn [isEmpty fst snd]. right.
  split_and!; [done..|]. by exists raw, encoded, (c :: html).
Qed.

(** X14. What the endpoint refuses.  A path without key segment is
    answered 400 whatever the method, the key being tested before the
    method.  With a key segment: a method other than [GET] and [POST] is
    answered 405 with the method named in the body and [Allow: GET, POST];
    a [POST] whose content type is not JSON and whose body is absent or
    empty is answered 400, and so is a JSON [POST] whose [html] field is
    the empty string.  None of them changes the store. *)
Theorem endpoint_refusals
    (JSON_parse : jsstring → option JsVal) (cache : gmap jsstring Response) (req : Request) :
  (rawSegmentOf (rq_pathname req) = None →
     handler JSON_parse cache req
     = (Responded (jsonResponse 400 (jsonError s_missing_key)), cache))
  ∧ (∀ raw encoded,
       rawSegmentOf (rq_pathname req) = Some raw →
       encodeURIComponent raw = Some encoded →
       (rq_method req ≠ s_GET → rq_method req ≠ s_POST →
          handler JSON_parse cache req
          = (Responded {| rs_status := 405;
                          rs_body := str "Method " ++ rq_method req ++ str " Not Allowed";
                          rs_headers := [(s_Allow, s_GET_POST)] |}, cache))
       ∧ (rq_method req = s_POST →
          includes s_application_json (default [] (rq_contentType req)) = false →
          rq_body req = None ∨ rq_body req = Some [] →
          handler JSON_parse cache req
          = (Responded (jsonResponse 400 (jsonError s_missing_body)), cache))
       ∧ (∀ text body,
            rq_method req = s_POST →
            includes s_application_json (default [] (rq_contentType req)) = true →
            rq_body req = Some text → JSON_parse text = Some body →
            getProp body s_html_key = VStr [] →
            handler JSON_parse cache req
            = (Responded (jsonResponse 400 (jsonError s_missing_body)), cache))).
Proof.
  split.
  - intros Hraw. unfold handler. by rewrite (getCacheKey_no_segment req Hraw).
  - intros raw encoded Hraw He.
    destruct (getCacheKey_segment req raw encoded Hraw He) as (key & Hkey & Hg).
    unfold handler. rewrite Hg. cbn [default]. destruct key as [|c key]; [done|].
    cbn [isEmpty]. split_and!.
    + intros Hget Hpost. by rewrite !bool_decide_eq_false_2.
    + intros Hm Hct Hb. rewrite Hm. cbn [bool_decide]. 
      rewrite bool_decide_eq_false_2 by done. rewrite bool_decide_eq_true_2 by done.
      unfold postedHtml. rewrite Hct. by destruct Hb as [->| ->].
    + intros text body Hm Hct Hb Hj Hh. rewrite Hm.
      rewrite bool_decide_eq_false_2 by done. rewrite bool_decide_eq_true_2 by done.
      unfold postedHtml. by rewrite Hct, Hb, Hj, Hh.
Qed.

(** X15. The key segment of a path.  One trailing slash after the key is
    tolerated: the request is handled as the request without it.  Two
    trailing slashes are not: whatever comes before them, the request is
    answered 400. *)
Theorem trailing_slash_tolerated
    (JSON_parse : jsstring → option JsVal) (cache : gmap jsstring Response)
    (pre seg method origin : jsstring) (contentType body : option jsstring) :
  c_slash ∉ seg → seg ≠ [] →
  let request path :=
    {| rq_method := method; rq_origin := origin; rq_pathname := path;
       rq_contentType := contentType; rq_body := body |} in
  rawSegmentOf (pre ++ [c_slash] ++ seg) = Some seg
  ∧ rawSegmentOf (pre ++ [c_slash] ++ seg ++ [c_slash]) = Some seg
  ∧ handler JSON_parse cache (request (pre ++ [c_slash] ++ seg ++ [c_slash]))
    = handler JSON_parse cache (request (pre ++ [c_slash] ++ seg))
  ∧ handler JSON_parse cache (request (pre ++ [c_slash] ++ seg ++ [c_slash; c_slash]))
    = (Responded (jsonResponse 400 (jsonError s_missing_key)), cache).
Proof.
  intros Hs Hne request.
  pose proof (rawSegmentOf_last pre seg Hs Hne) as H1.
  pose proof (rawSegmentOf_trailing pre seg Hs Hne) as H2.
  split_and!; try done.
  - apply handler_pathname; try done. cbn [request rq_pathname app]. by rewrite H1, H2.
  - unfold handler. rewrite getCacheKey_no_segment; [done|].
    cbn [request rq_pathname].
    replace (pre ++ [c_slash] ++ seg ++ [c_slash; c_slash])
      with ((pre ++ [c_slash] ++ seg) ++ [c_slash; c_slash]) by (by rewrite <- !app_assoc).
    apply rawSegmentOf_two_slashes.
Qed.

Lemma trailing_slash_tolerated_witness :
  let request path :=
    {| rq_method := s_GET; rq_origin := str "https://proxy.test"; rq_pathname := path;
       rq_contentType := None; rq_body := None |} in
  rawSegmentOf (str "/api/cache" ++ [c_slash] ++ str "k") = Some (str "k")
  ∧ rawSegmentOf (str "/api/cache" ++ [c_slash] ++ str "k" ++ [c_slash]) = Some (str "k")
  ∧ handler (λ _, None) ∅ (request (str "/api/cache" ++ [c_slash] ++ str "k" ++ [c_slash]))
    = handler (λ _, None) ∅ (request (str "/api/cache" ++ [c_slash] ++ str "k"))
  ∧ handler (λ _, None) ∅
      (request (str "/api/cache" ++ [c_slash] ++ str "k" ++ [c_slash; c_slash]))
    = (Responded (jsonResponse 400 (jsonError s_missing_key)), ∅).
Proof.
  assert (Hs : c_slash ∉ str "k")
    by (apply (bool_decide_eq_false_1 (c_slash ∈ str "k")); by vm_compute).
  assert (Hne : str "k" ≠ []) by done.
  exact (trailing_slash_tolerated (λ _, None) ∅ (str "/api/cache") (str "k") s_GET
           (str "https://proxy.test") None None Hs Hne).
Defined.

(** X16. What the mount of a session asked for a non-empty resource sends
    to the host.  [sandbox-ready] is posted first.  For an HTTP(S)
    resource nothing else happens but the setting of [src]: no cache is
    read, nothing is fetched, the document source is left alone and the
    resource is not asked for.  Otherwise the resource is asked of the host
    exactly when the cache read ends on a miss: at once when it ends
    without waiting, after the answer of the persistent tier when it waits
    for one, and never on a hit. *)
Theorem resource_requested_exactly_on_miss
    (isHttpUrl : jsstring → bool) (cfg : Config) (st : State) (r : jsstring) :
  resourceUrl cfg = Some r → r ≠ [] →
  let ready := notification m_sandbox_ready cfg in
  let request := notification m_sandbox_resource cfg in
  let st1 := mount isHttpUrl cfg st in
  (isHttpUrl r = true →
     st1 = set_src r (set_toParent (toParent st ++ [ready]) st))
  ∧ (isHttpUrl r = false →
     match (primeIframeFromCache_start cfg st).2 with
     | Some true => toParent st1 = toParent st ++ [ready]
     | Some false => toParent st1 = toParent st ++ [ready; request]
     | None =>
         toParent st1 = toParent st ++ [ready]
         ∧ ∀ o, toParent (step cfg st1 (EvFetched o))
                = toParent st ++ [ready]
                    ++ (if (primeIframeFromCache_resume cfg o st1).2 then [] else [request])
     end).
Proof.
  intros Hr Hne ready request st1. subst st1. unfold mount. rewrite Hr.
  destruct r as [|c r]; [done|]. cbn [isEmpty negb andb]. split.
  - by intros ->.
  - intros ->. rewrite primeIframeFromCache_start_toParent.
    destruct (primeIframeFromCache_start_fields cfg st) as (_ & _ & _ & _ & Hp & _).
    destruct (primeIframeFromCache_start cfg st) as [st' [[|]|]]; cbn [fst snd] in *.
    + unfold afterPrime. rewrite Hr. cbn. by rewrite ?Hp.
    + unfold afterPrime. rewrite Hr. cbn. rewrite ?Hp, <- app_assoc. done.
    + cbn. rewrite ?Hp. split; [done|]. intros o.
      match goal with |- context [primeIframeFromCache_resume cfg o ?s] =>
        assert (Ht : toParent (primeIframeFromCache_resume cfg o s).1 = toParent s);
        [|destruct (primeIframeFromCache_resume cfg o s) as [s' found]] end.
      { unfold primeIframeFromCache_resume. destruct (namespacedKey cfg); [|done].
        destruct (fetchCachedHtmlFromApi_result o) as [h|]; [|done].
        by destruct (isEmpty h). }
      cbn [fst snd] in *. unfold afterPrime. rewrite Hr. cbn [isEmpty orb].
      destruct found; rewrite ?app_nil_r; cbn; rewrite ?Ht; cbn; by rewrite ?Hp, <- ?app_assoc.
Qed.

Lemma resource_requested_exactly_on_miss_witness :
  let cfg := {| flowId := Some (str "f1"); resourceUrl := Some (str "ui://app/widget");
                noCacheParam := true |} in
  let st := initialState ∅ true in
  toParent (mount (λ _, false) cfg st)
  = toParent st ++ [notification m_sandbox_ready cfg; notification m_sandbox_resource cfg].
Proof.
  intros cfg st.
  assert (Hne : str "ui://app/widget" ≠ []) by done.
  exact (proj2 (resource_requested_exactly_on_miss (λ _, false) cfg st _ eq_refl Hne) eq_refl).
Defined.

(** X17. Handling [sandbox-resource-ready] cancels no fallback timer.  A
    timer set by an earlier load is still set after the new document has
    been made the document source, and when it expires the messages of the
    host queued so far are posted to the widget and the session becomes
    ready, without any [client-ready] of the new document. *)
Theorem stale_timer_flushes_new_document
    (cfg : Config) (data : JsVal) (st : State) (id : nat) (h policy : jsstring)
    (ms : list JsVal) :
  attached st = true → id ∈ timers st →
  hasMethod data m_sandbox_resource_ready = true →
  getProp (paramsOf data) s_html_key = VStr h →
  usablePolicy (getProp (paramsOf data) s_csp) policy →
  Forall relayed ms →
  let st1 := stateOf (handleMessage cfg FromParent data st) in
  let st2 := run cfg (EvMessage FromParent <$> ms) st1 in
  let st3 := step cfg st2 (EvTimeout id) in
  (srcdoc st1 = Some (ensureCspMeta h policy true) ∧ innerReady st1 = false
   ∧ timers st1 = timers st)
  ∧ (pendingMessages st2 = pendingMessages st ++ ms ∧ toInner st2 = toInner st)
  ∧ (toInner st3 = toInner st ++ pendingMessages st ++ ms
     ∧ pendingMessages st3 = [] ∧ innerReady st3 = true).
Proof.
  intros Ha Hid Hm Hh Hp Hms st1 st2 st3.
  assert (H1 : attached st1 = true ∧ innerReady st1 = false
               ∧ toInner st1 = toInner st ∧ pendingMessages st1 = pendingMessages st
               ∧ srcdoc st1 = Some (ensureCspMeta h policy true)
               ∧ timers st1 = timers st).
  { subst st1. cbn [handleMessage]. rewrite Hm.
    rewrite (handleResourceReady_html cfg data st h policy Hh Hp). cbn [stateOf].
    match goal with |- context [writeThrough cfg ?o ?s ?x] =>
      destruct (writeThrough_queue cfg o s x) as (-> & -> & -> & -> & _ & _ & ->);
      destruct (writeThrough_fields cfg o s x) as (_ & -> & _) end.
    done. }
  destruct H1 as (Ha1 & Hr1 & Ht1 & Hq1 & Hs1 & Htm1).
  assert (E2 : st2 = set_pendingMessages (pendingMessages st1 ++ ms) st1)
    by by apply run_relay_queued.
  assert (Hid2 : isHandshake st2 (EvTimeout id)).
  { rewrite E2. cbn. by rewrite Htm1. }
  assert (Ha2 : attached st2 = true) by by rewrite E2.
  assert (Hr2 : innerReady st2 = false) by by rewrite E2.
  destruct (step_handshake cfg st2 (EvTimeout id) Ha2 Hr2 Hid2) as (Hi3 & Hq3 & Hr3 & _).
  fold st3 in Hi3, Hq3, Hr3. rewrite Hi3, Hq3, Hr3, E2. cbn.
  rewrite Ht1, Hq1. by split_and!.
Qed.

Lemma stale_timer_flushes_new_document_witness :
  let cfg := {| flowId := Some (str "f1"); resourceUrl := Some (str "ui://app/widget");
                noCacheParam := false |} in
  let data :=
    VObj [ (s_method, VStr m_sandbox_resource_ready);
           (s_params, VObj [ (s_html_key, VStr (str "<p>hi</p>")) ]) ] in
  let m := VObj [ (s_method, VStr (str "ui/notifications/tool-input")) ] in
  let st := onLoad (initialState ∅ true) in
  let st1 := stateOf (handleMessage cfg FromParent data st) in
  let st2 := run cfg (EvMessage FromParent <$> [m]) st1 in
  let st3 := step cfg st2 (EvTimeout 1) in
  (srcdoc st1 = Some (ensureCspMeta (str "<p>hi</p>") DEFAULT_CSP true)
   ∧ innerReady st1 = false ∧ timers st1 = timers st)
  ∧ (pendingMessages st2 = pendingMessages st ++ [m] ∧ toInner st2 = toInner st)
  ∧ (toInner st3 = toInner st ++ pendingMessages st ++ [m]
     ∧ pendingMessages st3 = [] ∧ innerReady st3 = true).
Proof.
  intros cfg data m st.
  assert (Hid : 1 ∈ timers st) by (apply (bool_decide_eq_true_1 (1 ∈ timers st)); by vm_compute).
  assert (Hm : hasMethod data m_sandbox_resource_ready = true) by by vm_compute.
  assert (Hh : getProp (paramsOf data) s_html_key = VStr (str "<p>hi</p>")) by by vm_compute.
  assert (Hp : usablePolicy (getProp (paramsOf data) s_csp) DEFAULT_CSP)
    by (right; by vm_compute).
  assert (Hms : Forall relayed [m]) by (repeat constructor).
  exact (stale_timer_flushes_new_document cfg data st 1 _ _ [m] eq_refl Hid Hm Hh Hp Hms).
Defined.

(** X18. The memory tier.  A document written under a key is what is read
    under that key, whatever was there before, and under every other key
    what is read is as it was; [hasCachedHtml] holds exactly of the keys
    under which a document is read.  An empty document can be written and
    is then there for [hasCachedHtml], but the cache read of the session
    takes it for a miss: it does the same as with no entry. *)
Theorem memory_tier_set_get (key html : jsstring) (st : State) :
  getCachedHtml key (setCachedHtml key html st) = Some html
  ∧ hasCachedHtml key (setCachedHtml key html st) = true
  ∧ (∀ key', key' ≠ key →
       getCachedHtml key' (setCachedHtml key html st) = getCachedHtml key' st
       ∧ hasCachedHtml key' (setCachedHtml key html st) = hasCachedHtml key' st)
  ∧ (∀ key', hasCachedHtml key' st = true ↔ is_Some (getCachedHtml key' st))
  ∧ (∀ cfg,
       namespacedKey cfg = Some key → htmlCache st !! key = None →
       let st' := setCachedHtml key [] st in
       hasCachedHtml key st' = true
       ∧ (primeIframeFromCache_start cfg st').2 = (primeIframeFromCache_start cfg st).2
       ∧ fetched (primeIframeFromCache_start cfg st').1
         = fetched (primeIframeFromCache_start cfg st).1
       ∧ srcdoc (primeIframeFromCache_start cfg st').1 = srcdoc st).
Proof.
  unfold getCachedHtml, hasCachedHtml, setCachedHtml. cbn [htmlCache set_htmlCache].
  split_and!.
  - by rewrite lookup_insert_eq.
  - rewrite lookup_insert_eq. by apply bool_decide_eq_true_2.
  - intros key' Hne. by rewrite lookup_insert_ne.
  - intros key'. apply bool_decide_eq_true.
  - intros cfg Hk Hnone. cbn zeta.
    unfold primeIframeFromCache_start, getCachedHtml, fetchCachedHtmlFromApi_call.
    rewrite Hk. cbn [htmlCache fetchAvailable set_htmlCache].
    rewrite lookup_insert_eq, Hnone. split; [by apply bool_decide_eq_true_2|].
    destruct (resourceUrl cfg) as [r|]; [|done].
    destruct (noCacheParam cfg || includes s_cache_buster r); [done|].
    cbn [isEmpty negb]. destruct (fetchAvailable st); cbn [negb]; [|done].
    by destruct (buildCachePath r (Some (cacheNamespace cfg))).
Qed.

(** X19. In every state a session reaches from its mount, the sandbox
    attribute of the inner iframe is not blank: it is the default, or a
    string sent by the host that is not blank. *)
Theorem sandbox_attribute_never_blank
    (isHttpUrl : jsstring → bool) (cfg : Config) (cache : gmap jsstring jsstring)
    (hasFetch : bool) (evs : list Event) :
  trim (sandbox (run cfg evs (mount isHttpUrl cfg (initialState cache hasFetch)))) ≠ [].
Proof.
  fold (sandboxSet (run cfg evs (mount isHttpUrl cfg (initialState cache hasFetch)))).
  destruct (mount_calls isHttpUrl cfg (initialState cache hasFetch)) as [Hs Hi];
    [by vm_compute|done|].
  revert Hs Hi. generalize (mount isHttpUrl cfg (initialState cache hasFetch)).
  induction evs as [|ev evs IH]; intros s Hs Hi; [done|].
  rewrite run_cons. destruct (step_calls cfg s ev Hs Hi). by apply IH.
Qed.

(** X20. The calls of a session.  In every state a session reaches from
    its mount, every call of [fetch] it has made is a [GET] or a [POST] at
    the path of the cache endpoint for a twice-encoded key; only the first
    call can be a [GET], the one of the cache read at the mount, every
    later call being a [POST]; and where [fetch] is not there no call is
    made. *)
Theorem session_calls_only_the_cache_endpoint
    (isHttpUrl : jsstring → bool) (cfg : Config) (cache : gmap jsstring jsstring)
    (hasFetch : bool) (evs : list Event) :
  let st := run cfg evs (mount isHttpUrl cfg (initialState cache hasFetch)) in
  Forall cacheCall (fetched st)
  ∧ Forall (λ call, fc_method call = s_POST) (tail (fetched st))
  ∧ (hasFetch = false → fetched st = []).
Proof.
  cbn zeta.
  assert (H : fetchedInv (run cfg evs (mount isHttpUrl cfg (initialState cache hasFetch)))
              ∧ fetchAvailable (run cfg evs (mount isHttpUrl cfg (initialState cache hasFetch)))
                = hasFetch).
  { destruct (mount_calls isHttpUrl cfg (initialState cache hasFetch)) as [Hs Hi];
      [by vm_compute|done|].
    assert (Hf : fetchAvailable (mount isHttpUrl cfg (initialState cache hasFetch)) = hasFetch).
    { unfold mount. set (st0 := set_toParent _ _).
      assert (H0 : fetchAvailable (primeIframeFromCache_start cfg st0).1 = hasFetch).
      { unfold primeIframeFromCache_start.
        destruct (resourceUrl cfg) as [r|]; [|done].
        destruct (namespacedKey cfg) as [key|]; [|done].
        destruct (noCacheParam cfg || includes s_cache_buster r); [done|].
        destruct (getCachedHtml key st0) as [[|c h]|]; cbn [isEmpty negb]; try done;
          by destruct (fetchCachedHtmlFromApi_call r _ st0). }
      destruct (primeIframeFromCache_start cfg st0) as [st1 [found|]]; cbn [fst] in H0;
        unfold afterPrime; destruct (resourceUrl cfg) as [r|];
        try destruct (negb (isEmpty r) && isHttpUrl r); try done;
        by destruct (isEmpty r || found). }
    revert Hs Hi Hf. generalize (mount isHttpUrl cfg (initialState cache hasFetch)).
    induction evs as [|ev evs IH]; intros s Hs Hi Hf; [done|].
    rewrite run_cons. destruct (step_calls cfg s ev Hs Hi). apply IH; [done..|].
    rewrite <- Hf. clear. destruct ev as [source data| |id|o|]; cbn [step]; try done.
    - destruct (attached s); [|done]. destruct source; cbn [handleMessage].
      + destruct (hasMethod data m_client_ready); cbn [stateOf]; [|done].
        unfold flushPendingMessages, clearFlushTimeout.
        destruct (flushTimeout s); cbn [attached set_timers];
          destruct (attached s); cbn [negb]; try done; by rewrite flushLoop_spec.
      + destruct (hasMethod data m_sandbox_resource_ready).
        * unfold handleResourceReady.
          destruct (getProp (paramsOf data) s_html_key) as [| | | |html|]; try done.
          destruct (ensureCspMetaAny html _ true) as [safe|]; [|done]. cbn [stateOf].
          match goal with |- context [writeThrough cfg ?o safe ?x] =>
            by destruct (writeThrough_calls cfg o safe x) as (-> & _) end.
        * cbn [stateOf]. unfold forwardToInner. by destruct (innerReady s && attached s).
      + done.
    - unfold onTimeout. destruct (bool_decide (id ∈ timers s)); [|done].
      unfold fallbackCallback. cbn [innerReady set_timers].
      destruct (innerReady s); cbn [negb]; [done|].
      unfold flushPendingMessages. cbn [attached set_timers]. destruct (attached s); cbn [negb]; [|done].
      by rewrite flushLoop_spec.
    - unfold primeIframeFromCache_resume, afterPrime.
      destruct (namespacedKey cfg), (fetchCachedHtmlFromApi_result o) as [h|];
        try destruct (isEmpty h); cbn [negb];
        destruct (resourceUrl cfg) as [r|]; try destruct (isEmpty r); done. }
  destruct H as [(H1 & H2 & H3) Hf]. split_and!; [done..|]. intros ->. by apply H3.
Qed.

(** X21. Applying the injector a second time.  For non-empty policies
    without a [$] and every document: with the overwrite flag on, the
    second pass replaces exactly the tag of the first pass, so that the
    result is that of a single pass with the second policy, whatever the
    flag of the first pass was; in particular the pass with the flag on
    is idempotent.  With the flag off, the second pass changes nothing. *)
Theorem ensureCspMeta_last_policy_wins (html csp1 csp2 : jsstring) (overwrite : bool) :
  csp1 ≠ [] → csp2 ≠ [] → c_dollar ∉ csp1 → c_dollar ∉ csp2 →
  ensureCspMeta (ensureCspMeta html csp1 overwrite) csp2 true = ensureCspMeta html csp2 true
  ∧ ensureCspMeta (ensureCspMeta html csp1 true) csp1 true = ensureCspMeta html csp1 true
  ∧ ensureCspMeta (ensureCspMeta html csp1 overwrite) csp2 false
    = ensureCspMeta html csp1 overwrite.
Proof.
  intros H1 H2 Hd1 Hd2.
  assert (Hagain : ∀ a b ow, a ≠ [] → b ≠ [] → c_dollar ∉ a → c_dollar ∉ b →
            ensureCspMeta (ensureCspMeta html a ow) b true = ensureCspMeta html b true).
  { clear. intros csp1 csp2 overwrite H1 H2 Hd1 Hd2. destruct html as [|c html]; [done|].
    destruct (re_test cspRegex (c :: html)) eqn:Ht; [destruct overwrite|].
    - destruct (ensureCspMeta_tag_position (c :: html) true ltac:(done) ltac:(by left))
        as (P & Q & H).
      destruct (H csp1 H1 Hd1) as [-> Hn]. destruct (H csp2 H2 Hd2) as [-> _].
      apply (ensureCspMeta_replace _ _ P [] Q H2 Hd2).
      apply re_search_intro; [done|apply cspRegex_metaTag].
    - by rewrite ensureCspMeta_keep.
    - destruct (ensureCspMeta_tag_position (c :: html) overwrite ltac:(done) ltac:(by right))
        as (P & Q & H).
      destruct (H csp1 H1 Hd1) as [-> Hn].
      rewrite (ensureCspMeta_replace _ _ P [] Q H2 Hd2)
        by (apply re_search_intro; [done|apply cspRegex_metaTag]).
      destruct (H csp2 H2 Hd2) as [<- _].
      by rewrite !(ensureCspMeta_inject (c :: html) csp2 _ ltac:(done) H2 Ht). }
  split_and!; [by apply Hagain..|].
  destruct html as [|c html]; [done|].
  apply ensureCspMeta_keep. by apply ensureCspMeta_has_csp.
Qed.

Lemma ensureCspMeta_last_policy_wins_witness :
  let html := str "<html><body>x</body></html>" in
  let csp1 := str "default-src 'none'" in
  let csp2 := str "img-src *" in
  ensureCspMeta (ensureCspMeta html csp1 false) csp2 true = ensureCspMeta html csp2 true
  ∧ ensureCspMeta (ensureCspMeta html csp1 true) csp1 true = ensureCspMeta html csp1 true
  ∧ ensureCspMeta (ensureCspMeta html csp1 false) csp2 false
    = ensureCspMeta html csp1 false.
Proof.
  intros html csp1 csp2.
  assert (H1 : csp1 ≠ []) by done.
  assert (H2 : csp2 ≠ []) by done.
  assert (Hd1 : c_dollar ∉ csp1)
    by (apply (bool_decide_eq_false_1 (c_dollar ∈ csp1)); by vm_compute).
  assert (Hd2 : c_dollar ∉ csp2)
    by (apply (bool_decide_eq_false_1 (c_dollar ∈ csp2)); by vm_compute).
  exact (ensureCspMeta_last_policy_wins html csp1 csp2 false H1 H2 Hd1 Hd2).
Defined.

(** X22. A message is handled by where it comes from, whatever its
    method.  A message of the widget never changes the document source,
    [src], the sandbox attribute or the caches, and makes no call: a
    widget that sends [sandbox-resource-ready] has it passed on to the
    host like any other message.  A message of the host posts nothing to
    the host, sets no timer and never makes the session ready: a
    [client-ready] of the host is relayed to the widget like any other
    message.  A message of any other window changes nothing. *)
Theorem messages_are_handled_by_source (cfg : Config) (data : JsVal) (st : State) :
  let widget := stateOf (handleMessage cfg FromInner data st) in
  let host := stateOf (handleMessage cfg FromParent data st) in
  (srcdoc widget = srcdoc st ∧ src widget = src st ∧ sandbox widget = sandbox st
   ∧ htmlCache widget = htmlCache st ∧ fetched widget = fetched st)
  ∧ (hasMethod data m_client_ready = false → toParent widget = toParent st ++ [data])
  ∧ (toParent host = toParent st ∧ timers host = timers st
     ∧ (innerReady host = true → innerReady st = true))
  ∧ (hasMethod data m_sandbox_resource_ready = false →
     (toInner host = toInner st ++ [data] ∧ pendingMessages host = pendingMessages st)
     ∨ (toInner host = toInner st ∧ pendingMessages host = pendingMessages st ++ [data]))
  ∧ handleMessage cfg FromElsewhere data st = Returned st.
Proof.
  cbn zeta. split_and!; try done.
  - cbn [handleMessage]. destruct (hasMethod data m_client_ready); cbn [stateOf]; [|done].
    by destruct (flushPendingMessages_fields (clearFlushTimeout st)) as (-> & _);
      unfold clearFlushTimeout; destruct (flushTimeout st).
  - cbn [handleMessage]. destruct (hasMethod data m_client_ready); cbn [stateOf]; [|done].
    by destruct (flushPendingMessages_fields (clearFlushTimeout st)) as (_ & -> & _);
      unfold clearFlushTimeout; destruct (flushTimeout st).
  - cbn [handleMessage]. destruct (hasMethod data m_client_ready); cbn [stateOf]; [|done].
    by destruct (flushPendingMessages_fields (clearFlushTimeout st)) as (_ & _ & -> & _);
      unfold clearFlushTimeout; destruct (flushTimeout st).
  - cbn [handleMessage]. destruct (hasMethod data m_client_ready); cbn [stateOf]; [|done].
    by destruct (flushPendingMessages_fields (clearFlushTimeout st)) as (_ & _ & _ & -> & _);
      unfold clearFlushTimeout; destruct (flushTimeout st).
  - cbn [handleMessage]. destruct (hasMethod data m_client_ready); cbn [stateOf]; [|done].
    by destruct (flushPendingMessages_fields (clearFlushTimeout st))
      as (_ & _ & _ & _ & -> & _);
      unfold clearFlushTimeout; destruct (flushTimeout st).
  - cbn [handleMessage]. by intros ->.
  - cbn [handleMessage]. destruct (hasMethod data m_sandbox_resource_ready).
    + by destruct (handleResourceReady_queue cfg data st) as (_ & _ & _ & ->).
    + cbn [stateOf]. unfold forwardToInner. by destruct (innerReady st && attached st).
  - cbn [handleMessage]. destruct (hasMethod data m_sandbox_resource_ready).
    + unfold handleResourceReady.
      destruct (getProp (paramsOf data) s_html_key) as [| | | |html|]; try done.
      destruct (ensureCspMetaAny html _ true) as [safe|]; [|done]. cbn [stateOf].
      match goal with |- context [writeThrough cfg ?o safe ?s] =>
        by destruct (writeThrough_fields cfg o safe s) as (_ & -> & _) end.
    + cbn [stateOf]. unfold forwardToInner. by destruct (innerReady st && attached st).
  - cbn [handleMessage]. destruct (hasMethod data m_sandbox_resource_ready).
    + unfold handleResourceReady.
      destruct (getProp (paramsOf data) s_html_key) as [| | | |html|]; try done.
      destruct (ensureCspMetaAny html _ true) as [safe|]; [|done]. cbn [stateOf].
      match goal with |- context [writeThrough cfg ?o safe ?s] =>
        by destruct (writeThrough_queue cfg o safe s) as (_ & -> & _) end.
    + cbn [stateOf]. unfold forwardToInner. by destruct (innerReady st && attached st).
  - intros Hm. cbn [handleMessage]. rewrite Hm. cbn [stateOf]. unfold forwardToInner.
    destruct (innerReady st && attached st); cbn; by auto.
Qed.
